(** * NyanTest4SQL: the template renderer, the condition evaluator, the
    canonical comparator and the parameter inference of [main.go].

    Go strings are byte strings; they are modelled by [string], whose
    characters are the 256 byte values.  A run-time panic of the Go program
    is an explicit [Panic] result. *)

From Stdlib Require Import ZArith Ascii String List Lia Bool.
From Stdlib Require Import Floats.SpecFloat.
From stdpp Require Import gmap strings sorting.

Local Open Scope string_scope.

(** ** Results of code that can panic *)

Inductive panic : Set :=
| SliceBoundsOutOfRange   (* s[lo:hi] with lo > hi or hi > len(s) *)
| IndexOutOfRange.        (* sm[i] on a slice that is too short *)

Inductive result (A : Type) : Type :=
| Ok (a : A)
| Panic (p : panic).
Arguments Ok {A} a.
Arguments Panic {A} p.

Definition bind {A B : Type} (r : result A) (k : A -> result B) : result B :=
  match r with
  | Ok a => k a
  | Panic p => Panic p
  end.

Notation "'let*' x ':=' r 'in' k" := (bind r (fun x => k))
  (at level 10, x name, r at level 100, k at level 200).

(** ** Bytes *)

Definition byte_of (n : nat) : ascii := ascii_of_nat n.
Definition code (c : ascii) : nat := nat_of_ascii c.

Definition in_range (lo hi : ascii) (c : ascii) : bool :=
  (code lo <=? code c)%nat && (code c <=? code hi)%nat.

Definition is_digit (c : ascii) : bool := in_range "0" "9" c.
Definition is_lower (c : ascii) : bool := in_range "a" "z" c.
Definition is_upper (c : ascii) : bool := in_range "A" "Z" c.
Definition is_letter (c : ascii) : bool := is_lower c || is_upper c.

Definition lower (c : ascii) : ascii :=
  if is_upper c then byte_of (code c + 32) else c.
Definition upper (c : ascii) : ascii :=
  if is_lower c then byte_of (code c - 32) else c.

(** The double quote and the control characters, which a literal cannot
    hold. *)
Definition dquote : ascii := "034".
Definition squote : ascii := "'".
Definition tab : ascii := "009".
Definition newline : ascii := "010".
Definition vtab : ascii := "011".
Definition formfeed : ascii := "012".
Definition cr : ascii := "013".

Definition DQ : string := String dquote "".
Definition SQ : string := String squote "".
Definition NL : string := String newline "".

(** ** Package [strings] *)

Module strings.

Definition len (s : string) : nat := String.length s.

(** [s[n:]] for [n <= len(s)] *)
Fixpoint drop (n : nat) (s : string) : string :=
  match n, s with
  | O, _ => s
  | S n', String _ s' => drop n' s'
  | S _, "" => ""
  end.

(** [s[:n]] for [n <= len(s)] *)
Fixpoint take (n : nat) (s : string) : string :=
  match n, s with
  | O, _ => ""
  | S n', String c s' => String c (take n' s')
  | S _, "" => ""
  end.

Fixpoint HasPrefix (s prefix : string) {struct prefix} : bool :=
  match prefix with
  | "" => true
  | String p prefix' =>
      match s with
      | "" => false
      | String c s' => Ascii.eqb c p && HasPrefix s' prefix'
      end
  end.

Definition HasSuffix (s suffix : string) : bool :=
  (len suffix <=? len s)%nat &&
  String.eqb (drop (len s - len suffix) s) suffix.

(** [strings.Index]: the byte offset of the first occurrence, [None] for
    Go's [-1]. *)
Fixpoint Index (s substr : string) : option nat :=
  if HasPrefix s substr then Some O
  else match s with
       | "" => None
       | String _ s' => option_map S (Index s' substr)
       end.

Definition Contains (s substr : string) : bool :=
  match Index s substr with Some _ => true | None => false end.

Fixpoint mem_byte (c : ascii) (chars : string) : bool :=
  match chars with
  | "" => false
  | String d chars' => Ascii.eqb c d || mem_byte c chars'
  end.

(** [strings.ContainsAny] for a set of ASCII characters *)
Fixpoint ContainsAny (s chars : string) : bool :=
  match s with
  | "" => false
  | String c s' => mem_byte c chars || ContainsAny s' chars
  end.

Definition TrimPrefix (s prefix : string) : string :=
  if HasPrefix s prefix then drop (len prefix) s else s.

(** [strings.SplitN(s, sep, 2)] for a non-empty [sep]: one part when [sep]
    does not occur, else the text before and the text after its first
    occurrence. *)
Definition SplitN2 (s sep : string) : list string :=
  match Index s sep with
  | None => [s]
  | Some i => [take i s; drop (i + len sep) s]
  end.

(** [strings.ReplaceAll] for a non-empty [old]: the occurrences are
    replaced from left to right and do not overlap. *)
Fixpoint ReplaceAll_from (fuel : nat) (s old new : string) : string :=
  match fuel with
  | O => s
  | S fuel' =>
      match s with
      | "" => ""
      | String c s' =>
          if HasPrefix s old
          then new ++ ReplaceAll_from fuel' (drop (len old) s) old new
          else String c (ReplaceAll_from fuel' s' old new)
      end
  end.
Definition ReplaceAll (s old new : string) : string :=
  ReplaceAll_from (len s) s old new.

(** [strings.Split(s, sep)] for a one-byte separator *)
Fixpoint Split1 (s : string) (sep : ascii) : list string :=
  match s with
  | "" => [""]
  | String c s' =>
      if Ascii.eqb c sep then "" :: Split1 s' sep
      else match Split1 s' sep with
           | [] => [String c ""]
           | f :: fs => String c f :: fs
           end
  end.

Fixpoint Join (elems : list string) (sep : string) : string :=
  match elems with
  | [] => ""
  | [e] => e
  | e :: es => e ++ sep ++ Join es sep
  end.

(** *** White space as [unicode.IsSpace] sees it, on UTF-8 bytes

    The ASCII white space is tab, line feed, vertical tab, form feed,
    carriage return and space.  The other white space code points are
    U+0085, U+00A0, U+1680, U+2000..U+200A, U+2028, U+2029, U+202F,
    U+205F and U+3000, recognised here by their UTF-8 encodings. *)

Definition asciiSpace (c : ascii) : bool :=
  match code c with
  | 9 | 10 | 11 | 12 | 13 | 32 => true
  | _ => false
  end.

Definition space2 (c1 c2 : ascii) : bool :=
  (code c1 =? 194)%nat && ((code c2 =? 133)%nat || (code c2 =? 160)%nat).

Definition space3 (c1 c2 c3 : ascii) : bool :=
  match code c1, code c2 with
  | 225, 154 => (code c3 =? 128)%nat
  | 226, 128 =>
      ((128 <=? code c3)%nat && (code c3 <=? 138)%nat)
      || (code c3 =? 168)%nat || (code c3 =? 169)%nat || (code c3 =? 175)%nat
  | 226, 129 => (code c3 =? 159)%nat
  | 227, 128 => (code c3 =? 128)%nat
  | _, _ => false
  end.

(** The whole of [s] is the encoding of one white space code point. *)
Definition isSpaceRune (s : string) : bool :=
  match s with
  | String c1 "" => asciiSpace c1
  | String c1 (String c2 "") => space2 c1 c2
  | String c1 (String c2 (String c3 "")) => space3 c1 c2 c3
  | _ => false
  end.

Fixpoint TrimLeftSpace (s : string) : string :=
  match s with
  | "" => ""
  | String c1 s1 =>
      if asciiSpace c1 then TrimLeftSpace s1
      else match s1 with
           | "" => s
           | String c2 s2 =>
               if space2 c1 c2 then TrimLeftSpace s2
               else match s2 with
                    | "" => s
                    | String c3 s3 =>
                        if space3 c1 c2 c3 then TrimLeftSpace s3 else s
                    end
           end
  end.

(** Trailing white space goes one code point at a time, from the right:
    what is left of the tail, with the byte in front of it, is dropped
    when it is exactly one white space code point. *)
Fixpoint TrimRightSpace (s : string) : string :=
  match s with
  | "" => ""
  | String c s' =>
      let r := String c (TrimRightSpace s') in
      if isSpaceRune r then "" else r
  end.

Definition TrimSpace (s : string) : string :=
  TrimRightSpace (TrimLeftSpace s).

(** [strings.Fields]: the maximal runs of non-white-space bytes.  [cur] is
    the field being read, reversed; [None] between fields. *)
Definition flush (cur : option string) : list string :=
  match cur with
  | None => []
  | Some f => [String.rev f]
  end.

Definition push (c : ascii) (cur : option string) : option string :=
  match cur with
  | None => Some (String c "")
  | Some f => Some (String c f)
  end.

Fixpoint Fields_go (cur : option string) (s : string) : list string :=
  match s with
  | "" => flush cur
  | String c1 s1 =>
      if asciiSpace c1 then flush cur ++ Fields_go None s1
      else match s1 with
           | "" => flush (push c1 cur)
           | String c2 s2 =>
               if space2 c1 c2 then flush cur ++ Fields_go None s2
               else match s2 with
                    | "" => Fields_go (push c1 cur) s1
                    | String c3 s3 =>
                        if space3 c1 c2 c3 then flush cur ++ Fields_go None s3
                        else Fields_go (push c1 cur) s1
                    end
           end
  end.
Definition Fields (s : string) : list string := Fields_go None s.

(** [strings.ToUpper] and [strings.ToLower].  ASCII letters change case;
    every other byte is kept.  The code points above U+007F that Go maps
    to another case stay outside ASCII, except U+017F and U+0131 (upper
    case S and I) and U+0130 and U+212A (lower case i and k); the program
    only compares the results with ASCII words that have none of these
    letters, so the difference cannot be seen. *)
Fixpoint ToUpper (s : string) : string :=
  match s with
  | "" => ""
  | String c s' => String (upper c) (ToUpper s')
  end.

Fixpoint ToLower (s : string) : string :=
  match s with
  | "" => ""
  | String c s' => String (lower c) (ToLower s')
  end.

(** [strings.EqualFold(s, t)] for an ASCII word [t]: simple case folding
    joins each ASCII letter with its other case, and moreover [s]/[S] with
    U+017F and [k]/[K] with U+212A. *)
Fixpoint EqualFold (s t : string) : bool :=
  match t with
  | "" => match s with "" => true | _ => false end
  | String d t' =>
      match s with
      | "" => false
      | String c s1 =>
          if Ascii.eqb (lower c) (lower d) then EqualFold s1 t'
          else match s1 with
               | String c2 s2 =>
                   if Ascii.eqb (lower d) "s"
                      && (code c =? 197)%nat && (code c2 =? 191)%nat
                   then EqualFold s2 t'
                   else match s2 with
                        | String c3 s3 =>
                            if Ascii.eqb (lower d) "k" && (code c =? 226)%nat
                               && (code c2 =? 132)%nat && (code c3 =? 170)%nat
                            then EqualFold s3 t'
                            else false
                        | "" => false
                        end
               | "" => false
               end
      end
  end.

End strings.

(** ** Package [regexp]

    The patterns of the program, as syntax trees, and a backtracking matcher
    with Go's leftmost-first choice: at the first start offset where the
    pattern matches at all, the match that tries every alternative and
    every repetition in the pattern's order of preference.  A repetition
    body of the program's patterns always consumes input. *)

Module regexp.

Inductive regex : Type :=
| Eps                                   (* the empty pattern *)
| Chr (p : ascii -> bool)               (* one byte of a class *)
| Seq (r1 r2 : regex)
| Alt (r1 r2 : regex)                   (* r1|r2, r1 preferred *)
| Star (greedy : bool) (r : regex)      (* r* and r*? *)
| Group (i : nat) (r : regex)           (* the i-th parenthesis *)
| Bol                                   (* ^ *)
| Eol.                                  (* $ *)

(** The bounds of the parentheses, as in Go's index slices; [None] is
    Go's [-1]. *)
Abbreviation caps := (list (option (nat * nat))).

Fixpoint ngroups (r : regex) : nat :=
  match r with
  | Eps | Chr _ | Bol | Eol => 0
  | Seq r1 r2 | Alt r1 r2 => Nat.max (ngroups r1) (ngroups r2)
  | Star _ r => ngroups r
  | Group i r => Nat.max i (ngroups r)
  end.

Definition orelse {A} (a b : option A) : option A :=
  match a with
  | Some _ => a
  | None => b
  end.

(** The repetition of [body]: at most [fuel] rounds, each of which must
    consume input; a greedy one tries another round first, a lazy one tries
    to go on with [k] first. *)
Fixpoint star_loop {A} (greedy : bool)
    (body : nat -> string -> caps -> (nat -> string -> caps -> option A) -> option A)
    (k : nat -> string -> caps -> option A)
    (fuel : nat) (pos : nat) (rest : string) (cap : caps) : option A :=
  match fuel with
  | O => k pos rest cap
  | S fuel' =>
      let again :=
        body pos rest cap (fun pos1 rest1 cap1 =>
          if (pos <? pos1)%nat
          then star_loop greedy body k fuel' pos1 rest1 cap1
          else None) in
      if greedy then orelse again (k pos rest cap)
      else orelse (k pos rest cap) again
  end.

(** [exec r pos rest cap k]: match [r] at offset [pos], where [rest] is
    the text from [pos] on, then go on with [k]; the first success in the
    order of preference. *)
Fixpoint exec {A} (r : regex) (pos : nat) (rest : string) (cap : caps)
    (k : nat -> string -> caps -> option A) : option A :=
  match r with
  | Eps => k pos rest cap
  | Chr p =>
      match rest with
      | String c rest' => if p c then k (S pos) rest' cap else None
      | "" => None
      end
  | Seq r1 r2 =>
      exec r1 pos rest cap (fun pos1 rest1 cap1 => exec r2 pos1 rest1 cap1 k)
  | Alt r1 r2 =>
      orelse (exec r1 pos rest cap k) (exec r2 pos rest cap k)
  | Star greedy r1 =>
      star_loop greedy (exec r1) k (strings.len rest) pos rest cap
  | Group i r1 =>
      exec r1 pos rest cap (fun pos1 rest1 cap1 =>
        k pos1 rest1 (<[i := Some (pos, pos1)]> cap1))
  | Bol => if (pos =? 0)%nat then k pos rest cap else None
  | Eol => match rest with "" => k pos rest cap | _ => None end
  end.

(** A match: the bounds of the whole match and of the parentheses. *)
Definition matchAt (r : regex) (pos : nat) (rest : string) : option caps :=
  exec r pos rest (replicate (S (ngroups r)) None)
    (fun pos1 _ cap1 => Some (<[0 := Some (pos, pos1)]> cap1)).

(** The leftmost match that starts at [pos] or later. *)
Fixpoint search (r : regex) (pos : nat) (rest : string) : option caps :=
  match matchAt r pos rest with
  | Some a => Some a
  | None =>
      match rest with
      | "" => None
      | String _ rest' => search r (S pos) rest'
      end
  end.

Definition bounds (a : caps) (i : nat) : option (nat * nat) :=
  match a !! i with
  | Some (Some b) => Some b
  | _ => None
  end.

(** [src[lo:hi]], where [rest] is [src[pos:]] *)
Definition slice (pos : nat) (rest : string) (lo hi : nat) : string :=
  strings.take (hi - lo) (strings.drop (lo - pos) rest).

(** The texts of a match; a parenthesis that took no part gives [""]. *)
Definition submatches (pos : nat) (rest : string) (a : caps) : list string :=
  map (fun b => match b with
                | Some (lo, hi) => slice pos rest lo hi
                | None => ""
                end) a.

Definition MatchString (r : regex) (s : string) : bool :=
  match search r 0 s with Some _ => true | None => false end.

(** [FindStringSubmatch]: the empty list is Go's nil slice. *)
Definition FindStringSubmatch (r : regex) (s : string) : list string :=
  match search r 0 s with
  | Some a => submatches 0 s a
  | None => []
  end.

(** [FindAllStringSubmatch(s, -1)], the loop of [allMatches]: [pos] is
    the search offset, [rest] the text from it, [prevEnd] the end of the
    previous match. *)
Fixpoint allMatches (fuel : nat) (r : regex) (pos : nat) (rest : string)
    (prevEnd : option nat) : list (list string) :=
  match fuel with
  | O => []
  | S fuel' =>
      match search r pos rest with
      | None => []
      | Some a =>
          match bounds a 0 with
          | None => []
          | Some (lo, hi) =>
              if (hi =? pos)%nat then
                (* an empty match at [pos]: not accepted right after a
                   match, and the search moves on by one byte *)
                let found :=
                  if decide (prevEnd = Some lo) then []
                  else [submatches pos rest a] in
                match rest with
                | "" => found
                | String _ rest' =>
                    found ++ allMatches fuel' r (S pos) rest' (Some hi)
                end
              else
                submatches pos rest a
                :: allMatches fuel' r hi (strings.drop (hi - pos) rest) (Some hi)
          end
      end
  end.

Definition FindAllStringSubmatch (r : regex) (s : string) : list (list string) :=
  allMatches (S (strings.len s)) r 0 s None.

Definition FindAllString (r : regex) (s : string) : list string :=
  omap head (FindAllStringSubmatch r s).

(** [ReplaceAllStringFunc], the loop of [replaceAll]: [pos] is the search
    offset, [rest] the text from it, [pending] the text between the end of
    the last match and [pos], [lastEnd] the end of the last match. *)
Fixpoint replaceAll (fuel : nat) (r : regex) (repl : string -> result string)
    (pos : nat) (rest : string) (pending : string) (lastEnd : nat)
    : result string :=
  match fuel with
  | O => Ok (pending ++ rest)
  | S fuel' =>
      match search r pos rest with
      | None => Ok (pending ++ rest)
      | Some a =>
          match bounds a 0 with
          | None => Ok (pending ++ rest)
          | Some (lo, hi) =>
              let before := pending ++ slice pos rest pos lo in
              let* new := (if (lastEnd <? hi)%nat || (lo =? 0)%nat
                     then repl (slice pos rest lo hi) else Ok "") in
              if (pos <? hi)%nat then
                let* tail := replaceAll fuel' r repl hi
                         (strings.drop (hi - pos) rest) "" hi in
                Ok (before ++ new ++ tail)
              else
                (* an empty match at [pos]: move on by one byte *)
                match rest with
                | "" => Ok (before ++ new)
                | String c rest' =>
                    let* tail := replaceAll fuel' r repl (S pos) rest'
                             (String c "") hi in
                    Ok (before ++ new ++ tail)
                end
          end
      end
  end.

Definition ReplaceAllStringFunc (r : regex) (src : string)
    (repl : string -> result string) : result string :=
  replaceAll (S (strings.len src)) r repl 0 src "" 0.

(** [ReplaceAllString] with a replacement text that has no [$]. *)
Definition ReplaceAllString (r : regex) (src repl : string) : string :=
  match ReplaceAllStringFunc r src (fun _ => Ok repl) with
  | Ok s => s
  | Panic _ => src
  end.

(** *** Building patterns *)

Definition chr (c : ascii) : regex := Chr (Ascii.eqb c).
Definition notchr (c : ascii) : regex := Chr (fun d => negb (Ascii.eqb c d)).
Definition any : regex := Chr (fun _ => true).      (* [\s\S] *)

Fixpoint lit (s : string) : regex :=
  match s with
  | "" => Eps
  | String c "" => chr c
  | String c s' => Seq (chr c) (lit s')
  end.

Definition bytes2 (a b : nat) : regex :=
  Seq (Chr (fun c => (code c =? a)%nat)) (Chr (fun c => (code c =? b)%nat)).
Definition bytes3 (a b c : nat) : regex :=
  Seq (Chr (fun d => (code d =? a)%nat)) (bytes2 b c).

(** Under [(?i)] a letter stands for both of its cases, and [s] and [k]
    also for U+017F and U+212A, which fold to them. *)
Definition longS : regex := bytes2 197 191.
Definition kelvin : regex := bytes3 226 132 170.

Definition ichr (c : ascii) : regex :=
  let both := Chr (fun d => Ascii.eqb (lower d) (lower c)) in
  if Ascii.eqb (lower c) "s" then Alt both longS
  else if Ascii.eqb (lower c) "k" then Alt both kelvin
  else both.

Fixpoint ilit (s : string) : regex :=
  match s with
  | "" => Eps
  | String c "" => ichr c
  | String c s' => Seq (ichr c) (ilit s')
  end.

Definition plus (r : regex) : regex := Seq r (Star true r).      (* r+ *)
Definition plus_lazy (r : regex) : regex := Seq r (Star false r). (* r+? *)
Definition opt (r : regex) : regex := Alt r Eps.                  (* r? *)

(** [\s] is [[\t\n\f\r ]]. *)
Definition is_s (c : ascii) : bool :=
  match code c with
  | 9 | 10 | 12 | 13 | 32 => true
  | _ => false
  end.
Definition s_ : regex := Chr is_s.

Definition is_word (c : ascii) : bool :=
  is_letter c || is_digit c || Ascii.eqb c "_".

(** [[A-Za-z0-9_]] *)
Definition word : regex := Chr is_word.
(** [(?i)[A-Za-z0-9_]] *)
Definition iword : regex := Alt (Chr is_word) (Alt longS kelvin).

End regexp.

(** ** Package [strconv] *)

Module strconv.

Local Open Scope Z_scope.

Definition digit_val (c : ascii) : Z := Z.of_nat (code c) - 48.
Definition digit_char (d : Z) : ascii := byte_of (Z.to_nat (48 + d)).

(** *** Integers *)

(** The decimal digits of [n >= 0], put in front of [acc]. *)
Fixpoint digits_go (fuel : nat) (n : Z) (acc : string) : string :=
  let acc' := String (digit_char (n mod 10)) acc in
  match fuel with
  | O => acc'
  | S fuel' => if n <? 10 then acc' else digits_go fuel' (n / 10) acc'
  end.

Definition FormatUint (n : Z) : string :=
  digits_go (Z.to_nat (Z.log2 n)) n "".

(** [strconv.FormatInt(i, 10)] *)
Definition FormatInt (i : Z) : string :=
  if i <? 0 then String "-" (FormatUint (- i)) else FormatUint i.

(** The value of a non-empty run of decimal digits that is the whole of
    [s]; [acc] is the value read so far. *)
Fixpoint parse_digits (s : string) (acc : Z) : option Z :=
  match s with
  | "" => None
  | String c s' =>
      if is_digit c then
        let acc' := acc * 10 + digit_val c in
        match s' with
        | "" => Some acc'
        | _ => parse_digits s' acc'
        end
      else None
  end.

Definition minInt64 : Z := - 2 ^ 63.
Definition maxInt64 : Z := 2 ^ 63 - 1.

(** [strconv.ParseInt(s, 10, 64)]: an optional sign and decimal digits,
    within the range of [int64]; [None] is any error. *)
Definition ParseInt (s : string) : option Z :=
  let '(neg, digits) :=
    match s with
    | String "+" s' => (false, s')
    | String "-" s' => (true, s')
    | _ => (false, s)
    end in
  match parse_digits digits 0 with
  | None => None
  | Some un =>
      if negb neg && (2 ^ 63 <=? un) then None
      else if neg && (2 ^ 63 <? un) then None
      else Some (if neg then - un else un)
  end.

(** *** Floating point: [float64] is IEEE 754 binary64 *)

Definition float64 : Type := spec_float.
Definition prec : Z := 53.
Definition emax : Z := 1024.

(** [a == b] on [float64]: a NaN equals nothing, the two zeros are equal. *)
Definition feq (a b : float64) : bool := SFeqb a b.

Definition is_zero (f : float64) : bool :=
  match f with S754_zero _ => true | _ => false end.

(** The nearest [float64] to [(-1)^neg * num / den], ties to even. *)
Definition nearest (neg : bool) (num : Z) (den : positive) : float64 :=
  match num with
  | Zpos n => SFdiv prec emax (S754_finite neg n 0) (S754_finite false den 0)
  | _ => S754_zero neg
  end.

(** [float64(i)] for an [int64] *)
Definition of_int64 (i : Z) : float64 := binary_normalize prec emax i 0 false.

(** [int64(f)]: the fraction is dropped; what is out of range
    (NaN and the infinities too) gives the smallest [int64], as the amd64
    conversion instruction does. *)
Definition to_int64 (f : float64) : Z :=
  match f with
  | S754_zero _ => 0
  | S754_finite s m e =>
      let a := if 0 <=? e then Zpos m * 2 ^ e else Zpos m / 2 ^ (- e) in
      let i := if s then - a else a in
      if (minInt64 <=? i) && (i <=? maxInt64) then i else minInt64
  | _ => minInt64
  end.

(** **** Reading a number: [special] and [readFloat] *)

Definition lower_eq (s t : string) : bool :=
  String.eqb (strings.ToLower s) t.

(** [special], for a text that is taken as a whole. *)
Definition special (s : string) : option float64 :=
  match s with
  | String "+" s' =>
      if lower_eq s' "inf" || lower_eq s' "infinity"
      then Some (S754_infinity false) else None
  | String "-" s' =>
      if lower_eq s' "inf" || lower_eq s' "infinity"
      then Some (S754_infinity true) else None
  | _ =>
      if lower_eq s "inf" || lower_eq s "infinity"
      then Some (S754_infinity false)
      else if lower_eq s "nan" then Some S754_nan
      else None
  end.

(** A prefix of [s] can be one of the special values. *)
Definition special_prefix (s : string) : bool :=
  let body := match s with
              | String "+" s' | String "-" s' => s'
              | _ => s
              end in
  let unsigned := match s with
                  | String "+" _ | String "-" _ => false
                  | _ => true
                  end in
  strings.HasPrefix (strings.ToLower body) "inf"
  || (unsigned && strings.HasPrefix (strings.ToLower s) "nan").

Definition hex_val (c : ascii) : option Z :=
  if is_digit c then Some (digit_val c)
  else if in_range "a" "f" (lower c)
       then Some (Z.of_nat (code (lower c)) - 97 + 10)
       else None.

(** The mantissa, as [readFloat] reads it: [mant] is the integer that the
    digits spell, [frac] the number of digits after the point. *)
Record mantissa : Type := {
  mant : Z;
  frac : Z;
  sawdot : bool;
  sawdigits : bool;
}.

Fixpoint read_mantissa (hex : bool) (s : string) (m : mantissa)
    : mantissa * string :=
  match s with
  | "" => (m, s)
  | String c s' =>
      if Ascii.eqb c "_" then read_mantissa hex s' m
      else if Ascii.eqb c "." then
        if sawdot m then (m, s)
        else read_mantissa hex s'
               {| mant := mant m; frac := 0; sawdot := true;
                  sawdigits := sawdigits m |}
      else
        match (if hex then hex_val c
               else if is_digit c then Some (digit_val c) else None) with
        | Some d =>
            read_mantissa hex s'
              {| mant := mant m * (if hex then 16 else 10) + d;
                 frac := if sawdot m then frac m + 1 else 0;
                 sawdot := sawdot m; sawdigits := true |}
        | None => (m, s)
        end
  end.

(** The digits of the exponent; the value stops growing at 10000. *)
Fixpoint read_exp_digits (s : string) (e : Z) : Z * string :=
  match s with
  | "" => (e, s)
  | String c s' =>
      if Ascii.eqb c "_" then read_exp_digits s' e
      else if is_digit c then
        read_exp_digits s' (if e <? 10000 then e * 10 + digit_val c else e)
      else (e, s)
  end.

(** The exponent part, if [s] starts with [expChar]: its value and the
    rest; [None] when it is cut short. *)
Definition read_exponent (expChar : ascii) (s : string)
    : option (option Z * string) :=
  match s with
  | String c s1 =>
      if Ascii.eqb (lower c) expChar then
        match s1 with
        | "" => None
        | String c1 s2 =>
            let '(esign, s3) :=
              if Ascii.eqb c1 "+" then (1, s2)
              else if Ascii.eqb c1 "-" then (-1, s2)
              else (1, s1) in
            match s3 with
            | String c3 _ =>
                if is_digit c3 then
                  let '(e, rest) := read_exp_digits s3 0 in
                  Some (Some (e * esign), rest)
                else None
            | "" => None
            end
        end
      else Some (None, s)
  | "" => Some (None, s)
  end.

(** [underscoreOK]: an underscore stands between two digits, or between a
    base prefix and a digit. *)
Inductive saw : Set := SawStart | SawDigit | SawUnderscore | SawOther.

Fixpoint underscore_scan (hex : bool) (s : string) (last : saw) : bool :=
  match s with
  | "" => match last with SawUnderscore => false | _ => true end
  | String c s' =>
      if is_digit c || (hex && in_range "a" "f" (lower c))
      then underscore_scan hex s' SawDigit
      else if Ascii.eqb c "_" then
        match last with
        | SawDigit => underscore_scan hex s' SawUnderscore
        | _ => false
        end
      else
        match last with
        | SawUnderscore => false
        | _ => underscore_scan hex s' SawOther
        end
  end.

Definition underscoreOK (s : string) : bool :=
  let s1 := match s with
            | String "+" s' | String "-" s' => s'
            | _ => s
            end in
  match s1 with
  | String "0" (String c s2) =>
      if Ascii.eqb (lower c) "b" || Ascii.eqb (lower c) "o"
         || Ascii.eqb (lower c) "x"
      then underscore_scan (Ascii.eqb (lower c) "x") s2 SawDigit
      else underscore_scan false s1 SawStart
  | _ => underscore_scan false s1 SawStart
  end.

(** [strconv.ParseFloat(s, 64)]: the special values, or a decimal or
    hexadecimal number that takes the whole of [s], rounded to the nearest
    [float64]; [None] is a syntax error or a value out of range. *)
Definition ParseFloat (s : string) : option float64 :=
  if special_prefix s then special s
  else
    let '(neg, s1) :=
      match s with
      | String "+" s' => (false, s')
      | String "-" s' => (true, s')
      | _ => (false, s)
      end in
    let '(hex, s2) :=
      match s1 with
      | String "0" (String x (String c s')) =>
          if Ascii.eqb (lower x) "x" then (true, String c s') else (false, s1)
      | _ => (false, s1)
      end in
    let '(m, s3) :=
      read_mantissa hex s2
        {| mant := 0; frac := 0; sawdot := false; sawdigits := false |} in
    if negb (sawdigits m) then None
    else
      match read_exponent (if hex then "p" else "e")%char s3 with
      | None => None
      | Some (e, rest) =>
          if negb (String.eqb rest "") then None
          else if strings.Contains s "_" && negb (underscoreOK s) then None
          else
            let f :=
              if hex then
                match e with
                | None => None                  (* the exponent is required *)
                | Some e =>
                    let e2 := e - 4 * frac m in
                    Some (if 0 <=? e2 then nearest neg (mant m * 2 ^ e2) 1
                          else nearest neg (mant m) (Z.to_pos (2 ^ (- e2))))
                end
              else
                let e10 := match e with Some e => e | None => 0 end - frac m in
                Some (if 0 <=? e10 then nearest neg (mant m * 10 ^ e10) 1
                      else nearest neg (mant m) (Z.to_pos (10 ^ (- e10))))
            in
            match f with
            | Some (S754_infinity _) => None     (* out of range *)
            | _ => f
            end
      end.

(** **** Writing a number: the shortest digits that read back

    [FormatFloat(f, fmt, -1, 64)] prints the fewest decimal digits that
    [ParseFloat] reads back as [f], that is, the shortest decimal between
    the midpoints to the two neighbours of [f] (the midpoints themselves
    when the mantissa is even); of two such decimals of the same length,
    the nearer to [f], the one with the even last digit on a tie. *)

Record decimal : Type := {
  dig : string;     (* the digits, with no trailing zero *)
  dp : Z;           (* the value is 0.dig * 10^dp *)
}.

Fixpoint strip_zeros (fuel : nat) (c p : Z) : Z * Z :=
  match fuel with
  | O => (c, p)
  | S fuel' =>
      if (0 <? c) && (c mod 10 =? 0) then strip_zeros fuel' (c / 10) (p + 1)
      else (c, p)
  end.

Definition decimal_of (c p : Z) : decimal :=
  let '(c', p') := strip_zeros (Z.to_nat (Z.log2 c)) c p in
  let d := FormatUint c' in
  {| dig := d; dp := Z.of_nat (strings.len d) + p' |}.

(** [v], [lo] and [hi] are the value and the two midpoints, in units of
    [2^e2].  At the decimal position [p] the value lies between [q * 10^p]
    and [(q + 1) * 10^p]; the first position, from the left, where one of
    them is within the midpoints gives the digits. *)
Fixpoint shortest_go (fuel : nat) (v lo hi e2 : Z) (inclusive : bool) (p : Z)
    : decimal :=
  let a := 2 ^ Z.max e2 0 * 10 ^ Z.max (- p) 0 in
  let b := 2 ^ Z.max (- e2) 0 * 10 ^ Z.max p 0 in
  let q := (v * a) / b in
  let okdown := (lo * a <? q * b) || (inclusive && (lo * a =? q * b)) in
  let okup := ((q + 1) * b <? hi * a) || (inclusive && ((q + 1) * b =? hi * a)) in
  let r := v * a - q * b in
  let up_nearer := (b <? 2 * r) || ((b =? 2 * r) && Z.odd q) in
  match fuel with
  | O => decimal_of q p
  | S fuel' =>
      if okdown && okup then decimal_of (if up_nearer then q + 1 else q) p
      else if okdown then decimal_of q p
      else if okup then decimal_of (q + 1) p
      else shortest_go fuel' v lo hi e2 inclusive (p - 1)
  end.

Definition shortest (m : positive) (e : Z) : decimal :=
  let v := 4 * Zpos m in
  let hi := v + 2 in
  let lo := if (Zpos m =? 2 ^ 52) && (-1074 <? e) then v - 1 else v - 2 in
  let e2 := e - 2 in
  let bits := Z.log2 hi + 1 + e2 in
  let pmax := if 0 <? bits then bits * 30103 / 100000 + 1 else 0 in
  shortest_go (Z.to_nat (pmax - Z.min e2 0)) v lo hi e2 (Z.even (Zpos m)) pmax.

Fixpoint zeros (n : nat) : string :=
  match n with
  | O => ""
  | S n' => String "0" (zeros n')
  end.

(** The digit of [d] at index [j], ["0"] outside of the digits. *)
Definition digit_at (d : string) (j : Z) : ascii :=
  if (0 <=? j) && (j <? Z.of_nat (strings.len d))
  then match String.get (Z.to_nat j) d with Some c => c | None => "0"%char end
  else "0"%char.

Fixpoint fraction (d : decimal) (i : Z) (n : nat) : string :=
  match n with
  | O => ""
  | S n' => String (digit_at (dig d) (dp d + i)) (fraction d (i + 1) n')
  end.

Definition sign (neg : bool) : string := if neg then "-" else "".

(** [%f]: [-ddddddd.ddddd] *)
Definition fmtF (neg : bool) (d : decimal) (prec : Z) : string :=
  let nd := Z.of_nat (strings.len (dig d)) in
  sign neg
  ++ (if 0 <? dp d then
        let m := Z.min nd (dp d) in
        strings.take (Z.to_nat m) (dig d) ++ zeros (Z.to_nat (dp d - m))
      else "0")
  ++ (if 0 <? prec then "." ++ fraction d 0 (Z.to_nat prec) else "").

(** [%e]: [-d.ddddde±dd] *)
Definition fmtE (neg : bool) (d : decimal) (prec : Z) : string :=
  let nd := Z.of_nat (strings.len (dig d)) in
  let first := match dig d with String c _ => c | "" => "0"%char end in
  let exp := if nd =? 0 then 0 else dp d - 1 in
  sign neg
  ++ String first ""
  ++ (if 0 <? prec then
        let m := Z.min nd (prec + 1) in
        "." ++ strings.take (Z.to_nat (m - 1)) (strings.drop 1 (dig d))
            ++ zeros (Z.to_nat (prec + 1 - Z.max m 1))
      else "")
  ++ "e" ++ (if exp <? 0 then "-" else "+")
  ++ (if Z.abs exp <? 10 then "0" else "") ++ FormatUint (Z.abs exp).

Definition digits_of (f : float64) : decimal :=
  match f with
  | S754_finite _ m e => shortest m e
  | _ => {| dig := ""; dp := 0 |}
  end.

Definition is_neg (f : float64) : bool :=
  match f with
  | S754_zero s | S754_infinity s | S754_finite s _ _ => s
  | S754_nan => false
  end.

Definition special_text (f : float64) : option string :=
  match f with
  | S754_nan => Some "NaN"
  | S754_infinity s => Some (if s then "-Inf" else "+Inf")
  | _ => None
  end.

(** [strconv.FormatFloat(f, 'f', -1, 64)] *)
Definition FormatFloat_f (f : float64) : string :=
  match special_text f with
  | Some s => s
  | None =>
      let d := digits_of f in
      fmtF (is_neg f) d (Z.max (Z.of_nat (strings.len (dig d)) - dp d) 0)
  end.

(** [strconv.FormatFloat(f, 'g', -1, 64)]: the exponent form when the
    decimal exponent is under -4 or at least 6. *)
Definition FormatFloat_g (f : float64) : string :=
  match special_text f with
  | Some s => s
  | None =>
      let d := digits_of f in
      let nd := Z.of_nat (strings.len (dig d)) in
      let exp := dp d - 1 in
      if (exp <? -4) || (6 <=? exp) then fmtE (is_neg f) d (nd - 1)
      else fmtF (is_neg f) d (Z.max (nd - dp d) 0)
  end.

End strconv.

(** ** Parameter values

    The dynamic types that [main.go] tells apart.  [decodeParams] decodes
    with [UseNumber], so a decoded parameter set holds nil, bool,
    [json.Number], string, and arrays and objects; the functions also take
    float64, integers and byte slices. *)

Inductive other : Type :=
| OInt (i : Z)                    (* an int or int64 *)
| OSmall (i : Z)                  (* an int32, int16 or int8 *)
| OBytes (b : string)             (* a []byte *)
| OAny (text json : string).      (* any other value: how [%v] prints it and
                                     how [json.Marshal] encodes it *)

Inductive value : Type :=
| VNil
| VBool (b : bool)
| VFloat (f : strconv.float64)
| VNumber (n : string)            (* json.Number *)
| VString (s : string)
| VOther (o : other).

Definition VInt (i : Z) : value := VOther (OInt i).

#[global] Instance other_eq_dec : EqDecision other.
Proof. solve_decision. Defined.
#[global] Instance spec_float_eq_dec : EqDecision spec_float.
Proof. solve_decision. Defined.
#[global] Instance value_eq_dec : EqDecision value.
Proof. solve_decision. Defined.

(** A parameter set, [map[string]any]. *)
Abbreviation params := (gmap string value).

(** [params[key]]: a missing key reads as nil. *)
Definition get (ps : params) (key : string) : value :=
  match ps !! key with
  | Some v => v
  | None => VNil
  end.

(** [fmt.Sprintf("%v", v)] *)
Definition fmt_v (v : value) : string :=
  match v with
  | VNil => "<nil>"
  | VBool b => if b then "true" else "false"
  | VFloat f => strconv.FormatFloat_g f
  | VNumber n => n
  | VString s => s
  | VOther (OInt i) | VOther (OSmall i) => strconv.FormatInt i
  | VOther (OBytes b) =>
      "[" ++ strings.Join
               (map (fun c => strconv.FormatInt (Z.of_nat (code c)))
                    (list_ascii_of_string b)) " "
          ++ "]"
  | VOther (OAny text _) => text
  end.

(** [bytes.Trim] with the double quote as its cutset *)
Fixpoint trim_left_quotes (s : string) : string :=
  match s with
  | String c s' => if Ascii.eqb c dquote then trim_left_quotes s' else s
  | "" => ""
  end.
Fixpoint trim_right_quotes (s : string) : string :=
  match s with
  | String c s' =>
      match trim_right_quotes s' with
      | "" => if Ascii.eqb c dquote then "" else String c ""
      | r => String c r
      end
  | "" => ""
  end.
Definition trim_quotes (s : string) : string :=
  trim_right_quotes (trim_left_quotes s).

(** [toString], on the values that reach it: [renderNyanSQL] calls it in
    the default branch of its type switch, after nil, bool, float64,
    [json.Number] and string.  A []byte is given as it is; every other
    value is encoded by [json.Marshal] and loses the quotes at its ends. *)
Definition toString (o : other) : string :=
  match o with
  | OBytes b => b
  | OInt i | OSmall i => trim_quotes (strconv.FormatInt i)
  | OAny _ json => trim_quotes json
  end.

(** [s[lo:hi]] *)
Definition substr (s : string) (lo hi : nat) : result string :=
  if (lo <=? hi)%nat && (hi <=? strings.len s)%nat
  then Ok (strings.take (hi - lo) (strings.drop lo s))
  else Panic SliceBoundsOutOfRange.

(** [sm[i]] *)
Definition index (sm : list string) (i : nat) : result string :=
  match sm !! i with
  | Some s => Ok s
  | None => Panic IndexOutOfRange
  end.

(** ** Template Renderer *)

Import regexp.

Definition block_end : regex :=
  Seq (lit "/*") (Seq (Alt (ilit "END") (Alt (ilit "ENDIF") (ilit "FI"))) (lit "*/")).

(** [(?i)/\*BEGIN\*/([\s\S]*?)/\*(?:END|ENDIF|FI)\*/] *)
Definition reBeginEnd : regex :=
  Seq (lit "/*") (Seq (ilit "BEGIN") (Seq (lit "*/")
    (Seq (Group 1 (Star false any)) block_end))).

(** [(?i)/\*IF\s+([^*]+?)\*/] *)
Definition reIfHead : regex :=
  Seq (lit "/*") (Seq (ilit "IF") (Seq (plus s_)
    (Seq (Group 1 (plus_lazy (notchr "*"))) (lit "*/")))).

(** [(?i)/\*IF\s+([^*]+?)\*/([\s\S]*?)/\*(?:END|ENDIF|FI)\*/] *)
Definition reIfBlock : regex :=
  Seq reIfHead (Seq (Group 2 (Star false any)) block_end).

(** [(?i)/\*\?\s*([A-Za-z0-9_]+)\s*\?\*/] *)
Definition reBlockKeys : regex :=
  Seq (lit "/*?") (Seq (Star true s_) (Seq (Group 1 (plus iword))
    (Seq (Star true s_) (lit "?*/")))).

(** [(?i)/\*\?\s*([A-Za-z0-9_]+)\s*\?\*/([\s\S]*?)/\*\?\s*\*/] *)
Definition reOptBlock : regex :=
  Seq reBlockKeys (Seq (Group 2 (Star false any))
    (Seq (lit "/*?") (Seq (Star true s_) (lit "*/")))).

Definition is_numchar (c : ascii) : bool :=
  is_digit c || strings.mem_byte c ".+-".

(** The default literal of a placeholder, the second parenthesis of
    [reParam]: a text in double quotes with no double quote inside (the
    third parenthesis is the inside), or the same with single quotes (the
    fourth), or [[0-9.+-]+], or one of [true], [false] and [null]. *)
Definition reDefault : regex :=
  Alt (Seq (chr dquote) (Seq (Group 3 (Star true (notchr dquote))) (chr dquote)))
 (Alt (Seq (chr squote) (Seq (Group 4 (Star true (notchr squote))) (chr squote)))
 (Alt (plus (Chr is_numchar))
 (Alt (ilit "true") (Alt (ilit "false") (ilit "null"))))).

(** [(?i)/\*([a-zA-Z0-9_]+)\*/(DEFAULT)] *)
Definition reParam : regex :=
  Seq (lit "/*") (Seq (Group 1 (plus iword)) (Seq (lit "*/") (Group 2 reDefault))).

(** [^(?:WHERE)?\s*(?:AND|OR)?\s*\(?\s*\)?$] *)
Definition reEmptyWhere : regex :=
  Seq Bol (Seq (opt (lit "WHERE")) (Seq (Star true s_)
    (Seq (opt (Alt (lit "AND") (lit "OR"))) (Seq (Star true s_)
      (Seq (opt (chr "(")) (Seq (Star true s_) (Seq (opt (chr ")")) Eol))))))).

(** [\s+] *)
Definition reSpace : regex := plus s_.

(** [[A-Za-z_][A-Za-z0-9_]*] *)
Definition reIdent : regex :=
  Seq (Chr (fun c => is_letter c || Ascii.eqb c "_")) (Star true word).

Definition quoteByDefault (defWhole s : string) : string :=
  if strings.HasPrefix defWhole DQ
  then DQ ++ strings.ReplaceAll s DQ (DQ ++ DQ) ++ DQ
  else SQ ++ strings.ReplaceAll s SQ (SQ ++ SQ) ++ SQ.

Definition isTruthy (v : value) : bool :=
  match v with
  | VNil => false
  | VBool t => t
  | VString t => negb (String.eqb (strings.TrimSpace t) "")
  | VNumber t =>
      match strconv.ParseInt t with
      | Some i => negb (i =? 0)%Z
      | None =>
          match strconv.ParseFloat t with
          | Some f => negb (strconv.is_zero f)
          | None => negb (String.eqb t "0")
          end
      end
  | VFloat t => negb (strconv.is_zero t)
  | VOther (OInt t) | VOther (OSmall t) =>
      negb (String.eqb (strconv.FormatInt t) "0")
  | VOther (OBytes _) | VOther (OAny _ _) => true
  end.

(** The literal on the right of [==] or [!=]: [Ok None] when it is none of
    null, true, false, a quoted text, an integer and a float. *)
Definition rhsValue (rhs : string) : result (option value) :=
  if strings.EqualFold rhs "null" then Ok (Some VNil)
  else if strings.EqualFold rhs "true" then Ok (Some (VBool true))
  else if strings.EqualFold rhs "false" then Ok (Some (VBool false))
  else if (strings.HasPrefix rhs SQ && strings.HasSuffix rhs SQ)
          || (strings.HasPrefix rhs DQ && strings.HasSuffix rhs DQ) then
    let* unq := substr rhs 1 (strings.len rhs - 1) in
    Ok (Some (VString (strings.ReplaceAll
                         (strings.ReplaceAll unq (SQ ++ SQ) SQ) (DQ ++ DQ) DQ)))
  else
    match strconv.ParseInt rhs with
    | Some i => Ok (Some (VInt i))
    | None =>
        match strconv.ParseFloat rhs with
        | Some f => Ok (Some (VFloat f))
        | None => Ok None
        end
    end.

(** The closure [eq] of [evalCondFlexible] *)
Definition eq (a b : value) : bool :=
  match a with
  | VNumber aa =>
      match b, strconv.ParseInt aa, strconv.ParseFloat aa with
      | VOther (OInt bb), Some i, _ => (i =? bb)%Z
      | VFloat bb, _, Some f => strconv.feq f bb
      | _, _, _ => String.eqb aa (fmt_v b)
      end
  | VString aa => String.eqb aa (fmt_v b)
  | VBool aa =>
      match b with
      | VBool bb => Bool.eqb aa bb
      | _ => String.eqb (fmt_v a) (fmt_v b)
      end
  | VFloat _ | VOther (OInt _) => String.eqb (fmt_v a) (fmt_v b)
  | VNil => match b with VNil => true | _ => false end
  | VOther (OSmall _) | VOther (OBytes _) | VOther (OAny _ _) =>
      match b with
      | VNil => false
      | _ => String.eqb (fmt_v a) (fmt_v b)
      end
  end.

Inductive operator : Set := OpEq | OpNe.

Definition op_text (op : operator) : string :=
  match op with OpEq => "==" | OpNe => "!=" end.

Definition evalCondFlexible (cond : string) (ps : params) : result bool :=
  let c := strings.TrimSpace cond in
  if negb (strings.ContainsAny c " =!<>") then Ok (isTruthy (get ps c))
  else
    match (if strings.Contains c "==" then Some OpEq
           else if strings.Contains c "!=" then Some OpNe
           else None) with
    | None => Ok false
    | Some op =>
        match strings.SplitN2 c (op_text op) with
        | [l; r] =>
            let lhs := strings.TrimSpace l in
            let rhs := strings.TrimSpace r in
            let* rhsV := rhsValue rhs in
            match rhsV with
            | None => Ok false
            | Some rhsV =>
                let lv := get ps lhs in
                match op with
                | OpEq => Ok (eq lv rhsV)
                | OpNe => Ok (negb (eq lv rhsV))
                end
            end
        | _ => Ok false
        end
    end.

(** [stripComments]: [rest] is [s[i:]]; the loop ends at a comment that is
    not closed. *)
Fixpoint stripComments_from (fuel : nat) (rest : string) : string :=
  match fuel, rest with
  | S fuel', String c rest' =>
      if strings.HasPrefix rest "/*" then
        match strings.Index (strings.drop 2 rest) "*/" with
        | None => ""
        | Some j => stripComments_from fuel' (strings.drop (2 + j + 2) rest)
        end
      else if strings.HasPrefix rest "--" then
        match strings.Index rest NL with
        | None => ""
        | Some j => stripComments_from fuel' (strings.drop (j + 1) rest)
        end
      else String c (stripComments_from fuel' rest')
  | _, _ => ""
  end.

Definition stripComments (s : string) : string :=
  stripComments_from (strings.len s) s.

(** The second loop of [normalizeWhitespace]: [last] is the last line of
    [buf], if any. *)
Fixpoint squeeze (last : option string) (lines : list string) : list string :=
  match lines with
  | [] => []
  | ln :: lines' =>
      if String.eqb ln "" && bool_decide (last = Some "")
      then squeeze last lines'
      else ln :: squeeze (Some ln) lines'
  end.

Definition normalizeWhitespace (s : string) : string :=
  let lines := strings.Split1 s newline in
  let lines := map (fun ln => strings.Join (strings.Fields ln) " ") lines in
  strings.TrimSpace (strings.Join (squeeze None lines) NL).

(** The four passes of [renderNyanSQL], as the functions it hands to
    [ReplaceAllStringFunc]. *)
Definition optBlock (ps : params) (m : string) : result string :=
  let sm := FindStringSubmatch reOptBlock m in
  if (length sm <? 3)%nat then Ok ""
  else
    let* k := index sm 1 in let* body := index sm 2 in
    let key := strings.TrimSpace k in
    if isTruthy (get ps key) then Ok body else Ok "".

Definition ifBlock (ps : params) (m : string) : result string :=
  let sm := FindStringSubmatch reIfBlock m in
  if (length sm <? 3)%nat then Ok ""
  else
    let* c := index sm 1 in let* body := index sm 2 in
    let cond := strings.TrimSpace c in
    let* b := evalCondFlexible cond ps in
    if b then Ok body else Ok "".

Definition beginEnd (m : string) : result string :=
  let sm := FindStringSubmatch reBeginEnd m in
  if (length sm <? 2)%nat then Ok ""
  else
    let* inner := index sm 1 in
    let only := normalizeWhitespace (stripComments inner) in
    let up := strings.ToUpper (strings.TrimSpace only) in
    if String.eqb up "" || MatchString reEmptyWhere up then Ok "" else Ok inner.

Definition param (ps : params) (m : string) : result string :=
  let sm := FindStringSubmatch reParam m in
  let* name := index sm 1 in
  let* defWhole := index sm 2 in
  match ps !! name with
  | Some (VBool vv) => Ok (if vv then "true" else "false")
  | Some (VFloat vv) =>
      if strconv.feq (strconv.of_int64 (strconv.to_int64 vv)) vv
      then Ok (strconv.FormatInt (strconv.to_int64 vv))
      else Ok (strconv.FormatFloat_f vv)
  | Some (VNumber vv) =>
      match strconv.ParseInt vv with
      | Some i => Ok (strconv.FormatInt i)
      | None =>
          match strconv.ParseFloat vv with
          | Some f => Ok (strconv.FormatFloat_f f)
          | None => Ok vv
          end
      end
  | Some (VString vv) => Ok (quoteByDefault defWhole vv)
  | Some (VOther o) => Ok (quoteByDefault defWhole (toString o))
  | Some VNil | None => Ok defWhole
  end.

Definition renderNyanSQL (tpl : string) (ps : params) : result string :=
  let* sqlText := ReplaceAllStringFunc reOptBlock tpl (optBlock ps) in
  let* sqlText := ReplaceAllStringFunc reIfBlock sqlText (ifBlock ps) in
  let* sqlText := ReplaceAllStringFunc reBeginEnd sqlText beginEnd in
  let* sqlText := ReplaceAllStringFunc reParam sqlText (param ps) in
  Ok (strings.TrimSpace (normalizeWhitespace sqlText)).

(** ** Comparison helpers *)

Definition normalizeForCompare (s : string) : string :=
  let s := stripComments s in
  let s := ReplaceAllString reSpace s " " in
  let s := strings.ReplaceAll s "( " "(" in
  let s := strings.ReplaceAll s " )" ")" in
  let s := strings.ReplaceAll s " ," "," in
  let s := strings.ReplaceAll s " ;" ";" in
  strings.TrimSpace s.

Definition equalSQL (a b : string) : bool :=
  String.eqb (normalizeForCompare a) (normalizeForCompare b).

Definition diff (expected actual : string) : string :=
  let e := normalizeForCompare expected in
  let a := normalizeForCompare actual in
  if String.eqb e a then "" else "- " ++ e ++ NL ++ "+ " ++ a.

(** ** Parameter inference *)

(** The [switch] of [extractParamDefaults]: the value of a default
    literal. *)
Definition decodeDefault (defWhole : string) : result value :=
  let low := strings.ToLower defWhole in
  if strings.HasPrefix defWhole SQ && strings.HasSuffix defWhole SQ then
    let* v := substr defWhole 1 (strings.len defWhole - 1) in
    Ok (VString (strings.ReplaceAll v (SQ ++ SQ) SQ))
  else if strings.HasPrefix defWhole DQ && strings.HasSuffix defWhole DQ then
    let* v := substr defWhole 1 (strings.len defWhole - 1) in
    Ok (VString (strings.ReplaceAll v (DQ ++ DQ) DQ))
  else if String.eqb low "true" then Ok (VBool true)
  else if String.eqb low "false" then Ok (VBool false)
  else if String.eqb low "null" then Ok VNil
  else
    match strconv.ParseInt defWhole with
    | Some i => Ok (VInt i)
    | None =>
        match strconv.ParseFloat defWhole with
        | Some f => Ok (VFloat f)
        | None => Ok (VString defWhole)
        end
    end.

(** The loop of [extractParamDefaults] over the matches, with the map [m]
    built so far. *)
Fixpoint extract_loop (matches : list (list string)) (m : params)
    : result params :=
  match matches with
  | [] => Ok m
  | sm :: matches' =>
      if (length sm <? 3)%nat then extract_loop matches' m
      else
        let* name := index sm 1 in
        let* defWhole := index sm 2 in
        let* v := decodeDefault defWhole in
        extract_loop matches' (<[name := v]> m)
  end.

Definition extractParamDefaults (sqlText : string) : result params :=
  extract_loop (FindAllStringSubmatch reParam sqlText) ∅.

Definition reserved (lw : string) : bool :=
  String.eqb lw "null" || String.eqb lw "true" || String.eqb lw "false"
  || String.eqb lw "and" || String.eqb lw "or" || String.eqb lw "not".

(** The words of one condition that are not reserved, added to [set]. *)
Definition add_words (cond : string) (set : gset string) : gset string :=
  foldl (fun set w => if reserved (strings.ToLower w) then set else {[w]} ∪ set)
        set (FindAllString reIdent cond).

(** [sort.Sort(sort.StringSlice(keys))] over the keys of the set, which a
    [range] gives in no fixed order. *)
Definition sorted_keys (set : gset string) : list string :=
  merge_sort String.le (elements set).

Definition findTruthyKeysForVariants (sqlContent : string) : list string :=
  let set :=
    foldl (fun set m =>
             if (length m <? 2)%nat then set
             else match m !! 1%nat with
                  | Some cond => add_words cond set
                  | None => set
                  end)
          ∅ (FindAllStringSubmatch reIfHead sqlContent) in
  let set :=
    foldl (fun set m =>
             if (2 <=? length m)%nat
             then match m !! 1%nat with
                  | Some key => {[key]} ∪ set
                  | None => set
                  end
             else set)
          set (FindAllStringSubmatch reBlockKeys sqlContent) in
  sorted_keys set.

(** ** The parts of a comparison

    What [evalCondFlexible] takes a condition apart into before it reads
    the literal: the operator and the trimmed text on either side of its
    first occurrence; [None] for a bare name and for a condition with
    neither [==] nor [!=]. *)
Definition comparison (cond : string) : option (operator * string * string) :=
  let c := strings.TrimSpace cond in
  if negb (strings.ContainsAny c " =!<>") then None
  else
    match (if strings.Contains c "==" then Some OpEq
           else if strings.Contains c "!=" then Some OpNe
           else None) with
    | None => None
    | Some op =>
        match strings.SplitN2 c (op_text op) with
        | [l; r] => Some (op, strings.TrimSpace l, strings.TrimSpace r)
        | _ => None
        end
    end.

(** A bare name: none of the characters space, [=], [!], [<], [>]. *)
Definition bare (cond : string) : bool :=
  negb (strings.ContainsAny (strings.TrimSpace cond) " =!<>").

(** A text that starts as a number prints: with a digit, a sign, or the
    [N] of [NaN]. *)
Definition numeric_head (s : string) : Prop :=
  match s with
  | String c _ => is_digit c = true \/ c = "-"%char \/ c = "+"%char \/ c = "N"%char
  | "" => False
  end.

(** The values that the literal on the right of a comparison can have. *)
Inductive literal : value -> Prop :=
| lit_nil : literal VNil
| lit_bool b : literal (VBool b)
| lit_string s : literal (VString s)
| lit_int i : literal (VInt i)
| lit_float f : literal (VFloat f).

(** ** The language of a pattern *)

Inductive lang : regex -> string -> Prop :=
| lang_eps : lang Eps ""
| lang_chr p c : p c = true -> lang (Chr p) (String c "")
| lang_seq r1 r2 w1 w2 : lang r1 w1 -> lang r2 w2 -> lang (Seq r1 r2) (w1 ++ w2)
| lang_alt_l r1 r2 w : lang r1 w -> lang (Alt r1 r2) w
| lang_alt_r r1 r2 w : lang r2 w -> lang (Alt r1 r2) w
| lang_star_nil g r : lang (Star g r) ""
| lang_star_cons g r w1 w2 :
    lang r w1 -> lang (Star g r) w2 -> lang (Star g r) (w1 ++ w2)
| lang_group i r w : lang r w -> lang (Group i r) w
| lang_bol : lang Bol ""
| lang_eol : lang Eol "".

(** [w] is in the language of a parenthesis of [r] that is numbered [i]. *)
Fixpoint group_lang (r : regex) (i : nat) (w : string) : Prop :=
  match r with
  | Eps | Chr _ | Bol | Eol => False
  | Seq r1 r2 | Alt r1 r2 => group_lang r1 i w \/ group_lang r2 i w
  | Star _ r1 => group_lang r1 i w
  | Group j r1 => (i = j /\ lang r1 w) \/ group_lang r1 i w
  end.

(** What the [i]-th text of a match of [r] can be: the whole match for 0,
    and the text of a parenthesis. *)
Definition sub_lang (r : regex) (i : nat) (w : string) : Prop :=
  (i = 0%nat /\ lang r w) \/ group_lang r i w.

(** Every pair of bounds in [cap] cuts a text that satisfies [P] out of the
    text [rest0], which starts at offset [pos0]. *)
Definition caps_ok (P : nat -> string -> Prop) (pos0 : nat) (rest0 : string)
    (cap : caps) : Prop :=
  forall i lo hi, cap !! i = Some (Some (lo, hi)) -> P i (slice pos0 rest0 lo hi).

(** The texts [sm] of one match of [r] *)
Definition match_of (r : regex) (sm : list string) : Prop :=
  length sm = S (ngroups r)
  /\ forall i w, sm !! i = Some w -> w = "" \/ sub_lang r i w.

(** ** The placeholders of a template *)

(** The default literal of a match of [reParam] with the name [name] *)
Definition default_named (name : string) (sm : list string) : option string :=
  match sm with
  | _ :: n :: d :: _ => if String.eqb n name then Some d else None
  | _ => None
  end.

(** The default literals of the placeholders of [tpl] that are named
    [name], in the order of the text. *)
Definition defaults_of (tpl name : string) : list string :=
  omap (default_named name) (FindAllStringSubmatch reParam tpl).

(** ** Closed forms for the comparison helpers *)

(** *** White space runs *)

(** The length of the longest prefix of [s] in the class [p] *)
Fixpoint span (p : ascii -> bool) (s : string) : nat :=
  match s with
  | String c s' => if p c then S (span p s') else O
  | "" => O
  end.

(** The offset of the first byte of [s] in the class [p] *)
Fixpoint find (p : ascii -> bool) (s : string) : option nat :=
  match s with
  | String c s' => if p c then Some O else option_map S (find p s')
  | "" => None
  end.

(** What [reSpace.ReplaceAllString(s, " ")] comes to: every run of [\s]
    bytes becomes one space; [inws] says that the byte before was one of
    the run. *)
Fixpoint collapse_go (inws : bool) (s : string) : string :=
  match s with
  | "" => ""
  | String c s' =>
      if is_s c
      then if inws then collapse_go true s' else String " " (collapse_go true s')
      else String c (collapse_go false s')
  end.
Definition collapse (s : string) : string := collapse_go false s.

(** *** Texts with single spaces *)

(** The byte is the space. *)
Definition is_sp (c : ascii) : bool := Ascii.eqb c " ".

Definition head_is (p : ascii -> bool) (s : string) : bool :=
  match s with
  | String c _ => p c
  | "" => false
  end.

(** No two adjacent bytes [a], [b] of [s] have [P a b]. *)
Fixpoint noadj (P : ascii -> ascii -> bool) (s : string) : bool :=
  match s with
  | String a s' => negb (head_is (P a) s') && noadj P s'
  | "" => true
  end.

(** Every byte of [s] has [Q]. *)
Fixpoint all_bytes (Q : ascii -> bool) (s : string) : bool :=
  match s with
  | String c s' => Q c && all_bytes Q s'
  | "" => true
  end.

Definition ws_pair (a b : ascii) : bool := is_s a && is_s b.
Definition sp_only (c : ascii) : bool := implb (is_s c) (Ascii.eqb c " ").

(** The [\s] bytes of [s] are spaces, and no two of them are adjacent. *)
Definition single_spaced (s : string) : bool :=
  all_bytes sp_only s && noadj ws_pair s.

(** The two bytes [a], [b] *)
Definition pair_is (a b : ascii) (x y : ascii) : bool :=
  Ascii.eqb x a && Ascii.eqb y b.

(** [t] is [s] without some of its spaces. *)
Inductive sdel : string -> string -> Prop :=
| sdel_nil : sdel "" ""
| sdel_keep c s t : sdel s t -> sdel (String c s) (String c t)
| sdel_drop s t : sdel s t -> sdel (String " " s) t.

(** What [strings.ReplaceAll(s, old, new)] comes to when [old] is [x] and a
    space and [new] is [x]: the space that follows an [x] goes; [afterx]
    says that the byte before was an [x] that can still take its space. *)
Fixpoint del_after (x : ascii) (afterx : bool) (s : string) : string :=
  match s with
  | String c s' =>
      if afterx && Ascii.eqb c " " then del_after x false s'
      else String c (del_after x (Ascii.eqb c x) s')
  | "" => ""
  end.

(** The same when [old] is a space and [y] and [new] is [y]: the space in
    front of a [y] goes. *)
Fixpoint del_before (y : ascii) (s : string) : string :=
  match s with
  | String c s' =>
      if Ascii.eqb c " " && head_is (Ascii.eqb y) s' then del_before y s'
      else String c (del_before y s')
  | "" => ""
  end.

(** [s] starts with a white space code point. *)
Definition lead_space (s : string) : bool :=
  match s with
  | String c1 s1 =>
      strings.asciiSpace c1
      || match s1 with
         | String c2 s2 =>
             strings.space2 c1 c2
             || match s2 with
                | String c3 _ => strings.space3 c1 c2 c3
                | "" => false
                end
         | "" => false
         end
  | "" => false
  end.

(** What [normalizeForCompare] does to a text after its comments are gone
    and before it is trimmed, in closed form. *)
Definition tighten (s : string) : string :=
  del_before ";" (del_before "," (del_before ")" (del_after "(" false (collapse s)))).

(** The texts [tighten] leaves alone: the only white space of the regular
    expression is the space, never twice in a row, never after an opening
    parenthesis nor before a closing one, a comma or a semicolon. *)
Definition tight (s : string) : bool :=
  single_spaced s
  && noadj (pair_is "(" " ") s
  && noadj (pair_is " " ")") s
  && noadj (pair_is " " ",") s
  && noadj (pair_is " " ";") s.

(** ** Placeholder spans *)

(** The same ASCII letters, whatever their case *)
Fixpoint same_letters (w t : string) : bool :=
  match w, t with
  | "", "" => true
  | String c w', String x t' =>
      Ascii.eqb (lower c) (lower x) && same_letters w' t'
  | _, _ => false
  end.

(** [s] is a text without the byte [q], and then [q]. *)
Fixpoint closes (q : ascii) (s : string) : bool :=
  match s with
  | "" => false
  | String c s' =>
      match s' with
      | "" => Ascii.eqb q c
      | _ => negb (Ascii.eqb q c) && closes q s'
      end
  end.

Definition quoted (q : ascii) (D : string) : bool :=
  match D with
  | String c s => Ascii.eqb q c && closes q s
  | "" => false
  end.

Definition number (D : string) : bool :=
  match D with
  | "" => false
  | _ => all_bytes is_numchar D
  end.

Definition keyword (D : string) : bool :=
  same_letters D "true" || same_letters D "false" || same_letters D "null".

(** The default literals that [reParam] reads, the non-ASCII spelling of
    [false] apart: a text in double or in single quotes without that quote
    inside, a run of digits, dots and signs, or a keyword in any case. *)
Definition default_literal (D : string) : bool :=
  quoted dquote D || quoted squote D || number D || keyword D.

(** A placeholder name in ASCII *)
Definition identifier (k : string) : bool :=
  match k with
  | "" => false
  | _ => all_bytes is_word k
  end.

(** The span of the placeholder [k] with the default literal [D] *)
Definition placeholder (k D : string) : string := "/*" ++ k ++ "*/" ++ D.

(** [s] with every byte [q] written twice *)
Fixpoint doubled (q : ascii) (s : string) : string :=
  match s with
  | "" => ""
  | String c s' =>
      if Ascii.eqb c q then String q (String q (doubled q s'))
      else String c (doubled q s')
  end.

(** ** Shapes of patterns *)

(** No parenthesis of [r] is numbered 0, the number of the whole match. *)
Fixpoint no_group0 (r : regex) : bool :=
  match r with
  | Eps | Chr _ | Bol | Eol => true
  | Seq r1 r2 | Alt r1 r2 => no_group0 r1 && no_group0 r2
  | Star _ r1 => no_group0 r1
  | Group i r1 => negb (i =? 0)%nat && no_group0 r1
  end.

(** [r] has neither [^] nor [$]. *)
Fixpoint anchor_free (r : regex) : bool :=
  match r with
  | Eps | Chr _ => true
  | Bol | Eol => false
  | Seq r1 r2 | Alt r1 r2 => anchor_free r1 && anchor_free r2
  | Star _ r1 | Group _ r1 => anchor_free r1
  end.

(** ** JSONC utilities *)

(** The byte order mark U+FEFF in UTF-8 *)
Definition BOM : string :=
  String (byte_of 239) (String (byte_of 187) (String (byte_of 191) "")).

Definition backslash : ascii := "\".

(** The loop of [stripJSONC] over [s[i:]], with its four flags.  [next]
    is the byte after [c], which the code takes to be zero at the end of
    the text; a comment delimiter is two bytes, and the loop skips the
    second one. *)
Fixpoint stripJSONC_from (inStr inLine inBlock esc : bool) (s : string)
    : string :=
  match s with
  | "" => ""
  | String c s' =>
      let next_is (d : ascii) :=
        match s' with String n _ => Ascii.eqb n d | "" => false end in
      if inLine then
        if Ascii.eqb c newline || Ascii.eqb c cr
        then String c (stripJSONC_from inStr false inBlock esc s')
        else stripJSONC_from inStr inLine inBlock esc s'
      else if inBlock then
        if Ascii.eqb c "*" && next_is "/"%char
        then match s' with
             | String _ s'' => stripJSONC_from inStr inLine false esc s''
             | "" => ""
             end
        else stripJSONC_from inStr inLine inBlock esc s'
      else if inStr then
        String c
          (if esc then stripJSONC_from inStr inLine inBlock false s'
           else if Ascii.eqb c backslash
                then stripJSONC_from inStr inLine inBlock true s'
           else if Ascii.eqb c dquote
                then stripJSONC_from false inLine inBlock esc s'
           else stripJSONC_from inStr inLine inBlock esc s')
      else if Ascii.eqb c dquote then
        String c (stripJSONC_from true inLine inBlock esc s')
      else if Ascii.eqb c "/" && next_is "/"%char then
        match s' with
        | String _ s'' => stripJSONC_from inStr true inBlock esc s''
        | "" => ""
        end
      else if Ascii.eqb c "/" && next_is "*"%char then
        match s' with
        | String _ s'' => stripJSONC_from inStr inLine true esc s''
        | "" => ""
        end
      else String c (stripJSONC_from inStr inLine inBlock esc s')
  end.

Definition stripJSONC (s : string) : string :=
  stripJSONC_from false false false false (strings.TrimPrefix s BOM).

(** [s] starts, after blanks, with a closing bracket or brace: the inner
    loop of [stripTrailingCommas] and the test after it. *)
Fixpoint closes_after (s : string) : bool :=
  match s with
  | "" => false
  | String c s' =>
      if Ascii.eqb c " " || Ascii.eqb c tab || Ascii.eqb c newline
         || Ascii.eqb c cr
      then closes_after s'
      else Ascii.eqb c "]" || Ascii.eqb c "}"
  end.

(** The loop of [stripTrailingCommas] over [s[i:]] *)
Fixpoint stripTrailingCommas_from (inStr esc : bool) (s : string) : string :=
  match s with
  | "" => ""
  | String c s' =>
      if inStr then
        String c
          (if esc then stripTrailingCommas_from inStr false s'
           else if Ascii.eqb c backslash then stripTrailingCommas_from inStr true s'
           else if Ascii.eqb c dquote then stripTrailingCommas_from false esc s'
           else stripTrailingCommas_from inStr esc s')
      else if Ascii.eqb c dquote then
        String c (stripTrailingCommas_from true esc s')
      else if Ascii.eqb c "," && closes_after s' then
        stripTrailingCommas_from inStr esc s'
      else String c (stripTrailingCommas_from inStr esc s')
  end.

Definition stripTrailingCommas (s : string) : string :=
  stripTrailingCommas_from false false s.

(** The inside of a JSON string literal: no quote that is not escaped, and
    no escape left open at the end; [esc] says that the byte before was a
    backslash that escapes. *)
Fixpoint literal_body (esc : bool) (s : string) : bool :=
  match s with
  | "" => negb esc
  | String c s' =>
      if esc then literal_body false s'
      else if Ascii.eqb c backslash then literal_body true s'
      else if Ascii.eqb c dquote then false
      else literal_body false s'
  end.

(** [t] is [s] without some of its commas. *)
Inductive comma_del : string -> string -> Prop :=
| comma_del_nil : comma_del "" ""
| comma_del_keep c s t : comma_del s t -> comma_del (String c s) (String c t)
| comma_del_drop s t : comma_del s t -> comma_del (String "," s) t.

(** Classes of bytes for the texts around a string literal, a comment or a
    comma *)
Definition no_quote_slash (c : ascii) : bool :=
  negb (Ascii.eqb c dquote) && negb (Ascii.eqb c "/").
Definition no_quote_comma (c : ascii) : bool :=
  negb (Ascii.eqb c dquote) && negb (Ascii.eqb c ",").
Definition not_eol (c : ascii) : bool :=
  negb (Ascii.eqb c newline || Ascii.eqb c cr).
Definition blank (c : ascii) : bool :=
  Ascii.eqb c " " || Ascii.eqb c tab || Ascii.eqb c newline || Ascii.eqb c cr.

(** The loop of [stripJSONC] from its first state, outside of strings and
    comments *)
Definition scanJSONC (s : string) : string :=
  stripJSONC_from false false false false s.

(** ** Guessing parameters *)

(** The keys of the optional blocks of a text, in the order of the text:
    what the loops over the matches of [reBlockKeys] read. *)
Definition block_keys (sqlContent : string) : list string :=
  omap (fun m : list string => if (2 <=? length m)%nat then m !! 1%nat else None)
       (FindAllStringSubmatch reBlockKeys sqlContent).

(** The conditions of the if-blocks of a text *)
Definition if_conditions (sqlContent : string) : list string :=
  omap (fun m : list string => if (length m <? 2)%nat then None else m !! 1%nat)
       (FindAllStringSubmatch reIfHead sqlContent).

Definition guessParamsFromSQL (sqlContent : string) : result params :=
  let* defs := extractParamDefaults sqlContent in
  Ok (foldl (fun (defs : params) (m : list string) =>
               if (2 <=? length m)%nat
               then match m !! 1%nat with
                    | Some key =>
                        match defs !! key with
                        | Some _ => defs
                        | None => <[key := VString ""]> defs
                        end
                    | None => defs
                    end
               else defs)
            defs (FindAllStringSubmatch reBlockKeys sqlContent)).

(** ** Batches of statements *)

Definition splitBySemicolon (s : string) : list string :=
  strings.Split1 s ";".

(** [execBatch] over a database whose state is a [db]: [exec] stands for
    [ExecContext], which gives the state after the statement and its error,
    if any. *)
Section Batch.

Context {db err : Type}.
Variable exec : db -> string -> db * option err.

Fixpoint execStatements (stmts : list string) (d : db) : db * option err :=
  match stmts with
  | [] => (d, None)
  | s :: stmts' =>
      let q := strings.TrimSpace s in
      if String.eqb q "" then execStatements stmts' d
      else match exec d q with
           | (d', Some e) => (d', Some e)
           | (d', None) => execStatements stmts' d'
           end
  end.

Definition execBatch (d : db) (batch : string) : db * option err :=
  execStatements (splitBySemicolon batch) d.

(** The statements [qs] one after the other, up to the first error *)
Fixpoint runAll (qs : list string) (d : db) : db * option err :=
  match qs with
  | [] => (d, None)
  | q :: qs' =>
      match exec d q with
      | (d', Some e) => (d', Some e)
      | (d', None) => runAll qs' d'
      end
  end.

End Batch.

(** The statements of a batch: its pieces between semicolons, trimmed,
    without the empty ones. *)
Definition statements (batch : string) : list string :=
  List.filter (fun q => negb (String.eqb q ""))
              (map strings.TrimSpace (splitBySemicolon batch)).

(** ** Small helpers *)

Definition addNewline (s : string) : string :=
  if strings.HasSuffix s NL then s else s ++ NL.

Definition maskPassword (s : string) : string :=
  match strings.Index s "://" with
  | Some i =>
      let rest := strings.drop (i + 3) s in
      match strings.Index rest "@", strings.Index rest ":" with
      | Some at_, Some colon =>
          if (0 <? at_)%nat && (colon <? at_)%nat
          then strings.take (i + 3) s ++ strings.take colon rest
               ++ ":***" ++ strings.drop at_ rest
          else s
      | _, _ => s
      end
  | None =>
      match strings.Index s "@" with
      | Some i =>
          if (0 <? i)%nat then
            let front := strings.take i s in
            match strings.Index front ":" with
            | Some c =>
                if (0 <? c)%nat
                then strings.take c front ++ ":***" ++ strings.drop i s
                else s
            | None => s
            end
          else s
      | None => s
      end
  end.

Definition is_not (x : ascii) (c : ascii) : bool := negb (Ascii.eqb c x).

(** ** Blocks of a template *)

(** The optional block of the key [k] around [body], and the if-block on
    the bare condition [k] *)
Definition opt_block (k body : string) : string :=
  "/*?" ++ k ++ "?*/" ++ body ++ "/*?*/".
Definition if_block (k body : string) : string :=
  "/*IF " ++ k ++ "*/" ++ body ++ "/*END*/".

(** ** Names of tests *)

(** [strings.Trim] for a set of ASCII characters *)
Fixpoint TrimLeft (s cutset : string) : string :=
  match s with
  | "" => ""
  | String c s' => if strings.mem_byte c cutset then TrimLeft s' cutset else s
  end.

Fixpoint TrimRight (s cutset : string) : string :=
  match s with
  | "" => ""
  | String c s' =>
      match TrimRight s' cutset with
      | "" => if strings.mem_byte c cutset then "" else String c ""
      | t => String c t
      end
  end.

Definition Trim (s cutset : string) : string :=
  TrimRight (TrimLeft s cutset) cutset.

(** [[a-z0-9_-]] *)
Definition name_byte (c : ascii) : bool :=
  is_lower c || is_digit c || Ascii.eqb c "_" || Ascii.eqb c "-".

(** [[^a-z0-9_-]+]: a byte of a character that is not ASCII is not in the
    class, so that the runs of characters that the pattern matches are the
    runs of such bytes. *)
Definition unsafe_byte (c : ascii) : bool := negb (name_byte c).
Definition reUnsafe : regex := plus (Chr unsafe_byte).

(** [safeName].  [ToLower] stands for [strings.ToLower], which also lowers
    the letters that are not ASCII. *)
Section SafeName.

Variable ToLower : string -> string.

Definition safeName (s : string) : string :=
  let s := ToLower s in
  let s := ReplaceAllString reUnsafe s "_" in
  let s := Trim s "_-" in
  if String.eqb s "" then "test" else s.

End SafeName.

(** What [ReplaceAllString] of the runs of the class [p] by the byte [r]
    comes to; [inrun] says that the byte before was in the class. *)
Fixpoint squash_go (p : ascii -> bool) (r : ascii) (inrun : bool) (s : string)
    : string :=
  match s with
  | "" => ""
  | String c s' =>
      if p c
      then if inrun then squash_go p r true s' else String r (squash_go p r true s')
      else String c (squash_go p r false s')
  end.
Definition squash (p : ascii -> bool) (r : ascii) (s : string) : string :=
  squash_go p r false s.

(** ** Lines of fields *)

(** No white space code point starts at a byte of [f]. *)
Fixpoint solid (f : string) : bool :=
  match f with
  | "" => true
  | String _ f' => negb (lead_space f) && solid f'
  end.

(** A field of [strings.Fields]: not empty, and without white space *)
Definition field (f : string) : bool := negb (String.eqb f "") && solid f.

(** The accumulator of [Fields_go] after the bytes of [f] *)
Fixpoint pushes (f : string) (cur : option string) : option string :=
  match f with
  | "" => cur
  | String c f' => pushes f' (strings.push c cur)
  end.

(** A line of [normalizeWhitespace]: fields with one space between them *)
Definition line_of (fs : list string) : string := strings.Join fs " ".

(** No two empty lines in a row *)
Fixpoint gapless (ls : list string) : bool :=
  match ls with
  | l :: ((l' :: _) as ls') =>
      negb (String.eqb l "" && String.eqb l' "") && gapless ls'
  | _ => true
  end.

(** What follows a field in a text of lines of fields: nothing, or a
    space or a line feed *)
Definition sep_next (tail : string) : Prop :=
  tail = "" \/ exists x r, tail = String x r /\ (x = " "%char \/ x = newline).

(** A line that is made of fields *)
Definition made_line (l : string) : Prop :=
  exists fs, Forall (fun f => field f = true) fs /\ l = line_of fs.

(** ** The lookups of a run

    [renderNyanSQL] reads its parameter set at four places, with one key
    each: [params[key]] in the pass of the optional blocks, [params[c]]
    and [params[lhs]] in [evalCondFlexible], and [params[name]] in the
    pass of the placeholders.  It does not range over the set. *)

(** The key that [evalCondFlexible] looks up for [cond], when it comes to
    a lookup: it returns or panics before, when the right side is no
    literal. *)
Definition evalCond_keys (cond : string) : list string :=
  let c := strings.TrimSpace cond in
  if negb (strings.ContainsAny c " =!<>") then [c]
  else
    match (if strings.Contains c "==" then Some OpEq
           else if strings.Contains c "!=" then Some OpNe
           else None) with
    | None => []
    | Some op =>
        match strings.SplitN2 c (op_text op) with
        | [l; r] =>
            match rhsValue (strings.TrimSpace r) with
            | Ok (Some _) => [strings.TrimSpace l]
            | _ => []
            end
        | _ => []
        end
    end.

(** The key that each callback of [renderNyanSQL] looks up for the match
    [m] *)
Definition optBlock_keys (m : string) : list string :=
  let sm := FindStringSubmatch reOptBlock m in
  if (length sm <? 3)%nat then []
  else match sm !! 1%nat, sm !! 2%nat with
       | Some k, Some _ => [strings.TrimSpace k]
       | _, _ => []
       end.

Definition ifBlock_keys (m : string) : list string :=
  let sm := FindStringSubmatch reIfBlock m in
  if (length sm <? 3)%nat then []
  else match sm !! 1%nat, sm !! 2%nat with
       | Some c, Some _ => evalCond_keys (strings.TrimSpace c)
       | _, _ => []
       end.

Definition param_keys (m : string) : list string :=
  let sm := FindStringSubmatch reParam m in
  match sm !! 1%nat, sm !! 2%nat with
  | Some name, Some _ => [name]
  | _, _ => []
  end.

(** The matches that the loop of [replaceAll] hands to the callback
    [repl], in their order, up to the one on which it panics *)
Fixpoint handed (fuel : nat) (r : regex) (repl : string -> result string)
    (pos : nat) (rest : string) (lastEnd : nat) : list string :=
  match fuel with
  | O => []
  | S fuel' =>
      match search r pos rest with
      | None => []
      | Some a =>
          match bounds a 0 with
          | None => []
          | Some (lo, hi) =>
              let m := slice pos rest lo hi in
              let called := (lastEnd <? hi)%nat || (lo =? 0)%nat in
              let here := if called then [m] else [] in
              match (if called then repl m else Ok "") with
              | Panic _ => here
              | Ok _ =>
                  here ++
                  (if (pos <? hi)%nat then
                     handed fuel' r repl hi (strings.drop (hi - pos) rest) hi
                   else
                     match rest with
                     | "" => []
                     | String _ rest' => handed fuel' r repl (S pos) rest' hi
                     end)
              end
          end
      end
  end.

Definition matches_handed (r : regex) (src : string)
    (repl : string -> result string) : list string :=
  handed (S (strings.len src)) r repl 0 src 0.

(** The keys that the run of [renderNyanSQL] on [tpl] and [ps] looks up,
    in their order *)
Definition reads (tpl : string) (ps : params) : list string :=
  flat_map optBlock_keys (matches_handed reOptBlock tpl (optBlock ps))
  ++ match ReplaceAllStringFunc reOptBlock tpl (optBlock ps) with
     | Panic _ => []
     | Ok t1 =>
         flat_map ifBlock_keys (matches_handed reIfBlock t1 (ifBlock ps))
         ++ match ReplaceAllStringFunc reIfBlock t1 (ifBlock ps) with
            | Panic _ => []
            | Ok t2 =>
                match ReplaceAllStringFunc reBeginEnd t2 beginEnd with
                | Panic _ => []
                | Ok t3 =>
                    flat_map param_keys (matches_handed reParam t3 (param ps))
                end
            end
     end.

(** A template whose placeholder is inside an if-block *)
Definition tpl_guarded : string := "/*IF a*/x = /*b*/1/*END*/ y".

(** ** Templates and parameter sets of the examples *)

Definition tpl_where_outside : string :=
  "WHERE /*BEGIN*/ /*IF a*/AND a=1/*END*/ /*END*/".
Definition tpl_where_inside : string :=
  "/*BEGIN*/WHERE /*IF a*/AND a=1/*END*/ /*END*/".

(** [/*k*/DQ d DQ] and [/*k*/'d'], with DQ the double quote *)
Definition tpl_k_dquoted : string := "/*k*/" ++ DQ ++ "d" ++ DQ.
Definition tpl_k_squoted : string := "/*k*/'d'".
Definition tpl_k_zero : string := "/*k*/0".

Definition tpl_select_k : string := "SELECT * FROM t WHERE c = /*k*/'d'".

Definition tpl_name_age : string :=
  "SELECT * FROM users WHERE name = /*name*/'bob' AND age >= /*age*/0".
Definition tpl_if_vip : string := "/*IF vip*/.../*END*/".

(** 3.0 and 3.5 as [float64] *)
Definition float_3 : strconv.float64 := S754_finite false 6755399441055744 (-51).
Definition float_3_5 : strconv.float64 := S754_finite false 7881299347898368 (-51).

(** A text whose comment hides the two halves of another comment. *)
Definition sql_hidden_comment : string := "//**/* y */".

(** A statement on two lines, with loose spaces and a line comment *)
Definition sql_spaced : string :=
  "SELECT  a , b" ++ NL ++ "FROM t ( x ) ; -- done" ++ NL.

(** * Properties *)

(** ** Prune collapse *)

(** The template of claim C1 does not render without its [WHERE]. *)
Lemma prune_keeps_where_outside :
  ~ (exists out, renderNyanSQL tpl_where_outside ∅ = Ok out
                 /\ strings.Contains out "WHERE" = false).
Proof.
  intros [out [Hr Hc]].
  assert (E : renderNyanSQL tpl_where_outside ∅ = Ok "WHERE")
    by (vm_compute; reflexivity).
  rewrite E in Hr. injection Hr as <-. vm_compute in Hc. discriminate.
Qed.

(** C1, amended: the prune pass drops a block that is left with a dangling
    [WHERE] inside it, so the template with the [WHERE] after [/*BEGIN*/]
    renders to the empty text against the empty parameter set; with the
    [WHERE] in front of [/*BEGIN*/] the block still collapses, and the
    [WHERE], which is outside of the block, is all that is rendered. *)
Theorem prune_collapse :
  renderNyanSQL tpl_where_inside ∅ = Ok ""
  /\ renderNyanSQL tpl_where_outside ∅ = Ok "WHERE".
Proof. split; vm_compute; reflexivity. Qed.

(** ** Numbers *)

(** C6: the value 3.0 for the placeholder [/*k*/0] renders [3] and the
    value 3.5 renders [3.5], as the [json.Number] that [decodeParams]
    yields and as a [float64]. *)
Theorem numeric_round_trip :
  renderNyanSQL tpl_k_zero {[ "k" := VNumber "3.0" ]} = Ok "3"
  /\ renderNyanSQL tpl_k_zero {[ "k" := VNumber "3.5" ]} = Ok "3.5"
  /\ strconv.ParseFloat "3.0" = Some float_3
  /\ strconv.ParseFloat "3.5" = Some float_3_5
  /\ renderNyanSQL tpl_k_zero {[ "k" := VFloat float_3 ]} = Ok "3"
  /\ renderNyanSQL tpl_k_zero {[ "k" := VFloat float_3_5 ]} = Ok "3.5".
Proof. repeat split; vm_compute; reflexivity. Qed.

(** ** Inference *)

(** C9: the skeleton of a template with [/*name*/'bob'] and [/*age*/0] is
    the map of [name] to the string [bob] and of [age] to the integer 0, and
    the predicate names of [/*IF vip*/.../*END*/] are [vip] alone. *)
Theorem inference_complete :
  extractParamDefaults tpl_name_age
  = Ok {[ "name" := VString "bob"; "age" := VInt 0 ]}
  /\ findTruthyKeysForVariants tpl_if_vip = ["vip"].
Proof. split; vm_compute; reflexivity. Qed.

(** ** Determinism *)

(** Two callbacks that agree on the matches that the loop hands to the
    first give the same text. *)
Lemma replaceAll_agree (r : regex) (f g : string -> result string) :
  forall fuel pos rest pending lastEnd,
    Forall (fun m => g m = f m) (handed fuel r f pos rest lastEnd) ->
    replaceAll fuel r g pos rest pending lastEnd
    = replaceAll fuel r f pos rest pending lastEnd.
Proof.
  induction fuel as [|fuel IH]; intros pos rest pending lastEnd H;
    [reflexivity|].
  cbn [replaceAll handed] in *.
  destruct (search r pos rest) as [a|]; [|reflexivity].
  destruct (bounds a 0) as [[lo hi]|]; [|reflexivity].
  cbv zeta in H.
  destruct ((lastEnd <? hi)%nat || (lo =? 0)%nat).
  - destruct (f (slice pos rest lo hi)) as [new|p] eqn:Ef.
    + apply Forall_app in H as [H1 H2].
      inversion H1 as [|? ? Hm _]; subst. rewrite Hm, Ef. cbn [bind].
      destruct (pos <? hi)%nat.
      * rewrite (IH _ _ "" _ H2). reflexivity.
      * destruct rest as [|c rest']; [reflexivity|].
        rewrite (IH _ _ (String c "") _ H2). reflexivity.
    + inversion H as [|? ? Hm _]; subst. rewrite Hm, Ef. reflexivity.
  - cbn [bind app] in *.
    destruct (pos <? hi)%nat.
    + rewrite (IH _ _ "" _ H). reflexivity.
    + destruct rest as [|c rest']; [reflexivity|].
      rewrite (IH _ _ (String c "") _ H). reflexivity.
Qed.

Lemma ReplaceAllStringFunc_agree (r : regex) (src : string)
    (f g : string -> result string) :
  Forall (fun m => g m = f m) (matches_handed r src f) ->
  ReplaceAllStringFunc r src g = ReplaceAllStringFunc r src f.
Proof. apply replaceAll_agree. Qed.

Lemma evalCondFlexible_agree (cond : string) (ps ps' : params) :
  Forall (fun k => get ps' k = get ps k) (evalCond_keys cond) ->
  evalCondFlexible cond ps' = evalCondFlexible cond ps.
Proof.
  unfold evalCondFlexible, evalCond_keys. cbv zeta.
  destruct (negb _).
  - intros H. inversion H as [|? ? Hk _]; subst. rewrite Hk. reflexivity.
  - destruct (if strings.Contains _ "==" then _ else _) as [op|]; [|reflexivity].
    destruct (strings.SplitN2 _ _) as [|l [|r [|? ?]]]; try reflexivity.
    destruct (rhsValue _) as [[v|]|p]; try reflexivity.
    intros H. inversion H as [|? ? Hk _]; subst. cbn [bind]. rewrite Hk.
    reflexivity.
Qed.

Lemma optBlock_agree (ps ps' : params) (m : string) :
  Forall (fun k => get ps' k = get ps k) (optBlock_keys m) ->
  optBlock ps' m = optBlock ps m.
Proof.
  unfold optBlock, optBlock_keys, index. cbv zeta.
  destruct (_ <? 3)%nat; [reflexivity|].
  destruct (_ !! 1%nat) as [k|]; [|reflexivity].
  destruct (_ !! 2%nat) as [b|]; [|reflexivity].
  intros H. inversion H as [|? ? Hk _]; subst. cbn [bind]. rewrite Hk.
  reflexivity.
Qed.

Lemma ifBlock_agree (ps ps' : params) (m : string) :
  Forall (fun k => get ps' k = get ps k) (ifBlock_keys m) ->
  ifBlock ps' m = ifBlock ps m.
Proof.
  unfold ifBlock, ifBlock_keys, index. cbv zeta.
  destruct (_ <? 3)%nat; [reflexivity|].
  destruct (_ !! 1%nat) as [c|]; [|reflexivity].
  destruct (_ !! 2%nat) as [b|]; [|reflexivity].
  intros H. cbn [bind]. rewrite (evalCondFlexible_agree _ ps ps' H).
  reflexivity.
Qed.

Lemma param_agree (ps ps' : params) (m : string) :
  Forall (fun k => get ps' k = get ps k) (param_keys m) ->
  param ps' m = param ps m.
Proof.
  unfold param, param_keys, index. cbv zeta.
  destruct (_ !! 1%nat) as [name|]; [|reflexivity].
  destruct (_ !! 2%nat) as [defWhole|]; [|reflexivity].
  intros H. inversion H as [|? ? Hk _]; subst. cbn [bind].
  unfold get in Hk.
  destruct (ps' !! name) as [v'|], (ps !! name) as [v|]; subst;
    reflexivity.
Qed.

Lemma Forall_keys (P : string -> Prop) (keys : string -> list string)
    (ms : list string) (f g : string -> result string) :
  (forall m, Forall P (keys m) -> g m = f m) ->
  Forall P (flat_map keys ms) -> Forall (fun m => g m = f m) ms.
Proof.
  intros Hfg H. apply Forall_flat_map in H.
  apply (Forall_impl _ _ _ H). exact Hfg.
Qed.

(** C7: the result of the renderer, text or panic, is fixed by the
    template and by the values of the keys that the run looks up.  Two
    runs on the same template give the same result when the second
    parameter set gives those keys the same values as the first, a
    missing key reading as nil; so do two runs on the same parameter set,
    whatever else the set holds and however it is laid out. *)
Theorem render_deterministic (tpl : string) (ps ps' : params) :
  Forall (fun k => get ps' k = get ps k) (reads tpl ps) ->
  renderNyanSQL tpl ps' = renderNyanSQL tpl ps.
Proof.
  unfold reads, renderNyanSQL. intros H.
  apply Forall_app in H as [H1 H].
  rewrite (ReplaceAllStringFunc_agree reOptBlock tpl (optBlock ps) (optBlock ps'))
    by (apply (Forall_keys _ _ _ _ _ (optBlock_agree ps ps') H1)).
  destruct (ReplaceAllStringFunc reOptBlock tpl (optBlock ps)) as [t1|p];
    [|reflexivity].
  cbn [bind]. apply Forall_app in H as [H2 H].
  rewrite (ReplaceAllStringFunc_agree reIfBlock t1 (ifBlock ps) (ifBlock ps'))
    by (apply (Forall_keys _ _ _ _ _ (ifBlock_agree ps ps') H2)).
  destruct (ReplaceAllStringFunc reIfBlock t1 (ifBlock ps)) as [t2|p];
    [|reflexivity].
  cbn [bind].
  destruct (ReplaceAllStringFunc reBeginEnd t2 beginEnd) as [t3|p];
    [|reflexivity].
  cbn [bind].
  rewrite (ReplaceAllStringFunc_agree reParam t3 (param ps) (param ps'))
    by (apply (Forall_keys _ _ _ _ _ (param_agree ps ps') H)).
  reflexivity.
Qed.

Lemma render_deterministic_witness :
  reads tpl_guarded ∅ = ["a"]
  /\ renderNyanSQL tpl_guarded {[ "b" := VInt 5 ]} = renderNyanSQL tpl_guarded ∅.
Proof.
  assert (E : reads tpl_guarded ∅ = ["a"]) by (vm_compute; reflexivity).
  split; [exact E|].
  apply render_deterministic. rewrite E.
  repeat constructor.
Defined.

(** ** How numbers print *)

Lemma digit_char_is_digit (n : Z) : is_digit (strconv.digit_char (n mod 10)) = true.
Proof.
  assert (H : (0 <= n mod 10 < 10)%Z) by (apply Z.mod_pos_bound; lia).
  unfold strconv.digit_char.
  assert (E : (n mod 10 = 0 \/ n mod 10 = 1 \/ n mod 10 = 2 \/ n mod 10 = 3
               \/ n mod 10 = 4 \/ n mod 10 = 5 \/ n mod 10 = 6 \/ n mod 10 = 7
               \/ n mod 10 = 8 \/ n mod 10 = 9)%Z) by lia.
  destruct E as [E|[E|[E|[E|[E|[E|[E|[E|[E|E]]]]]]]]]; rewrite E; reflexivity.
Qed.

Lemma digits_go_head (fuel : nat) (n : Z) (acc : string) :
  exists c rest, strconv.digits_go fuel n acc = String c rest /\ is_digit c = true.
Proof.
  revert n acc. induction fuel as [|fuel IH]; intros n acc; simpl.
  - eauto using digit_char_is_digit.
  - destruct (n <? 10)%Z; [eauto using digit_char_is_digit | apply IH].
Qed.

Lemma FormatUint_head (n : Z) :
  exists c rest, strconv.FormatUint n = String c rest /\ is_digit c = true.
Proof. apply digits_go_head. Qed.

Lemma FormatInt_numeric (i : Z) : numeric_head (strconv.FormatInt i).
Proof.
  unfold strconv.FormatInt. destruct (i <? 0)%Z; simpl; [auto|].
  destruct (FormatUint_head i) as (c & rest & -> & Hc). simpl. auto.
Qed.

Lemma numeric_head_app (s t : string) : numeric_head s -> numeric_head (s ++ t).
Proof. destruct s; simpl; [tauto | auto]. Qed.

Lemma zeros_numeric (n : nat) : (0 < n)%nat -> numeric_head (strconv.zeros n).
Proof. destruct n; [lia|]. intros _. simpl. left. reflexivity. Qed.

Lemma dig_shortest_go fuel v lo hi e2 incl p :
  exists c rest, strconv.dig (strconv.shortest_go fuel v lo hi e2 incl p) = String c rest
                 /\ is_digit c = true.
Proof.
  revert p. induction fuel as [|fuel IH]; intros p; simpl.
  - unfold strconv.decimal_of. destruct (strconv.strip_zeros _ _ _). simpl. apply FormatUint_head.
  - repeat match goal with
           | |- context [if ?b then _ else _] => destruct b
           end;
    try apply IH;
    unfold strconv.decimal_of; destruct (strconv.strip_zeros _ _ _); simpl; apply FormatUint_head.
Qed.

Lemma dig_digits_of (f : strconv.float64) :
  strconv.dig (strconv.digits_of f) = ""
  \/ exists c rest, strconv.dig (strconv.digits_of f) = String c rest /\ is_digit c = true.
Proof.
  destruct f; simpl; auto. right. apply dig_shortest_go.
Qed.

Lemma fmtF_numeric neg d prec :
  (strconv.dig d = "" \/ exists c rest, strconv.dig d = String c rest /\ is_digit c = true) ->
  numeric_head (strconv.fmtF neg d prec).
Proof.
  intros Hd. unfold strconv.fmtF, strconv.sign.
  destruct neg; [simpl; auto|].
  change ("" ++ ?x) with x. cbn [String.append].
  apply numeric_head_app.
  destruct (0 <? strconv.dp d)%Z eqn:Hdp; [|simpl; left; reflexivity].
  apply Z.ltb_lt in Hdp.
  destruct Hd as [-> | (c & rest & -> & Hc)].
  - simpl. rewrite Z.min_l by lia. simpl. apply zeros_numeric. lia.
  - set (m := Z.min _ _).
    assert (Hm : (0 < m)%Z) by (subst m; simpl strings.len; lia).
    destruct (Z.to_nat m) eqn:Em; [lia|]. simpl. auto.
Qed.

Lemma fmtE_numeric neg d prec :
  (strconv.dig d = "" \/ exists c rest, strconv.dig d = String c rest /\ is_digit c = true) ->
  numeric_head (strconv.fmtE neg d prec).
Proof.
  intros Hd. unfold strconv.fmtE, strconv.sign.
  destruct neg; [simpl; auto|].
  destruct Hd as [-> | (c & rest & -> & Hc)]; simpl; auto.
Qed.

Lemma FormatFloat_g_numeric (f : strconv.float64) :
  numeric_head (strconv.FormatFloat_g f).
Proof.
  unfold strconv.FormatFloat_g.
  destruct (strconv.special_text f) as [s|] eqn:Es.
  - destruct f as [| [] | |]; simpl in Es; inversion Es; simpl; auto.
  - destruct (_ || _); [apply fmtE_numeric | apply fmtF_numeric]; apply dig_digits_of.
Qed.

Lemma numeric_head_not_bool (s : string) (b : bool) :
  numeric_head s -> s <> (if b then "true" else "false").
Proof.
  intros H ->. destruct b; simpl in H;
    destruct H as [H|[H|[H|H]]]; discriminate.
Qed.

(** ** The condition evaluator *)

Lemma substr_ok (s : string) (lo hi : nat) :
  (lo <= hi <= strings.len s)%nat ->
  substr s lo hi = Ok (strings.take (hi - lo) (strings.drop lo s)).
Proof.
  intros [H1 H2]. unfold substr.
  apply Nat.leb_le in H1, H2. rewrite H1, H2. reflexivity.
Qed.

(** The literal reader panics on a lone quote character and on nothing
    else. *)
Lemma rhsValue_panic (rhs : string) (p : panic) :
  rhsValue rhs = Panic p <-> p = SliceBoundsOutOfRange /\ (rhs = SQ \/ rhs = DQ).
Proof.
  split.
  - destruct rhs as [|c [|c2 r]].
    + vm_compute. discriminate.
    + unfold rhsValue. simpl strings.EqualFold.
      cbn [strings.HasPrefix strings.HasSuffix strings.len String.length
           SQ DQ Nat.leb Nat.sub strings.drop andb].
      rewrite !andb_true_r.
      destruct (Ascii.eqb c squote) eqn:E1.
      * apply Ascii.eqb_eq in E1. subst c. vm_compute. intros [= <-]. auto.
      * destruct (Ascii.eqb c dquote) eqn:E2.
        -- apply Ascii.eqb_eq in E2. subst c. vm_compute. intros [= <-]. auto.
        -- simpl. repeat match goal with
                  | |- context [match ?x with _ => _ end] => destruct x
                  end; discriminate.
    + unfold rhsValue.
      rewrite (substr_ok (String c (String c2 r)) 1)
        by (simpl; lia).
      repeat match goal with
             | |- context [if ?x then _ else _] => destruct x
             | |- context [match ?x with _ => _ end] => destruct x
             end; simpl; discriminate.
  - intros [-> [-> | ->]]; vm_compute; reflexivity.
Qed.

Lemma rhsValue_literal (rhs : string) (v : value) :
  rhsValue rhs = Ok (Some v) -> literal v.
Proof.
  unfold rhsValue.
  repeat match goal with
         | |- context [if ?x then _ else _] => destruct x
         end;
    try (intros [= <-]; constructor).
  - destruct (substr rhs 1 _); simpl; [intros [= <-]; constructor | discriminate].
  - destruct (strconv.ParseInt rhs); [intros [= <-]; constructor|].
    destruct (strconv.ParseFloat rhs); [intros [= <-]; constructor | discriminate].
Qed.

Lemma evalCond_comparison (cond : string) (ps : params) op lhs rhs :
  comparison cond = Some (op, lhs, rhs) ->
  evalCondFlexible cond ps =
    let* rhsV := rhsValue rhs in
    match rhsV with
    | None => Ok false
    | Some rhsV =>
        match op with
        | OpEq => Ok (eq (get ps lhs) rhsV)
        | OpNe => Ok (negb (eq (get ps lhs) rhsV))
        end
    end.
Proof.
  unfold comparison, evalCondFlexible.
  destruct (negb _); [discriminate|].
  destruct (if strings.Contains _ "==" then _ else _) as [op'|]; [|discriminate].
  destruct (strings.SplitN2 _ _) as [|l [|r [|]]]; try discriminate.
  intros [= -> <- <-]. reflexivity.
Qed.

Lemma evalCond_no_comparison (cond : string) (ps : params) :
  comparison cond = None ->
  evalCondFlexible cond ps =
    Ok (if bare cond then isTruthy (get ps (strings.TrimSpace cond)) else false).
Proof.
  unfold comparison, evalCondFlexible, bare.
  destruct (negb _); [reflexivity|].
  destruct (if strings.Contains _ "==" then _ else _) as [op'|]; [|reflexivity].
  destruct (strings.SplitN2 _ _) as [|l [|r [|]]]; try discriminate; reflexivity.
Qed.

(** What a bool and nil are equal to, among the literals. *)
Lemma eq_bool_literal (b : bool) (v : value) :
  literal v ->
  eq (VBool b) v = true
  <-> v = VBool b \/ v = VString (if b then "true" else "false").
Proof.
  intros Hv. destruct Hv as [|b'|s|i|f]; simpl.
  - split; [destruct b; discriminate | intros [H|H]; discriminate].
  - split.
    + intros H. left. destruct b, b'; simpl in H; congruence.
    + intros [[= ->] | H]; [destruct b; reflexivity | discriminate].
  - rewrite String.eqb_eq. split.
    + intros <-. right. reflexivity.
    + intros [H | [= ->]]; [discriminate | reflexivity].
  - split; [|intros [H|H]; discriminate].
    intros H. apply String.eqb_eq in H. exfalso.
    eapply numeric_head_not_bool; [apply (FormatInt_numeric i) | symmetry; exact H].
  - split; [|intros [H|H]; discriminate].
    intros H. apply String.eqb_eq in H. exfalso.
    eapply numeric_head_not_bool; [apply (FormatFloat_g_numeric f) | symmetry; exact H].
Qed.

Lemma eq_nil (v : value) : eq VNil v = true <-> v = VNil.
Proof. destruct v; simpl; split; congruence. Qed.

(** The claim C2 as stated fails: a Bool parameter is also equal to the
    quoted text ['true']. *)
Lemma bool_equals_quoted_text :
  ~ (forall (ps : params) (cond k R : string) (b : bool),
       comparison cond = Some (OpEq, k, R) ->
       get ps k = VBool b ->
       evalCondFlexible cond ps = Ok true ->
       rhsValue R = Ok (Some (VBool b))).
Proof.
  intros H.
  specialize (H {[ "k" := VBool true ]} "k == 'true'" "k" "'true'" true).
  assert (E : rhsValue "'true'" = Ok (Some (VString "true")))
    by (vm_compute; reflexivity).
  rewrite E in H.
  assert (HF : @Ok (option value) (Some (VString "true")) = Ok (Some (VBool true)))
    by (apply H; vm_compute; reflexivity).
  discriminate HF.
Qed.

(** C2, amended: in a predicate [k == R], a parameter that is Null or
    missing equals only the literal null; a Bool parameter equals the same
    Bool, and also the quoted text that spells it ([true] or [false], as
    the Bool prints), and nothing else. *)
Theorem equality_of_null_and_bool (ps : params) (cond k R : string) :
  comparison cond = Some (OpEq, k, R) ->
  (get ps k = VNil ->
   (evalCondFlexible cond ps = Ok true <-> rhsValue R = Ok (Some VNil)))
  /\ (forall b : bool, get ps k = VBool b ->
      (evalCondFlexible cond ps = Ok true
       <-> rhsValue R = Ok (Some (VBool b))
           \/ rhsValue R = Ok (Some (VString (if b then "true" else "false"))))).
Proof.
  intros Hc. rewrite (evalCond_comparison _ ps _ _ _ Hc).
  split.
  - intros ->. destruct (rhsValue R) as [[v|]|p] eqn:ER; simpl.
    + split.
      * intros [= H]. apply eq_nil in H. congruence.
      * intros [= ->]. reflexivity.
    + split; discriminate.
    + split; discriminate.
  - intros b ->. destruct (rhsValue R) as [[v|]|p] eqn:ER; simpl.
    + pose proof (eq_bool_literal b v (rhsValue_literal _ _ ER)) as Hb.
      split.
      * intros [= H]. apply Hb in H. destruct H as [-> | ->]; auto.
      * intros [[= H] | [= H]]; f_equal; apply Hb; auto.
    + split; [discriminate | intros [H|H]; discriminate].
    + split; [discriminate | intros [H|H]; discriminate].
Qed.

Lemma equality_of_null_and_bool_witness :
  comparison "k == true" = Some (OpEq, "k", "true")
  /\ evalCondFlexible "k == true" {[ "k" := VBool true ]} = Ok true.
Proof.
  assert (Hc : comparison "k == true" = Some (OpEq, "k", "true"))
    by (vm_compute; reflexivity).
  split; [exact Hc|].
  apply (proj2 (equality_of_null_and_bool {[ "k" := VBool true ]} _ _ _ Hc) true).
  - vm_compute. reflexivity.
  - left. vm_compute. reflexivity.
Defined.

(** C3 is broken by the code: the evaluator panics on a comparison whose
    right side is a lone quote character, as in [a == '], and so does the
    renderer on an if-block with that predicate.  It panics on nothing
    else, and where it does not, a predicate that is neither a bare name
    nor a comparison with a literal on the right is false. *)
Theorem evaluator_panics_on_lone_quote :
  evalCondFlexible "a == '" ∅ = Panic SliceBoundsOutOfRange
  /\ renderNyanSQL "/*IF a == '*/x/*END*/" ∅ = Panic SliceBoundsOutOfRange
  /\ (forall (cond : string) (ps : params) (p : panic),
        evalCondFlexible cond ps = Panic p
        <-> p = SliceBoundsOutOfRange
            /\ exists op lhs rhs, comparison cond = Some (op, lhs, rhs)
                                  /\ (rhs = SQ \/ rhs = DQ))
  /\ (forall (cond : string) (ps : params),
        bare cond = false ->
        (comparison cond = None
         \/ exists op lhs rhs, comparison cond = Some (op, lhs, rhs)
                               /\ rhsValue rhs = Ok None) ->
        evalCondFlexible cond ps = Ok false).
Proof.
  split; [vm_compute; reflexivity|].
  split; [vm_compute; reflexivity|].
  split.
  - intros cond ps p.
    destruct (comparison cond) as [[[op lhs] rhs]|] eqn:Hc.
    + rewrite (evalCond_comparison _ ps _ _ _ Hc).
      pose proof (rhsValue_panic rhs p) as Hp.
      destruct (rhsValue rhs) as [[v|]|q] eqn:ER; simpl.
      * split.
        -- destruct op; discriminate.
        -- intros [E (op' & l' & r' & [= <- <- <-] & Hq)].
           assert (HP : @Ok (option value) (Some v) = Panic p)
             by (apply Hp; auto).
           discriminate HP.
      * split.
        -- discriminate.
        -- intros [E (op' & l' & r' & [= <- <- <-] & Hq)].
           assert (HP : @Ok (option value) None = Panic p)
             by (apply Hp; auto).
           discriminate HP.
      * split.
        -- intros [= ->]. destruct (proj1 Hp eq_refl) as [-> Hq].
           split; [reflexivity|]. exists op, lhs, rhs. auto.
        -- intros [-> (op' & l' & r' & [= <- <- <-] & Hq)].
           assert (HP : @Panic (option value) q = Panic SliceBoundsOutOfRange)
             by (apply Hp; auto).
           injection HP as ->. reflexivity.
    + rewrite (evalCond_no_comparison _ ps Hc). split.
      * discriminate.
      * intros [_ (op & l & r & H & _)]. discriminate.
  - intros cond ps Hb [Hc | (op & lhs & rhs & Hc & Hr)].
    + rewrite (evalCond_no_comparison _ ps Hc), Hb. reflexivity.
    + rewrite (evalCond_comparison _ ps _ _ _ Hc), Hr. reflexivity.
Qed.

(** ** Strings *)

#[local] Arguments String.append : simpl nomatch.

Lemma app_nil_r (s : string) : s ++ "" = s.
Proof. induction s; simpl; [reflexivity | rewrite IHs; reflexivity]. Qed.

Lemma app_assoc (s t u : string) : (s ++ t) ++ u = s ++ (t ++ u).
Proof. induction s; simpl; [reflexivity | rewrite IHs; reflexivity]. Qed.

Lemma len_app (s t : string) :
  strings.len (s ++ t) = (strings.len s + strings.len t)%nat.
Proof. unfold strings.len. induction s; simpl; [reflexivity | rewrite IHs; reflexivity]. Qed.

Lemma drop_0 (s : string) : strings.drop 0 s = s.
Proof. reflexivity. Qed.

Lemma take_app_len (w r : string) : strings.take (strings.len w) (w ++ r) = w.
Proof. induction w; simpl; [destruct r; reflexivity | rewrite IHw; reflexivity]. Qed.

Lemma drop_app_len (w r : string) : strings.drop (strings.len w) (w ++ r) = r.
Proof. induction w; simpl; [reflexivity | exact IHw]. Qed.

Lemma drop_drop (a b : nat) (s : string) :
  strings.drop b (strings.drop a s) = strings.drop (a + b) s.
Proof.
  revert s. induction a as [|a IH]; intros s; simpl.
  - reflexivity.
  - destruct s; simpl; [destruct b; reflexivity | apply IH].
Qed.

Lemma take_drop (n : nat) (s : string) : strings.take n s ++ strings.drop n s = s.
Proof.
  revert s. induction n as [|n IH]; intros s; simpl.
  - reflexivity.
  - destruct s; simpl; [reflexivity | rewrite IH; reflexivity].
Qed.

(** ** The matcher is sound for the language of its pattern *)

Section ExecSound.

Variable P : nat -> string -> Prop.
Variables (pos0 : nat) (rest0 : string).

(** [rest] is the text at offset [pos]. *)
Definition at_pos (pos : nat) (rest : string) : Prop :=
  (pos0 <= pos)%nat /\ rest = strings.drop (pos - pos0) rest0.

Lemma at_pos_app pos w rest' :
  at_pos pos (w ++ rest') -> at_pos (pos + strings.len w) rest'.
Proof.
  intros [H1 H2]. split; [lia|].
  replace (pos + strings.len w - pos0)%nat
    with ((pos - pos0) + strings.len w)%nat by lia.
  rewrite <- drop_drop, <- H2, drop_app_len. reflexivity.
Qed.

Lemma slice_at_pos pos w rest' :
  at_pos pos (w ++ rest') -> slice pos0 rest0 pos (pos + strings.len w) = w.
Proof.
  intros [H1 H2]. unfold slice. rewrite <- H2.
  replace (pos + strings.len w - pos)%nat with (strings.len w) by lia.
  apply take_app_len.
Qed.

(** What [exec r] must do for the text it consumes, for every way of
    going on. *)
Definition sound_for {A : Type} (r : regex)
    (body : nat -> string -> caps -> (nat -> string -> caps -> option A) -> option A)
    : Prop :=
  forall pos rest cap (k : nat -> string -> caps -> option A) (x : A),
    at_pos pos rest -> caps_ok P pos0 rest0 cap ->
    body pos rest cap k = Some x ->
    exists w rest' cap',
      rest = w ++ rest' /\ lang r w /\ caps_ok P pos0 rest0 cap'
      /\ length cap' = length cap
      /\ k (pos + strings.len w)%nat rest' cap' = Some x.

Lemma star_loop_sound {A : Type} (g : bool) (r1 : regex) body :
  @sound_for A r1 body ->
  forall fuel, sound_for (Star g r1) (fun pos rest cap k =>
                                        star_loop g body k fuel pos rest cap).
Proof.
  intros Hbody fuel. unfold sound_for.
  induction fuel as [|fuel IHf]; intros pos rest cap k x Hat Hcap Hx.
  - simpl in Hx. exists "", rest, cap. rewrite Nat.add_0_r.
    repeat split; auto. constructor.
  - assert (Hstop : forall y, k pos rest cap = Some y ->
        exists w rest' cap',
          rest = w ++ rest' /\ lang (Star g r1) w /\ caps_ok P pos0 rest0 cap'
          /\ length cap' = length cap
          /\ k (pos + strings.len w)%nat rest' cap' = Some y).
    { intros y Hy. exists "", rest, cap. rewrite Nat.add_0_r.
      repeat split; auto. constructor. }
    assert (Hstep : forall y,
        body pos rest cap (fun pos1 rest1 cap1 =>
          if (pos <? pos1)%nat then star_loop g body k fuel pos1 rest1 cap1
          else None) = Some y ->
        exists w rest' cap',
          rest = w ++ rest' /\ lang (Star g r1) w /\ caps_ok P pos0 rest0 cap'
          /\ length cap' = length cap
          /\ k (pos + strings.len w)%nat rest' cap' = Some y).
    { intros y Hy. apply Hbody in Hy; auto.
      destruct Hy as (w1 & rest1 & cap1 & -> & Hl1 & Hc1 & Hn1 & Hy).
      destruct (pos <? pos + strings.len w1)%nat; [|discriminate].
      apply IHf in Hy; auto; [|apply at_pos_app; exact Hat].
      destruct Hy as (w2 & rest2 & cap2 & -> & Hl2 & Hc2 & Hn2 & Hy).
      exists (w1 ++ w2), rest2, cap2.
      rewrite app_assoc, len_app, Nat.add_assoc.
      repeat split; auto; [constructor; auto | congruence]. }
    simpl in Hx. unfold orelse in Hx. destruct g.
    + match type of Hx with
      | match ?e with _ => _ end = _ => destruct e as [y|] eqn:E
      end.
      * injection Hx as ->. apply Hstep. reflexivity.
      * apply Hstop. exact Hx.
    + destruct (k pos rest cap) as [y|] eqn:E.
      * injection Hx as ->. apply Hstop. reflexivity.
      * apply Hstep. exact Hx.
Qed.

Lemma exec_sound {A : Type} (r : regex) :
  (forall i w, group_lang r i w -> P i w) -> @sound_for A r (exec r).
Proof.
  induction r as [|p|r1 IH1 r2 IH2|r1 IH1 r2 IH2|g r1 IH1|i r1 IH1| |];
    intros HP pos rest cap k x Hat Hcap Hx; simpl in Hx.
  - exists "", rest, cap. rewrite Nat.add_0_r. repeat split; auto. constructor.
  - destruct rest as [|c rest']; [discriminate|].
    destruct (p c) eqn:Hp; [|discriminate].
    exists (String c ""), rest', cap. simpl.
    rewrite Nat.add_1_r. repeat split; auto. constructor. exact Hp.
  - apply IH1 in Hx; auto; [|intros; apply HP; simpl; auto].
    destruct Hx as (w1 & rest1 & cap1 & -> & Hl1 & Hc1 & Hn1 & Hx).
    apply IH2 in Hx; auto;
      [|intros; apply HP; simpl; auto | apply at_pos_app; exact Hat].
    destruct Hx as (w2 & rest2 & cap2 & -> & Hl2 & Hc2 & Hn2 & Hx).
    exists (w1 ++ w2), rest2, cap2.
    rewrite app_assoc, len_app, Nat.add_assoc.
    repeat split; auto; [constructor; auto | congruence].
  - unfold orelse in Hx.
    destruct (exec r1 pos rest cap k) as [y|] eqn:E1.
    + injection Hx as ->. apply IH1 in E1; auto; [|intros; apply HP; simpl; auto].
      destruct E1 as (w & rest' & cap' & -> & Hl & Hc & Hn & Hk).
      exists w, rest', cap'. repeat split; auto. apply lang_alt_l. exact Hl.
    + apply IH2 in Hx; auto; [|intros; apply HP; simpl; auto].
      destruct Hx as (w & rest' & cap' & -> & Hl & Hc & Hn & Hk).
      exists w, rest', cap'. repeat split; auto. apply lang_alt_r. exact Hl.
  - eapply (star_loop_sound g r1 (exec r1)); eauto.
  - apply IH1 in Hx; auto; [|intros; apply HP; simpl; auto].
    destruct Hx as (w & rest' & cap' & -> & Hl & Hc & Hn & Hk).
    exists w, rest', (<[i := Some (pos, (pos + strings.len w)%nat)]> cap').
    repeat split; auto.
    + constructor. exact Hl.
    + intros j lo hi Hj.
      destruct (decide (i = j)) as [<- | Hne].
      * destruct (decide (i < length cap')%nat) as [Hlt|Hge].
        -- rewrite list_lookup_insert_eq in Hj by exact Hlt.
           injection Hj as <- <-. rewrite (slice_at_pos _ _ _ Hat).
           apply HP. simpl. auto.
        -- rewrite list_insert_ge in Hj by lia. apply Hc. exact Hj.
      * rewrite list_lookup_insert_ne in Hj by exact Hne. apply Hc. exact Hj.
    + rewrite length_insert. exact Hn.
  - destruct (pos =? 0)%nat; [|discriminate].
    exists "", rest, cap. rewrite Nat.add_0_r. repeat split; auto. constructor.
  - destruct rest; [|discriminate].
    exists "", "", cap. rewrite Nat.add_0_r. repeat split; auto. constructor.
Qed.

End ExecSound.

Lemma matchAt_sound (r : regex) (pos0 : nat) (rest0 : string) pos rest a :
  at_pos pos0 rest0 pos rest ->
  matchAt r pos rest = Some a ->
  caps_ok (sub_lang r) pos0 rest0 a /\ length a = S (ngroups r).
Proof.
  intros Hat Hm. unfold matchAt in Hm.
  apply (exec_sound (sub_lang r) pos0 rest0) in Hm; auto.
  - destruct Hm as (w & rest' & cap' & -> & Hl & Hc & Hn & [= <-]).
    rewrite length_insert, Hn, length_replicate. split; [|reflexivity].
    intros j lo hi Hj.
    destruct (decide (j = 0%nat)) as [-> | Hne].
    + destruct (decide (0 < length cap')%nat) as [Hlt|Hge].
      * rewrite list_lookup_insert_eq in Hj by exact Hlt.
        injection Hj as <- <-. rewrite (slice_at_pos _ _ _ _ _ Hat).
        left. auto.
      * rewrite list_insert_ge in Hj by lia. apply Hc. exact Hj.
    + rewrite list_lookup_insert_ne in Hj by congruence. apply Hc. exact Hj.
  - intros i w H. right. exact H.
  - intros i lo hi Hi. apply lookup_replicate in Hi. destruct Hi. discriminate.
Qed.

Lemma search_sound (r : regex) (pos0 : nat) (rest0 : string) pos rest a :
  at_pos pos0 rest0 pos rest ->
  search r pos rest = Some a ->
  caps_ok (sub_lang r) pos0 rest0 a /\ length a = S (ngroups r).
Proof.
  revert pos. induction rest as [|c rest IH]; intros pos Hat Hs; simpl in Hs.
  - destruct (matchAt r pos "") as [b|] eqn:E; [|discriminate].
    injection Hs as ->. eapply matchAt_sound; eauto.
  - destruct (matchAt r pos (String c rest)) as [b|] eqn:E.
    + injection Hs as ->. eapply matchAt_sound; eauto.
    + apply (IH (S pos)); [|exact Hs].
      replace (S pos) with (pos + strings.len (String c ""))%nat by (simpl; lia).
      apply at_pos_app. exact Hat.
Qed.

Lemma at_pos_refl (pos : nat) (rest : string) : at_pos pos rest pos rest.
Proof. split; [lia|]. rewrite Nat.sub_diag. reflexivity. Qed.

Lemma search_match_of (r : regex) (pos : nat) (rest : string) (a : caps) :
  search r pos rest = Some a -> match_of r (submatches pos rest a).
Proof.
  intros Hs.
  destruct (search_sound r pos rest pos rest a (at_pos_refl pos rest) Hs)
    as [Hc Hn].
  split.
  - unfold submatches. rewrite length_map. exact Hn.
  - intros i w Hi. unfold submatches in Hi.
    rewrite list_lookup_fmap in Hi.
    destruct (a !! i) as [[[lo hi]|]|] eqn:Ea; simpl in Hi; try discriminate.
    + injection Hi as <-. right. apply Hc. exact Ea.
    + injection Hi as <-. left. reflexivity.
Qed.

Lemma allMatches_match_of (r : regex) (fuel : nat) :
  forall pos rest prevEnd,
    Forall (match_of r) (allMatches fuel r pos rest prevEnd).
Proof.
  induction fuel as [|fuel IH]; intros pos rest prevEnd; simpl; [constructor|].
  destruct (search r pos rest) as [a|] eqn:Es; [|constructor].
  destruct (bounds a 0) as [[lo hi]|]; [|constructor].
  pose proof (search_match_of _ _ _ _ Es) as Hm.
  destruct (hi =? pos)%nat.
  - destruct rest as [|c rest'].
    + destruct (decide (prevEnd = Some lo));
        [apply Forall_nil_2 | apply Forall_cons_2; [exact Hm | apply Forall_nil_2]].
    + apply Forall_app. split; [|apply IH].
      destruct (decide (prevEnd = Some lo));
        [apply Forall_nil_2 | apply Forall_cons_2; [exact Hm | apply Forall_nil_2]].
  - apply Forall_cons_2; [exact Hm | apply IH].
Qed.

Lemma FindAllStringSubmatch_match_of (r : regex) (s : string) :
  Forall (match_of r) (FindAllStringSubmatch r s).
Proof. apply allMatches_match_of. Qed.

(** ** The default literals *)

Ltac inv_lang :=
  repeat match goal with
         | H : lang (Seq _ _) _ |- _ => inversion H; subst; clear H
         | H : lang (Alt _ _) _ |- _ => inversion H; subst; clear H
         | H : lang (Chr _) _ |- _ => inversion H; subst; clear H
         | H : lang (Group _ _) _ |- _ => inversion H; subst; clear H
         | H : lang Eps _ |- _ => inversion H; subst; clear H
         end.

Lemma lang_ichr (c : ascii) (w : string) :
  lang (ichr c) w ->
  exists c' w', w = String c' w'
                /\ (Ascii.eqb (lower c') (lower c) = true
                    \/ code c' = 197%nat \/ code c' = 226%nat).
Proof.
  unfold ichr, longS, kelvin, bytes3, bytes2.
  destruct (Ascii.eqb (lower c) "s"); [|destruct (Ascii.eqb (lower c) "k")];
    intros H; inv_lang; simpl;
    repeat match goal with
           | H : (_ =? _)%nat = true |- _ => apply Nat.eqb_eq in H
           end; eauto 6.
Qed.

Lemma lang_ilit (c : ascii) (s w : string) :
  lang (ilit (String c s)) w ->
  exists c' w', w = String c' w'
                /\ (Ascii.eqb (lower c') (lower c) = true
                    \/ code c' = 197%nat \/ code c' = 226%nat).
Proof.
  destruct s as [|c2 s]; cbn [ilit]; intros H.
  - apply lang_ichr. exact H.
  - inv_lang.
    match goal with
    | H : lang (ichr _) _ |- _ =>
        apply lang_ichr in H; destruct H as (c' & w' & -> & H)
    end.
    simpl. eauto.
Qed.

(** A default literal is never a lone quote character. *)
Lemma lang_reDefault (d : string) :
  lang reDefault d -> d <> SQ /\ d <> DQ.
Proof.
  intros H. unfold reDefault, plus, chr, notchr in H. inv_lang.
  all: repeat match goal with
              | H : lang (ichr _) _ |- _ =>
                  apply lang_ichr in H; destruct H as (? & ? & -> & H)
              end.
  all: cbn [String.append]; split; intros E; unfold SQ, DQ in E;
       injection E as E1 E2; subst.
  all: try match goal with
           | H : ?w ++ String _ _ = "" |- _ => destruct w; discriminate H
           end.
  all: repeat match goal with
              | H : _ \/ _ |- _ => destruct H as [H|H]
              end.
  all: match goal with
       | H : _ = true |- _ => vm_compute in H; discriminate H
       | H : code _ = _ |- _ => vm_compute in H; discriminate H
       end.
Qed.

Lemma decodeDefault_total (d : string) :
  d <> SQ -> d <> DQ -> exists v, decodeDefault d = Ok v.
Proof.
  intros H1 H2. destruct d as [|c [|c2 r]].
  - vm_compute. eauto.
  - unfold decodeDefault.
    cbn [strings.HasPrefix strings.HasSuffix strings.len String.length
         SQ DQ Nat.leb Nat.sub strings.drop andb].
    rewrite !andb_true_r.
    destruct (Ascii.eqb c squote) eqn:E1;
      [apply Ascii.eqb_eq in E1; subst c; exfalso; apply H1; reflexivity|].
    destruct (Ascii.eqb c dquote) eqn:E2;
      [apply Ascii.eqb_eq in E2; subst c; exfalso; apply H2; reflexivity|].
    simpl. repeat match goal with
                  | |- context [if ?x then _ else _] => destruct x
                  | |- context [match ?x with _ => _ end] => destruct x
                  end; eauto.
  - unfold decodeDefault.
    rewrite (substr_ok (String c (String c2 r)) 1) by (simpl; lia).
    repeat match goal with
           | |- context [if ?x then _ else _] => destruct x
           | |- context [match ?x with _ => _ end] => destruct x
           end; simpl; eauto.
Qed.

Lemma group_lang_ichr (c : ascii) (i : nat) (w : string) :
  ~ group_lang (ichr c) i w.
Proof.
  unfold ichr, longS, kelvin, bytes3, bytes2.
  destruct (Ascii.eqb _ _); [|destruct (Ascii.eqb _ _)];
    cbn [group_lang]; tauto.
Qed.

Ltac split_cases :=
  repeat match goal with
         | H : _ \/ _ |- _ => destruct H as [H|H]
         | H : _ /\ _ |- _ => destruct H as [? H]
         | H : False |- _ => destruct H
         | H : group_lang (ichr _) _ _ |- _ => apply group_lang_ichr in H
         | H : S _ = S _ |- _ => injection H as H
         | H : S _ = O |- _ => discriminate H
         | H : O = S _ |- _ => discriminate H
         end.

Lemma group_lang_reParam (d : string) :
  group_lang reParam 2 d -> lang reDefault d.
Proof.
  intros H. unfold reParam in H.
  cbn [group_lang lit chr plus iword longS kelvin bytes2 bytes3] in H.
  assert (H2 : group_lang reDefault 2 d -> False).
  { unfold reDefault.
    cbn [group_lang lit ilit chr notchr plus].
    intros HH. split_cases. }
  split_cases; try assumption; try (exfalso; apply H2; assumption).
Qed.

(** The texts of a match of [reParam]: five of them, the third a default
    literal that decodes. *)
Lemma match_of_reParam (sm : list string) :
  match_of reParam sm ->
  exists whole name d g3 g4 v,
    sm = [whole; name; d; g3; g4] /\ decodeDefault d = Ok v.
Proof.
  intros [Hn Hs].
  destruct sm as [|whole [|name [|d [|g3 [|g4 [|]]]]]]; try discriminate Hn.
  assert (Hd : exists v, decodeDefault d = Ok v).
  { destruct (Hs 2%nat d eq_refl) as [-> | [[H _] | H]].
    - vm_compute. eauto.
    - discriminate H.
    - pose proof (group_lang_reParam d H) as Hl.
      apply lang_reDefault in Hl. destruct Hl. apply decodeDefault_total; auto. }
  destruct Hd as [v Hv]. exists whole, name, d, g3, g4, v. auto.
Qed.

Lemma extract_loop_last (ms : list (list string)) :
  Forall (match_of reParam) ms ->
  forall m0 : params,
  exists m : params,
    extract_loop ms m0 = Ok m
    /\ forall name,
         match last (omap (default_named name) ms) with
         | Some d => exists v, decodeDefault d = Ok v /\ m !! name = Some v
         | None => m !! name = m0 !! name
         end.
Proof.
  induction 1 as [|sm ms Hsm Hms IH]; intros m0.
  - exists m0. split; [reflexivity|]. intros name. reflexivity.
  - destruct (match_of_reParam sm Hsm) as (whole & n & d & g3 & g4 & v & -> & Hv).
    destruct (IH (<[n := v]> m0)) as (m & Hm & Hlast).
    exists m. split.
    + simpl. rewrite Hv. simpl. exact Hm.
    + intros name. specialize (Hlast name). cbn [omap list_omap default_named].
      destruct (String.eqb n name) eqn:En.
      * apply String.eqb_eq in En. subst n.
        rewrite last_cons.
        destruct (last (omap (default_named name) ms)) as [d'|]; [exact Hlast|].
        exists v. split; [exact Hv|].
        rewrite Hlast. apply lookup_insert_eq.
      * apply String.eqb_neq in En.
        destruct (last (omap (default_named name) ms)) as [d'|]; [exact Hlast|].
        rewrite Hlast. apply lookup_insert_ne. exact En.
Qed.

(** C10: the skeleton is defined for every template, and it maps each name
    to the decoded default literal of the last placeholder with that name
    in the text (and has no other names): a later placeholder overwrites an
    earlier one. *)
Theorem last_default_wins (tpl : string) :
  exists m : params,
    extractParamDefaults tpl = Ok m
    /\ forall name : string,
         match last (defaults_of tpl name) with
         | Some d => exists v, decodeDefault d = Ok v /\ m !! name = Some v
         | None => m !! name = None
         end.
Proof.
  destruct (extract_loop_last _ (FindAllStringSubmatch_match_of reParam tpl) ∅)
    as (m & Hm & Hlast).
  exists m. split; [exact Hm|].
  intros name. specialize (Hlast name). unfold defaults_of.
  destruct (last _); [exact Hlast|].
  rewrite Hlast. apply lookup_empty.
Qed.

(** ** Idempotent normalisation *)

(** *** The pattern [\s+] *)

Lemma star_class_greedy {A : Type} (p : ascii -> bool)
    (k : nat -> string -> caps -> option A) :
  (forall pos rest cap, is_Some (k pos rest cap)) ->
  forall fuel pos rest cap,
    (strings.len rest <= fuel)%nat ->
    star_loop true (exec (Chr p)) k fuel pos rest cap
    = k (pos + span p rest)%nat (strings.drop (span p rest) rest) cap.
Proof.
  intros Hk fuel. induction fuel as [|fuel IH]; intros pos rest cap Hlen.
  - destruct rest; [|simpl in Hlen; lia]. simpl. rewrite Nat.add_0_r. reflexivity.
  - simpl. destruct rest as [|c rest']; simpl.
    + rewrite Nat.add_0_r. reflexivity.
    + destruct (p c) eqn:Hp; simpl.
      * assert (Hlt : (pos <? S pos)%nat = true) by (apply Nat.ltb_lt; lia).
        rewrite Hlt, IH by (simpl in Hlen; lia).
        replace (S pos + span p rest')%nat with (pos + S (span p rest'))%nat by lia.
        destruct (Hk (pos + S (span p rest'))%nat
                    (strings.drop (span p rest') rest') cap) as [y ->].
        reflexivity.
      * rewrite Nat.add_0_r. reflexivity.
Qed.

Lemma matchAt_reSpace (pos : nat) (rest : string) :
  matchAt reSpace pos rest =
  match rest with
  | String c rest' =>
      if is_s c then Some [Some (pos, (S pos + span is_s rest')%nat)] else None
  | "" => None
  end.
Proof.
  destruct rest as [|c rest']; [reflexivity|].
  change (matchAt reSpace pos (String c rest'))
    with (if is_s c
          then star_loop true (exec (Chr is_s))
                 (fun pos1 _ cap1 => Some (<[0%nat := Some (pos, pos1)]> cap1))
                 (strings.len rest') (S pos) rest' [None]
          else None).
  destruct (is_s c); [|reflexivity].
  rewrite star_class_greedy; [reflexivity | eauto | lia].
Qed.

Lemma search_reSpace (pos : nat) (rest : string) :
  search reSpace pos rest =
  match find is_s rest with
  | Some n =>
      Some [Some ((pos + n)%nat,
                  (pos + n + span is_s (strings.drop n rest))%nat)]
  | None => None
  end.
Proof.
  revert pos. induction rest as [|c rest' IH]; intros pos; cbn [search];
    rewrite matchAt_reSpace; [reflexivity|].
  cbn [find]. destruct (is_s c) eqn:Hc.
  - cbn [strings.drop span]. rewrite Hc, Nat.add_0_r. do 4 f_equal; lia.
  - rewrite IH. destruct (find is_s rest') as [n|]; cbn [option_map strings.drop];
      [|reflexivity].
    do 4 f_equal; lia.
Qed.

Lemma len_drop (n : nat) (s : string) :
  strings.len (strings.drop n s) = (strings.len s - n)%nat.
Proof.
  revert s. induction n as [|n IH]; intros s; simpl; [lia|].
  destruct s; simpl; [reflexivity | apply IH].
Qed.

Lemma find_lt (p : ascii -> bool) (s : string) (n : nat) :
  find p s = Some n -> (n < strings.len s)%nat.
Proof.
  revert n. induction s as [|c s IH]; intros n; simpl; [discriminate|].
  destruct (p c); [intros [= <-]; lia|].
  destruct (find p s) as [m|]; simpl; [|discriminate].
  intros [= <-]. specialize (IH m eq_refl). lia.
Qed.

Lemma find_span (p : ascii -> bool) (s : string) (n : nat) :
  find p s = Some n -> (0 < span p (strings.drop n s))%nat.
Proof.
  revert n. induction s as [|c s IH]; intros n; simpl; [discriminate|].
  destruct (p c) eqn:Hp; [intros [= <-]; simpl; rewrite Hp; lia|].
  destruct (find p s) as [m|]; simpl; [|discriminate].
  intros [= <-]. simpl. apply IH. reflexivity.
Qed.

Lemma collapse_go_true (s : string) :
  collapse_go true s = collapse (strings.drop (span is_s s) s).
Proof.
  induction s as [|c s IH]; simpl; [reflexivity|].
  destruct (is_s c) eqn:Hc; simpl; [exact IH|].
  unfold collapse. simpl. rewrite Hc. reflexivity.
Qed.

Lemma collapse_find_none (s : string) : find is_s s = None -> collapse s = s.
Proof.
  unfold collapse. induction s as [|c s IH]; simpl; [reflexivity|].
  destruct (is_s c); [discriminate|].
  destruct (find is_s s); [discriminate|]. intros _. rewrite IH; reflexivity.
Qed.

Lemma collapse_find_some (s : string) (n : nat) :
  find is_s s = Some n ->
  collapse s
  = strings.take n s ++ " "
    ++ collapse (strings.drop (n + span is_s (strings.drop n s)) s).
Proof.
  unfold collapse. revert n. induction s as [|c s IH]; intros n; simpl;
    [discriminate|].
  destruct (is_s c) eqn:Hc.
  - intros [= <-]. simpl. rewrite Hc. simpl. rewrite collapse_go_true. reflexivity.
  - destruct (find is_s s) as [m|]; simpl; [|discriminate].
    intros [= <-]. simpl. rewrite (IH m eq_refl). reflexivity.
Qed.

Lemma replaceAll_reSpace (fuel : nat) :
  forall pos rest lastEnd,
    (strings.len rest < fuel)%nat -> (lastEnd <= pos)%nat ->
    replaceAll fuel reSpace (fun _ => Ok " ") pos rest "" lastEnd
    = Ok (collapse rest).
Proof.
  induction fuel as [|fuel IH]; intros pos rest lastEnd Hlen Hle; [lia|].
  cbn [replaceAll]. rewrite search_reSpace.
  destruct (find is_s rest) as [n|] eqn:Hf.
  - pose proof (find_lt _ _ _ Hf) as Hn. pose proof (find_span _ _ _ Hf) as Hm.
    unfold bounds. simpl.
    set (m := span is_s (strings.drop n rest)) in *.
    assert (E1 : ((lastEnd <? pos + n + m) || (pos + n =? 0))%nat = true)
      by (apply orb_true_iff; left; apply Nat.ltb_lt; lia).
    assert (E2 : (pos <? pos + n + m)%nat = true) by (apply Nat.ltb_lt; lia).
    rewrite E1, E2. simpl.
    rewrite IH by (rewrite ?len_drop; lia).
    simpl. f_equal. rewrite (collapse_find_some _ _ Hf). fold m.
    unfold slice.
    replace (pos - pos)%nat with 0%nat by lia.
    replace (pos + n - pos)%nat with n by lia.
    replace (pos + n + m - pos)%nat with (n + m)%nat by lia.
    reflexivity.
  - simpl. rewrite (collapse_find_none _ Hf). reflexivity.
Qed.

Lemma ReplaceAllString_reSpace (s : string) :
  ReplaceAllString reSpace s " " = collapse s.
Proof.
  unfold ReplaceAllString, ReplaceAllStringFunc.
  rewrite replaceAll_reSpace by lia. reflexivity.
Qed.

(** *** Single spaces *)

Lemma collapse_go_spaced (s : string) :
  forall b,
    all_bytes sp_only (collapse_go b s) = true
    /\ noadj ws_pair (collapse_go b s) = true
    /\ head_is is_s (collapse_go true s) = false.
Proof.
  induction s as [|c s IH]; intros b; simpl; [auto|].
  destruct (IH true) as (A1 & A2 & A3). destruct (IH false) as (B1 & B2 & _).
  destruct (is_s c) eqn:Hc.
  - destruct b; simpl; [auto|].
    rewrite A1, A2. unfold ws_pair at 1. simpl.
    destruct (collapse_go true s); simpl in *; [auto|].
    rewrite A3. auto.
  - simpl. rewrite B1, B2, Hc. unfold sp_only, ws_pair. rewrite Hc. simpl.
    destruct (collapse_go false s); simpl; auto.
Qed.

Lemma collapse_single_spaced (s : string) : single_spaced (collapse s) = true.
Proof.
  unfold single_spaced, collapse.
  destruct (collapse_go_spaced s false) as (H1 & H2 & _).
  rewrite H1, H2. reflexivity.
Qed.

Lemma collapse_go_fixed (s : string) :
  single_spaced s = true ->
  collapse_go false s = s
  /\ (head_is is_s s = false -> collapse_go true s = s).
Proof.
  unfold single_spaced. induction s as [|c s IH]; simpl; [auto|].
  intros H. apply andb_true_iff in H as [H1 H2].
  apply andb_true_iff in H1 as [Hc H1]. apply andb_true_iff in H2 as [Hp H2].
  destruct IH as [IHf IHt]; [rewrite H1, H2; reflexivity|].
  unfold sp_only in Hc. destruct (is_s c) eqn:Ec; simpl in Hc.
  - apply Ascii.eqb_eq in Hc. subst c. split; [|discriminate].
    rewrite IHt; [reflexivity|].
    unfold ws_pair in Hp. simpl in Hp.
    destruct s; simpl in *; [reflexivity|].
    apply negb_true_iff in Hp. exact Hp.
  - rewrite IHf. auto.
Qed.

Lemma collapse_fixed (s : string) : single_spaced s = true -> collapse s = s.
Proof. intros H. apply collapse_go_fixed. exact H. Qed.

(** *** Deleting spaces *)

Lemma sdel_refl (s : string) : sdel s s.
Proof. induction s; constructor; auto. Qed.

Lemma sdel_all_bytes (Q : ascii -> bool) (s t : string) :
  sdel s t -> all_bytes Q s = true -> all_bytes Q t = true.
Proof.
  intros Hd. induction Hd as [|c s t Hd IH|s t Hd IH]; simpl; auto;
    intros HQ; apply andb_true_iff in HQ as [H1 H2].
  - rewrite H1. auto.
  - auto.
Qed.

Lemma noadj_tail P c s : noadj P (String c s) = true -> noadj P s = true.
Proof. simpl. intros H. apply andb_true_iff in H. tauto. Qed.

(** Deleting spaces from a single-spaced text brings together only bytes
    that are not white space, so it makes no new pair with a space in it. *)
Lemma sdel_noadj_from (P : ascii -> ascii -> bool) :
  (forall a b, P a b = true -> is_s a = true \/ is_s b = true) ->
  forall s t, sdel s t ->
  forall prev,
    noadj ws_pair (String prev s) = true ->
    noadj P (String prev s) = true ->
    noadj P (String prev t) = true /\ noadj ws_pair (String prev t) = true.
Proof.
  intros HP s t Hd. induction Hd as [|c s t Hd IH|s t Hd IH]; intros prev Hw Hn.
  - auto.
  - simpl in Hw, Hn.
    apply andb_true_iff in Hw as [Hw1 Hw2]. apply andb_true_iff in Hn as [Hn1 Hn2].
    destruct (IH c Hw2 Hn2) as [I1 I2].
    simpl. simpl in I1, I2. rewrite Hw1, Hn1, I1, I2. auto.
  - simpl in Hw, Hn.
    apply andb_true_iff in Hw as [Hw1 Hw2]. apply andb_true_iff in Hn as [Hn1 Hn2].
    destruct (IH " "%char Hw2 Hn2) as [I1 I2].
    simpl in I1, I2.
    apply andb_true_iff in I1 as [I1a I1b]. apply andb_true_iff in I2 as [I2a I2b].
    simpl. rewrite I1b, I2b, !andb_true_r.
    unfold ws_pair in Hw1. simpl in Hw1. rewrite andb_true_r in Hw1.
    apply negb_true_iff in Hw1.
    destruct t as [|b t]; simpl; [auto|]. simpl in I2a.
    unfold ws_pair in I2a. simpl in I2a. apply negb_true_iff in I2a.
    unfold ws_pair. rewrite Hw1. simpl. split; [|reflexivity].
    apply negb_true_iff. destruct (P prev b) eqn:E; [|reflexivity].
    destruct (HP _ _ E); congruence.
Qed.

Lemma sdel_noadj (P : ascii -> ascii -> bool) (s t : string) :
  (forall a b, P a b = true -> is_s a = true \/ is_s b = true) ->
  sdel s t ->
  noadj ws_pair s = true -> noadj P s = true ->
  noadj P t = true /\ noadj ws_pair t = true.
Proof.
  intros HP Hd Hw Hn. destruct Hd as [|c s t Hd|s t Hd].
  - auto.
  - apply (sdel_noadj_from P HP s t Hd c); assumption.
  - destruct (sdel_noadj_from P HP s t Hd " "%char Hw Hn) as [H1 H2].
    split; eapply noadj_tail; eauto.
Qed.

Lemma pair_is_space_r a x y : pair_is a " " x y = true -> is_s x = true \/ is_s y = true.
Proof.
  unfold pair_is. intros H. apply andb_true_iff in H as [_ H].
  apply Ascii.eqb_eq in H. subst. auto.
Qed.

Lemma pair_is_space_l b x y : pair_is " " b x y = true -> is_s x = true \/ is_s y = true.
Proof.
  unfold pair_is. intros H. apply andb_true_iff in H as [H _].
  apply Ascii.eqb_eq in H. subst. auto.
Qed.

Lemma ws_pair_space a b : ws_pair a b = true -> is_s a = true \/ is_s b = true.
Proof. unfold ws_pair. intros H. apply andb_true_iff in H. tauto. Qed.

Lemma sdel_single_spaced (s t : string) :
  sdel s t -> single_spaced s = true -> single_spaced t = true.
Proof.
  unfold single_spaced. intros Hd H. apply andb_true_iff in H as [H1 H2].
  rewrite (sdel_all_bytes _ _ _ Hd H1).
  destruct (sdel_noadj ws_pair s t ws_pair_space Hd H2 H2) as [-> _]. reflexivity.
Qed.

Lemma del_after_sdel (x : ascii) (s : string) : forall b, sdel s (del_after x b s).
Proof.
  induction s as [|c s IH]; intros b; simpl; [constructor|].
  destruct (b && Ascii.eqb c " ") eqn:E.
  - apply andb_true_iff in E as [_ E]. apply Ascii.eqb_eq in E. subst c.
    apply sdel_drop. apply IH.
  - apply sdel_keep. apply IH.
Qed.

Lemma del_before_sdel (y : ascii) (s : string) : sdel s (del_before y s).
Proof.
  induction s as [|c s IH]; simpl; [constructor|].
  destruct (Ascii.eqb c " " && head_is (Ascii.eqb y) s) eqn:E.
  - apply andb_true_iff in E as [E _]. apply Ascii.eqb_eq in E. subst c.
    apply sdel_drop. exact IH.
  - apply sdel_keep. exact IH.
Qed.

Lemma del_after_flag (x : ascii) (s : string) :
  head_is is_sp s = false -> del_after x true s = del_after x false s.
Proof.
  destruct s as [|c s]; cbn [head_is del_after andb]; [reflexivity|].
  unfold is_sp. intros ->. reflexivity.
Qed.

Lemma ReplaceAll_del_after (x : ascii) (fuel : nat) :
  forall s, (strings.len s <= fuel)%nat ->
  strings.ReplaceAll_from fuel s (String x (String " " "")) (String x "")
  = del_after x false s.
Proof.
  induction fuel as [|fuel IH]; intros s Hlen.
  - destruct s; [reflexivity | simpl in Hlen; lia].
  - destruct s as [|c s]; [reflexivity|].
    cbn [strings.ReplaceAll_from strings.HasPrefix del_after andb].
    destruct (Ascii.eqb c x) eqn:Ec.
    + destruct s as [|c2 s]; cbn [andb].
      * simpl. rewrite IH by (simpl; lia). reflexivity.
      * rewrite andb_true_r. cbn [del_after andb].
        destruct (Ascii.eqb c2 " ") eqn:E2.
        -- apply Ascii.eqb_eq in Ec. subst c. simpl.
           rewrite IH by (simpl in Hlen; lia). reflexivity.
        -- rewrite IH by (simpl in *; lia). cbn [del_after andb].
           reflexivity.
    + cbn [andb]. rewrite IH by (simpl in Hlen; lia). reflexivity.
Qed.

Lemma ReplaceAll_del_before (y : ascii) (fuel : nat) :
  Ascii.eqb y " " = false ->
  forall s, (strings.len s <= fuel)%nat ->
  strings.ReplaceAll_from fuel s (String " " (String y "")) (String y "")
  = del_before y s.
Proof.
  intros Hy. induction fuel as [|fuel IH]; intros s Hlen.
  - destruct s; [reflexivity | simpl in Hlen; lia].
  - destruct s as [|c s]; [reflexivity|].
    cbn [strings.ReplaceAll_from strings.HasPrefix del_before].
    destruct (Ascii.eqb c " ") eqn:Ec; cbn [andb].
    + destruct s as [|c2 s]; cbn [head_is].
      * rewrite IH by (simpl; lia). reflexivity.
      * rewrite andb_true_r, (Ascii.eqb_sym y c2).
        destruct (Ascii.eqb c2 y) eqn:E2.
        -- apply Ascii.eqb_eq in E2. subst c2. simpl.
           rewrite IH by (simpl in Hlen; lia).
           rewrite Hy. reflexivity.
        -- rewrite IH by (simpl in *; lia). reflexivity.
    + rewrite IH by (simpl in Hlen; lia). reflexivity.
Qed.

Lemma head_del_after_false (x : ascii) (p : ascii -> bool) (s : string) :
  head_is p (del_after x false s) = head_is p s.
Proof. destruct s; reflexivity. Qed.

Lemma head_del_after_true (x : ascii) (s : string) :
  noadj ws_pair s = true ->
  head_is is_sp (del_after x true s) = false.
Proof.
  destruct s as [|c s]; cbn [del_after noadj andb]; [reflexivity|].
  intros H. apply andb_true_iff in H as [H _].
  destruct (Ascii.eqb c " ") eqn:Ec.
  - apply Ascii.eqb_eq in Ec. subst c. rewrite head_del_after_false.
    destruct s as [|c2 s]; cbn [head_is] in *; [reflexivity|].
    unfold ws_pair in H. apply negb_true_iff in H.
    unfold is_sp. destruct (Ascii.eqb c2 " ") eqn:E; [|reflexivity].
    apply Ascii.eqb_eq in E. subst c2. discriminate H.
  - cbn [head_is]. exact Ec.
Qed.

(** After the replacement the pattern is gone. *)
Lemma del_after_noadj (x : ascii) (s : string) :
  noadj ws_pair s = true ->
  forall b, noadj (pair_is x " ") (del_after x b s) = true.
Proof.
  induction s as [|c s IH]; intros Hw b; simpl; [reflexivity|].
  pose proof (noadj_tail _ _ _ Hw) as Hw'.
  destruct (b && Ascii.eqb c " "); [apply IH; exact Hw'|].
  simpl. rewrite (IH Hw'), andb_true_r.
  apply negb_true_iff.
  destruct (Ascii.eqb c x) eqn:Ec.
  - pose proof (head_del_after_true x s Hw') as Hh.
    destruct (del_after x true s) as [|d r]; cbn [head_is] in *; [reflexivity|].
    unfold pair_is. rewrite Ec. exact Hh.
  - destruct (del_after x false s); simpl; [reflexivity|].
    unfold pair_is. rewrite Ec. reflexivity.
Qed.

Lemma del_before_noadj (y : ascii) (s : string) :
  Ascii.eqb y " " = false ->
  noadj ws_pair s = true ->
  noadj (pair_is " " y) (del_before y s) = true.
Proof.
  intros Hy. induction s as [|c s IH]; intros Hw; simpl; [reflexivity|].
  pose proof (noadj_tail _ _ _ Hw) as Hw'.
  destruct (Ascii.eqb c " " && head_is (Ascii.eqb y) s) eqn:E; [apply IH; exact Hw'|].
  simpl. rewrite (IH Hw'), andb_true_r.
  apply negb_true_iff.
  destruct (Ascii.eqb c " ") eqn:Ec; simpl in E.
  - apply Ascii.eqb_eq in Ec. subst c.
    destruct s as [|c2 s]; simpl in *; [reflexivity|].
    apply andb_true_iff in Hw as [Hw _].
    unfold ws_pair in Hw. simpl in Hw. apply negb_true_iff in Hw.
    destruct (Ascii.eqb c2 " ") eqn:E2.
    + apply Ascii.eqb_eq in E2. subst c2. discriminate Hw.
    + simpl. unfold pair_is. simpl. rewrite Ascii.eqb_sym. exact E.
  - destruct (del_before y s); simpl; [reflexivity|].
    unfold pair_is. rewrite Ec. reflexivity.
Qed.

(** Without the pattern the replacement changes nothing. *)
Lemma del_after_fixed (x : ascii) (s : string) :
  noadj (pair_is x " ") s = true ->
  forall b, (b = true -> head_is is_sp s = false) ->
  del_after x b s = s.
Proof.
  induction s as [|c s IH]; intros Hn b Hb; simpl; [reflexivity|].
  simpl in Hn. apply andb_true_iff in Hn as [Hn1 Hn2].
  assert (E : b && Ascii.eqb c " " = false).
  { destruct b; [|reflexivity]. specialize (Hb eq_refl). exact Hb. }
  rewrite E. f_equal. apply IH; [exact Hn2|].
  intros Ec. apply negb_true_iff in Hn1.
  destruct s as [|c2 s]; cbn [head_is] in *; [reflexivity|].
  unfold pair_is in Hn1. rewrite Ec in Hn1. exact Hn1.
Qed.

Lemma del_before_fixed (y : ascii) (s : string) :
  noadj (pair_is " " y) s = true -> del_before y s = s.
Proof.
  induction s as [|c s IH]; intros Hn; simpl; [reflexivity|].
  simpl in Hn. apply andb_true_iff in Hn as [Hn1 Hn2].
  rewrite (IH Hn2).
  destruct (Ascii.eqb c " " && head_is (Ascii.eqb y) s) eqn:E; [|reflexivity].
  exfalso. apply andb_true_iff in E as [E1 E2]. apply negb_true_iff in Hn1.
  destruct s as [|c2 s]; simpl in *; [discriminate|].
  unfold pair_is in Hn1. rewrite E1, (Ascii.eqb_sym c2 y), E2 in Hn1. discriminate.
Qed.

(** *** Trimming *)

Lemma TrimLeftSpace_fixed (s : string) :
  lead_space s = false -> strings.TrimLeftSpace s = s.
Proof.
  destruct s as [|c1 [|c2 [|c3 s]]]; cbn [lead_space strings.TrimLeftSpace];
    intros H; repeat (apply orb_false_iff in H as [? H]);
    repeat match goal with E : _ = false |- _ => rewrite E; clear E end;
    try rewrite H; reflexivity.
Qed.

Lemma TrimLeftSpace_spec (n : nat) :
  forall s, (strings.len s <= n)%nat ->
  lead_space (strings.TrimLeftSpace s) = false
  /\ exists pre, s = pre ++ strings.TrimLeftSpace s.
Proof.
  induction n as [|n IH]; intros s Hlen.
  - destruct s; [|simpl in Hlen; lia]. split; [reflexivity | exists ""; reflexivity].
  - assert (Hrec : forall pre t, s = pre ++ t -> (strings.len t < strings.len s)%nat ->
             lead_space (strings.TrimLeftSpace t) = false
             /\ exists pre', s = pre' ++ strings.TrimLeftSpace t).
    { intros pre t E Hlt. destruct (IH t ltac:(lia)) as [H1 [p Hp]].
      split; [exact H1|]. exists (pre ++ p). rewrite app_assoc, <- Hp. exact E. }
    assert (Hstop : lead_space s = false ->
             lead_space (strings.TrimLeftSpace s) = false
             /\ exists pre', s = pre' ++ strings.TrimLeftSpace s).
    { intros H. rewrite (TrimLeftSpace_fixed s H). split; [exact H | exists ""; reflexivity]. }
    clear IH Hlen.
    destruct s as [|c1 s1]; [apply Hstop; reflexivity|].
    cbn [strings.TrimLeftSpace] in *.
    destruct (strings.asciiSpace c1) eqn:E1.
    { apply (Hrec (String c1 "") s1); [reflexivity | simpl; lia]. }
    destruct s1 as [|c2 s2].
    { cbn [lead_space]. rewrite E1. split; [reflexivity | exists ""; reflexivity]. }
    destruct (strings.space2 c1 c2) eqn:E2.
    { apply (Hrec (String c1 (String c2 "")) s2); [reflexivity | simpl; lia]. }
    destruct s2 as [|c3 s3].
    { cbn [lead_space]. rewrite E1, E2. split; [reflexivity | exists ""; reflexivity]. }
    destruct (strings.space3 c1 c2 c3) eqn:E3.
    { apply (Hrec (String c1 (String c2 (String c3 ""))) s3); [reflexivity | simpl; lia]. }
    cbn [lead_space]. rewrite E1, E2, E3. split; [reflexivity | exists ""; reflexivity].
Qed.

Lemma lead_space_prefix (v post : string) :
  lead_space (v ++ post) = false -> lead_space v = false.
Proof.
  destruct v as [|c1 [|c2 [|c3 v]]]; cbn [String.append lead_space]; intros H;
    try reflexivity.
  - apply orb_false_iff in H as [-> _]. reflexivity.
  - apply orb_false_iff in H as [-> H].
    destruct post; [exact H|]. apply orb_false_iff in H as [-> _]. reflexivity.
  - exact H.
Qed.

Lemma TrimRightSpace_prefix (s : string) :
  exists post, s = strings.TrimRightSpace s ++ post.
Proof.
  induction s as [|c s [post IH]]; [exists ""; reflexivity|].
  cbn [strings.TrimRightSpace].
  destruct (strings.isSpaceRune (String c (strings.TrimRightSpace s))).
  - exists (String c s). reflexivity.
  - exists post. cbn [String.append]. rewrite <- IH. reflexivity.
Qed.

Lemma TrimRightSpace_idem (s : string) :
  strings.TrimRightSpace (strings.TrimRightSpace s) = strings.TrimRightSpace s.
Proof.
  induction s as [|c s IH]; [reflexivity|].
  cbn [strings.TrimRightSpace].
  destruct (strings.isSpaceRune (String c (strings.TrimRightSpace s))) eqn:E;
    [reflexivity|].
  cbn [strings.TrimRightSpace]. rewrite IH, E. reflexivity.
Qed.

Lemma TrimSpace_idem (s : string) :
  strings.TrimSpace (strings.TrimSpace s) = strings.TrimSpace s.
Proof.
  unfold strings.TrimSpace.
  destruct (TrimLeftSpace_spec (strings.len s) s (le_n _)) as [Hl _].
  destruct (TrimRightSpace_prefix (strings.TrimLeftSpace s)) as [post Hp].
  rewrite Hp in Hl. apply lead_space_prefix in Hl.
  rewrite (TrimLeftSpace_fixed _ Hl). apply TrimRightSpace_idem.
Qed.

Lemma TrimSpace_infix (s : string) :
  exists pre post, s = pre ++ strings.TrimSpace s ++ post.
Proof.
  unfold strings.TrimSpace.
  destruct (TrimLeftSpace_spec (strings.len s) s (le_n _)) as [_ [pre Hpre]].
  destruct (TrimRightSpace_prefix (strings.TrimLeftSpace s)) as [post Hp].
  exists pre, post. rewrite <- Hp. exact Hpre.
Qed.

Lemma all_bytes_app (Q : ascii -> bool) (a b : string) :
  all_bytes Q (a ++ b) = all_bytes Q a && all_bytes Q b.
Proof.
  induction a as [|c a IH]; cbn [String.append all_bytes]; [reflexivity|].
  rewrite IH, andb_assoc. reflexivity.
Qed.

Lemma noadj_app (P : ascii -> ascii -> bool) (a b : string) :
  noadj P (a ++ b) = true -> noadj P a = true /\ noadj P b = true.
Proof.
  induction a as [|c a IH]; cbn [String.append noadj]; [auto|].
  intros H. apply andb_true_iff in H as [H1 H2].
  destruct (IH H2) as [Ha Hb]. split; [|exact Hb].
  rewrite Ha, andb_true_r.
  destruct a; [reflexivity | exact H1].
Qed.

Lemma noadj_infix (P : ascii -> ascii -> bool) (pre t post : string) :
  noadj P (pre ++ t ++ post) = true -> noadj P t = true.
Proof.
  intros H. apply noadj_app in H as [_ H]. apply noadj_app in H as [H _]. exact H.
Qed.

Lemma single_spaced_infix (pre t post : string) :
  single_spaced (pre ++ t ++ post) = true -> single_spaced t = true.
Proof.
  unfold single_spaced. intros H. apply andb_true_iff in H as [H1 H2].
  rewrite !all_bytes_app in H1.
  apply andb_true_iff in H1 as [_ H1]. apply andb_true_iff in H1 as [H1 _].
  rewrite H1, (noadj_infix _ _ _ _ H2). reflexivity.
Qed.

(** *** Texts without comments *)

Lemma Index_none_tail (c : ascii) (s p : string) :
  strings.Index (String c s) p = None ->
  strings.HasPrefix (String c s) p = false /\ strings.Index s p = None.
Proof.
  cbn [strings.Index].
  destruct (strings.HasPrefix (String c s) p); [discriminate|].
  destruct (strings.Index s p); [discriminate|]. auto.
Qed.

Lemma stripComments_from_fixed (fuel : nat) :
  forall s, (strings.len s <= fuel)%nat ->
  strings.Index s "/*" = None -> strings.Index s "--" = None ->
  stripComments_from fuel s = s.
Proof.
  induction fuel as [|fuel IH]; intros s Hlen H1 H2.
  - destruct s; [reflexivity | simpl in Hlen; lia].
  - destruct s as [|c s]; [reflexivity|].
    apply Index_none_tail in H1 as [P1 H1]. apply Index_none_tail in H2 as [P2 H2].
    cbn [stripComments_from]. rewrite P1, P2.
    rewrite IH; [reflexivity | simpl in Hlen; lia | exact H1 | exact H2].
Qed.

Lemma stripComments_fixed (s : string) :
  strings.Contains s "/*" = false -> strings.Contains s "--" = false ->
  stripComments s = s.
Proof.
  unfold strings.Contains, stripComments. intros H1 H2.
  apply stripComments_from_fixed; [lia | |].
  - destruct (strings.Index s "/*"); [discriminate | reflexivity].
  - destruct (strings.Index s "--"); [discriminate | reflexivity].
Qed.

(** *** The normal form *)

Lemma normalizeForCompare_tighten (s : string) :
  normalizeForCompare s = strings.TrimSpace (tighten (stripComments s)).
Proof.
  unfold normalizeForCompare, tighten, strings.ReplaceAll.
  rewrite ReplaceAllString_reSpace.
  rewrite ReplaceAll_del_after by lia.
  rewrite (ReplaceAll_del_before ")") by (reflexivity || lia).
  rewrite (ReplaceAll_del_before ",") by (reflexivity || lia).
  rewrite (ReplaceAll_del_before ";") by (reflexivity || lia).
  reflexivity.
Qed.

Lemma tighten_tight (s : string) : tight (tighten s) = true.
Proof.
  unfold tighten, tight.
  set (u0 := collapse s).
  set (u1 := del_after "(" false u0).
  set (u2 := del_before ")" u1).
  set (u3 := del_before "," u2).
  set (u4 := del_before ";" u3).
  assert (S0 : single_spaced u0 = true) by apply collapse_single_spaced.
  assert (D1 : sdel u0 u1) by apply del_after_sdel.
  assert (D2 : sdel u1 u2) by apply del_before_sdel.
  assert (D3 : sdel u2 u3) by apply del_before_sdel.
  assert (D4 : sdel u3 u4) by apply del_before_sdel.
  pose proof (sdel_single_spaced _ _ D1 S0) as S1.
  pose proof (sdel_single_spaced _ _ D2 S1) as S2.
  pose proof (sdel_single_spaced _ _ D3 S2) as S3.
  pose proof (sdel_single_spaced _ _ D4 S3) as S4.
  assert (W : forall u, single_spaced u = true -> noadj ws_pair u = true).
  { intros u H. unfold single_spaced in H. apply andb_true_iff in H. tauto. }
  assert (N1 : noadj (pair_is "(" " ") u1 = true)
    by (apply del_after_noadj, W, S0).
  assert (N2 : noadj (pair_is " " ")") u2 = true)
    by (apply del_before_noadj; [reflexivity | apply W, S1]).
  assert (N3 : noadj (pair_is " " ",") u3 = true)
    by (apply del_before_noadj; [reflexivity | apply W, S2]).
  assert (N4 : noadj (pair_is " " ";") u4 = true)
    by (apply del_before_noadj; [reflexivity | apply W, S3]).
  assert (K : forall P u v,
             (forall a b, P a b = true -> is_s a = true \/ is_s b = true) ->
             sdel u v -> single_spaced u = true -> noadj P u = true ->
             noadj P v = true).
  { intros P u v HP Hd Hs Hn.
    exact (proj1 (sdel_noadj P u v HP Hd (W u Hs) Hn)). }
  pose proof (K _ _ _ (pair_is_space_r "(") D2 S1 N1) as N12.
  pose proof (K _ _ _ (pair_is_space_r "(") D3 S2 N12) as N13.
  pose proof (K _ _ _ (pair_is_space_r "(") D4 S3 N13) as N14.
  pose proof (K _ _ _ (pair_is_space_l ")") D3 S2 N2) as N23.
  pose proof (K _ _ _ (pair_is_space_l ")") D4 S3 N23) as N24.
  pose proof (K _ _ _ (pair_is_space_l ",") D4 S3 N3) as N34.
  rewrite S4, N14, N24, N34, N4. reflexivity.
Qed.

Lemma tight_infix (pre t post : string) :
  tight (pre ++ t ++ post) = true -> tight t = true.
Proof.
  unfold tight. intros H.
  do 4 (apply andb_true_iff in H as [H ?]).
  rewrite (single_spaced_infix _ _ _ H).
  repeat match goal with
         | E : noadj _ (_ ++ _ ++ _) = true |- _ =>
             rewrite (noadj_infix _ _ _ _ E); clear E
         end.
  reflexivity.
Qed.

Lemma tighten_fixed (t : string) : tight t = true -> tighten t = t.
Proof.
  unfold tight, tighten. intros H.
  do 4 (apply andb_true_iff in H as [H ?]).
  rewrite (collapse_fixed _ H).
  rewrite del_after_fixed by (assumption || (intros; discriminate)).
  rewrite (del_before_fixed ")" t) by assumption.
  rewrite (del_before_fixed "," t) by assumption.
  rewrite (del_before_fixed ";" t) by assumption.
  reflexivity.
Qed.

(** The normal forms are tight, and a tight text without comment openers
    that is already trimmed is its own normal form. *)
Lemma normalizeForCompare_tight (s : string) : tight (normalizeForCompare s) = true.
Proof.
  rewrite normalizeForCompare_tighten.
  destruct (TrimSpace_infix (tighten (stripComments s))) as (pre & post & E).
  apply (tight_infix pre _ post). rewrite <- E. apply tighten_tight.
Qed.

Lemma normalizeForCompare_hidden_comment :
  normalizeForCompare sql_hidden_comment = "/* y */"
  /\ normalizeForCompare "/* y */" = "".
Proof. split; vm_compute; reflexivity. Qed.

(** The claim C8 as stated fails: stripping the comment of
    [sql_hidden_comment] joins the two halves of a new comment, which the
    second normalisation strips. *)
Lemma normalize_not_idempotent :
  ~ (forall s : string,
       normalizeForCompare (normalizeForCompare s) = normalizeForCompare s).
Proof.
  intros H. specialize (H sql_hidden_comment).
  vm_compute in H. discriminate H.
Qed.

(** Claim C8, amended: normalising twice gives what normalising once gives,
    for every text whose normal form holds no comment opener, neither the
    slash-star nor the double dash.  The normal form of a text is tight
    and trimmed; only the comment stripper can still change it. *)
Theorem normalize_idempotent_without_comments (s : string) :
  strings.Contains (normalizeForCompare s) "/*" = false ->
  strings.Contains (normalizeForCompare s) "--" = false ->
  normalizeForCompare (normalizeForCompare s) = normalizeForCompare s.
Proof.
  intros H1 H2.
  rewrite (normalizeForCompare_tighten (normalizeForCompare s)).
  rewrite (stripComments_fixed _ H1 H2).
  rewrite (tighten_fixed _ (normalizeForCompare_tight s)).
  rewrite normalizeForCompare_tighten. apply TrimSpace_idem.
Qed.

Lemma normalize_idempotent_without_comments_witness :
  normalizeForCompare sql_spaced = "SELECT a, b FROM t (x);"
  /\ normalizeForCompare (normalizeForCompare sql_spaced)
     = normalizeForCompare sql_spaced.
Proof.
  split; [vm_compute; reflexivity|].
  apply (normalize_idempotent_without_comments sql_spaced);
    vm_compute; reflexivity.
Defined.

(** ** Default fallback *)

(** *** Matching a placeholder span *)

Lemma orelse_some {A} (x : option A) (y : option A) (a : A) :
  x = Some a -> orelse x y = Some a.
Proof. intros ->. reflexivity. Qed.

Lemma star_iword {A : Type} (w r : string)
    (K : nat -> string -> caps -> option A) (a : A) :
  all_bytes is_word w = true ->
  forall fuel pos cap,
    (strings.len (w ++ String "*" r) <= fuel)%nat ->
    K (pos + strings.len w)%nat (String "*" r) cap = Some a ->
    star_loop true (exec iword) K fuel pos (w ++ String "*" r) cap = Some a.
Proof.
  induction w as [|c w IH]; intros Hw fuel pos cap Hlen HK.
  - cbn [String.append strings.len String.length] in *.
    rewrite Nat.add_0_r in HK.
    destruct fuel as [|fuel]; cbn [star_loop]; [exact HK|].
    replace (exec iword pos (String "*" r) cap _) with (@None A) by reflexivity.
    exact HK.
  - cbn [all_bytes] in Hw. apply andb_true_iff in Hw as [Hc Hw].
    cbn [String.append] in *.
    destruct fuel as [|fuel]; [simpl in Hlen; lia|].
    cbn [star_loop]. apply orelse_some.
    unfold iword. cbn [exec]. apply orelse_some. rewrite Hc.
    assert (Hlt : (pos <? S pos)%nat = true) by (apply Nat.ltb_lt; lia).
    rewrite Hlt. apply IH; [exact Hw | simpl in Hlen; lia |].
    rewrite <- HK. f_equal. simpl. lia.
Qed.

Lemma star_class_run {A : Type} (p : ascii -> bool) (w : string)
    (K : nat -> string -> caps -> option A) (a : A) :
  all_bytes p w = true ->
  forall fuel pos cap,
    (strings.len w <= fuel)%nat ->
    K (pos + strings.len w)%nat "" cap = Some a ->
    star_loop true (exec (Chr p)) K fuel pos w cap = Some a.
Proof.
  induction w as [|c w IH]; intros Hw fuel pos cap Hlen HK.
  - cbn [strings.len String.length] in HK. rewrite Nat.add_0_r in HK.
    destruct fuel; cbn [star_loop exec orelse]; exact HK.
  - cbn [all_bytes] in Hw. apply andb_true_iff in Hw as [Hc Hw].
    destruct fuel as [|fuel]; [simpl in Hlen; lia|].
    cbn [star_loop exec]. apply orelse_some. rewrite Hc.
    assert (Hlt : (pos <? S pos)%nat = true) by (apply Nat.ltb_lt; lia).
    rewrite Hlt. apply IH; [exact Hw | simpl in Hlen; lia |].
    rewrite <- HK. f_equal. simpl. lia.
Qed.

Lemma closes_len (q : ascii) (s : string) :
  closes q s = true -> (1 <= strings.len s)%nat.
Proof. destruct s; simpl; [discriminate | lia]. Qed.

Lemma star_closes {A : Type} (q : ascii) (s : string)
    (K : nat -> string -> caps -> option A) (a : A) :
  closes q s = true ->
  forall fuel pos cap,
    (strings.len s <= fuel)%nat ->
    K (pos + (strings.len s - 1))%nat (String q "") cap = Some a ->
    star_loop true (exec (notchr q)) K fuel pos s cap = Some a.
Proof.
  induction s as [|c s IH]; intros Hs fuel pos cap Hlen HK; [discriminate|].
  destruct fuel as [|fuel]; [simpl in Hlen; lia|].
  cbn [closes] in Hs. destruct s as [|c' s'].
  - apply Ascii.eqb_eq in Hs. subst c.
    cbn [strings.len String.length] in HK.
    replace (pos + (1 - 1))%nat with pos in HK by lia.
    cbn [star_loop]. unfold notchr. cbn [exec].
    rewrite Ascii.eqb_refl. cbn [negb orelse]. exact HK.
  - apply andb_true_iff in Hs as [Hc Hs].
    cbn [star_loop]. unfold notchr at 1. cbn [exec]. rewrite Hc.
    assert (Hlt : (pos <? S pos)%nat = true) by (apply Nat.ltb_lt; lia).
    rewrite Hlt. apply orelse_some.
    apply IH; [exact Hs | simpl in Hlen |- *; lia |].
    rewrite <- HK. f_equal. simpl. lia.
Qed.

Lemma exec_ichr_run {A : Type} (x c : ascii) (rest : string) (pos : nat)
    (cap : caps) (K : nat -> string -> caps -> option A) (a : A) :
  Ascii.eqb (lower c) (lower x) = true ->
  K (S pos) rest cap = Some a ->
  exec (ichr x) pos (String c rest) cap K = Some a.
Proof.
  intros Hc HK. unfold ichr.
  destruct (Ascii.eqb (lower x) "s"); [|destruct (Ascii.eqb (lower x) "k")];
    cbn [exec]; rewrite Hc, HK; reflexivity.
Qed.

Lemma exec_ichr_fail {A : Type} (x c : ascii) (rest : string) (pos : nat)
    (cap : caps) (K : nat -> string -> caps -> option A) :
  Ascii.eqb (lower c) (lower x) = false ->
  (code c =? 197)%nat = false -> (code c =? 226)%nat = false ->
  exec (ichr x) pos (String c rest) cap K = None.
Proof.
  intros Hc H1 H2. unfold ichr, longS, kelvin, bytes3, bytes2.
  destruct (Ascii.eqb (lower x) "s"); [|destruct (Ascii.eqb (lower x) "k")];
    cbn [exec]; rewrite Hc, ?H1, ?H2; reflexivity.
Qed.

Lemma exec_ilit_run {A : Type} (t : string) :
  forall (w : string) (pos : nat) (cap : caps)
    (K : nat -> string -> caps -> option A) (a : A),
  same_letters w t = true ->
  K (pos + strings.len w)%nat "" cap = Some a ->
  exec (ilit t) pos w cap K = Some a.
Proof.
  induction t as [|x t IH]; intros w pos cap K a Hw HK.
  - destruct w; [|discriminate]. simpl in HK. rewrite Nat.add_0_r in HK. exact HK.
  - destruct w as [|c w]; [discriminate|].
    cbn [same_letters] in Hw. apply andb_true_iff in Hw as [Hc Hw].
    assert (Hn : K (S pos + strings.len w)%nat "" cap = Some a).
    { rewrite <- HK. f_equal. simpl. lia. }
    destruct t as [|x' t'].
    + destruct w; [|discriminate]. cbn [ilit].
      apply exec_ichr_run; [exact Hc|].
      simpl in Hn. rewrite Nat.add_0_r in Hn. exact Hn.
    + change (ilit (String x (String x' t')))
        with (Seq (ichr x) (ilit (String x' t'))).
      cbn [exec]. apply exec_ichr_run; [exact Hc|].
      apply IH; assumption.
Qed.

(** A byte that folds to a lower-case letter is that letter or its
    capital. *)
Lemma lower_letter_inv (c x : ascii) :
  is_lower x = true -> lower c = x -> c = x \/ c = upper x.
Proof.
  intros Hx Hc. subst x.
  destruct c as [b0 b1 b2 b3 b4 b5 b6 b7];
    destruct b0, b1, b2, b3, b4, b5, b6, b7;
    first [ discriminate Hx | left; reflexivity | right; reflexivity ].
Qed.

Lemma exec_ilit_fail {A : Type} (x c : ascii) (t w : string) (pos : nat)
    (cap : caps) (K : nat -> string -> caps -> option A) :
  Ascii.eqb (lower c) (lower x) = false ->
  (code c =? 197)%nat = false -> (code c =? 226)%nat = false ->
  exec (ilit (String x t)) pos (String c w) cap K = None.
Proof.
  intros Hc H1 H2. destruct t as [|x' t'].
  - cbn [ilit]. apply exec_ichr_fail; assumption.
  - change (ilit (String x (String x' t')))
      with (Seq (ichr x) (ilit (String x' t'))).
    cbn [exec]. apply exec_ichr_fail; assumption.
Qed.

(** What a byte that folds to a lower-case letter is not *)
Lemma letter_head (c : ascii) :
  is_lower (lower c) = true ->
  Ascii.eqb dquote c = false /\ Ascii.eqb squote c = false
  /\ is_numchar c = false
  /\ (code c =? 197)%nat = false /\ (code c =? 226)%nat = false.
Proof.
  intros H.
  destruct c as [b0 b1 b2 b3 b4 b5 b6 b7];
    destruct b0, b1, b2, b3, b4, b5, b6, b7;
    first [ discriminate H | repeat split; reflexivity ].
Qed.

Lemma numchar_head (c : ascii) :
  is_numchar c = true ->
  Ascii.eqb dquote c = false /\ Ascii.eqb squote c = false.
Proof.
  intros H.
  destruct c as [b0 b1 b2 b3 b4 b5 b6 b7];
    destruct b0, b1, b2, b3, b4, b5, b6, b7;
    first [ discriminate H | split; reflexivity ].
Qed.

Lemma same_letters_head (D t : string) (x : ascii) :
  same_letters D (String x t) = true ->
  exists c w, D = String c w /\ lower c = lower x.
Proof.
  destruct D as [|c w]; [discriminate|]. cbn [same_letters].
  intros H. apply andb_true_iff in H as [H _]. apply Ascii.eqb_eq in H.
  exists c, w. auto.
Qed.

Lemma exec_keyword {A : Type} (D : string)
    (K : nat -> string -> caps -> option A) (pos : nat) (cap : caps) :
  keyword D = true ->
  (forall p r c, is_Some (K p r c)) ->
  exec (Alt (ilit "true") (Alt (ilit "false") (ilit "null"))) pos D cap K
  = K (pos + strings.len D)%nat "" cap.
Proof.
  intros HD HK. destruct (HK (pos + strings.len D)%nat "" cap) as [a Ha].
  rewrite Ha. unfold keyword in HD.
  destruct (same_letters D "true") eqn:E1.
  { cbn [exec]. apply orelse_some. apply exec_ilit_run; assumption. }
  destruct (same_letters D "false") eqn:E2.
  { destruct (same_letters_head _ _ _ E2) as (c & w & -> & Hc).
    destruct (letter_head c) as (_ & _ & _ & H1 & H2); [rewrite Hc; reflexivity|].
    cbn [exec]. rewrite exec_ilit_fail; [| rewrite Hc; reflexivity | exact H1 | exact H2].
    cbn [orelse]. apply orelse_some. apply exec_ilit_run; assumption. }
  simpl in HD.
  destruct (same_letters_head _ _ _ HD) as (c & w & -> & Hc).
  destruct (letter_head c) as (_ & _ & _ & H1 & H2); [rewrite Hc; reflexivity|].
  cbn [exec].
  rewrite exec_ilit_fail; [| rewrite Hc; reflexivity | exact H1 | exact H2].
  rewrite exec_ilit_fail; [| rewrite Hc; reflexivity | exact H1 | exact H2].
  cbn [orelse]. apply exec_ilit_run; assumption.
Qed.

Lemma keyword_head (D : string) :
  keyword D = true ->
  exists c w, D = String c w /\ is_lower (lower c) = true.
Proof.
  unfold keyword. intros HD.
  apply orb_true_iff in HD as [HD|HD]; [apply orb_true_iff in HD as [HD|HD]|];
    destruct (same_letters_head _ _ _ HD) as (c & w & -> & Hc);
    exists c, w; (split; [reflexivity | rewrite Hc; reflexivity]).
Qed.

Lemma exec_reDefault {A : Type} (D : string)
    (K : nat -> string -> caps -> option A) :
  default_literal D = true ->
  (forall p r c, is_Some (K p r c)) ->
  forall pos cap, exists cap',
    exec reDefault pos D cap K = K (pos + strings.len D)%nat "" cap'
    /\ length cap' = length cap
    /\ forall i, (i < 3)%nat -> cap' !! i = cap !! i.
Proof.
  intros HD HK pos cap. unfold default_literal in HD.
  assert (Hlt : forall n, (n <? S n)%nat = true) by (intros n; apply Nat.ltb_lt; lia).
  destruct (quoted dquote D) eqn:E1.
  { destruct D as [|c s]; [discriminate|]. cbn [quoted] in E1.
    apply andb_true_iff in E1 as [Ec Es]. apply Ascii.eqb_eq in Ec. subst c.
    pose proof (closes_len _ _ Es) as Hlen.
    set (cap' := <[3%nat := Some (S pos, (S pos + (strings.len s - 1))%nat)]> cap).
    exists cap'. split; [|split].
    - destruct (HK (pos + strings.len (String dquote s))%nat "" cap') as [a Ha].
      rewrite Ha. unfold reDefault. cbn [exec]. apply orelse_some.
      unfold chr at 1. cbn [exec]. rewrite Ascii.eqb_refl.
      apply star_closes; [exact Es | lia |].
      unfold chr. cbn [exec]. rewrite Ascii.eqb_refl.
      fold cap'. rewrite <- Ha. f_equal. simpl. lia.
    - apply length_insert.
    - intros i Hi. apply list_lookup_insert_ne. lia. }
  destruct (quoted squote D) eqn:E2.
  { destruct D as [|c s]; [discriminate|]. cbn [quoted] in E2.
    apply andb_true_iff in E2 as [Ec Es]. apply Ascii.eqb_eq in Ec. subst c.
    pose proof (closes_len _ _ Es) as Hlen.
    set (cap' := <[4%nat := Some (S pos, (S pos + (strings.len s - 1))%nat)]> cap).
    exists cap'. split; [|split].
    - destruct (HK (pos + strings.len (String squote s))%nat "" cap') as [a Ha].
      rewrite Ha. unfold reDefault. cbn [exec].
      unfold chr at 1. cbn [exec].
      replace (Ascii.eqb dquote squote) with false by reflexivity.
      cbn [orelse]. apply orelse_some.
      unfold chr at 1. cbn [exec]. rewrite Ascii.eqb_refl.
      apply star_closes; [exact Es | lia |].
      unfold chr. cbn [exec]. rewrite Ascii.eqb_refl.
      fold cap'. rewrite <- Ha. f_equal. simpl. lia.
    - apply length_insert.
    - intros i Hi. apply list_lookup_insert_ne. lia. }
  destruct (number D) eqn:E3.
  { destruct D as [|c s]; [discriminate|]. cbn [number all_bytes] in E3.
    apply andb_true_iff in E3 as [Ec Es].
    destruct (numchar_head c Ec) as [Q1 Q2].
    exists cap. split; [|split; [reflexivity | reflexivity]].
    destruct (HK (pos + strings.len (String c s))%nat "" cap) as [a Ha].
    rewrite Ha. unfold reDefault, plus, chr. cbn [exec].
    rewrite Q1, Q2, Ec. cbn [orelse]. apply orelse_some.
    apply star_class_run; [exact Es | lia |].
    rewrite <- Ha. f_equal. simpl. lia. }
  simpl in HD.
  destruct (keyword_head D HD) as (c & w & E & Hc).
  destruct (letter_head c Hc) as (Q1 & Q2 & Q3 & _).
  exists cap. split; [|split; [reflexivity | reflexivity]].
  rewrite <- (exec_keyword D K pos cap HD HK).
  subst D. unfold reDefault, plus, chr. cbn [exec].
  rewrite Q1, Q2, Q3. reflexivity.
Qed.

Lemma search_here (r : regex) (pos : nat) (rest : string) (a : caps) :
  matchAt r pos rest = Some a -> search r pos rest = Some a.
Proof. intros H. destruct rest; cbn [search]; rewrite H; reflexivity. Qed.

Lemma matchAt_placeholder (k D : string) :
  identifier k = true -> default_literal D = true ->
  exists a,
    matchAt reParam 0 (placeholder k D) = Some a
    /\ a !! 0%nat = Some (Some (0, strings.len (placeholder k D)))%nat
    /\ a !! 1%nat = Some (Some (2, 2 + strings.len k))%nat
    /\ a !! 2%nat
       = Some (Some (4 + strings.len k, strings.len (placeholder k D)))%nat.
Proof.
  intros Hk HD. destruct k as [|c w]; [discriminate|].
  cbn [identifier all_bytes] in Hk. apply andb_true_iff in Hk as [Hc Hw].
  set (cap0 := replicate (S (ngroups reParam)) (@None (nat * nat))).
  set (cap1 := <[1%nat := Some (2, 3 + strings.len w)%nat]> cap0).
  set (K0 := fun (pos1 : nat) (_ : string) (cap1 : caps) =>
               Some (<[0%nat := Some (0%nat, pos1)]> cap1)).
  set (K2 := fun (pos1 : nat) (rest1 : string) (c1 : caps) =>
               K0 pos1 rest1 (<[2%nat := Some ((5 + strings.len w)%nat, pos1)]> c1)).
  assert (HK2 : forall p r c0, is_Some (K2 p r c0)) by (intros; eexists; reflexivity).
  destruct (exec_reDefault D K2 HD HK2 (5 + strings.len w)%nat cap1)
    as (cap' & He & Hl & Hi).
  assert (Hlen : strings.len (placeholder (String c w) D)
                 = (5 + strings.len w + strings.len D)%nat).
  { unfold placeholder. cbn [String.append strings.len String.length].
    f_equal. f_equal. fold (strings.len (w ++ "*/" ++ D)).
    rewrite !len_app. simpl. lia. }
  assert (L0 : length cap0 = 5%nat) by reflexivity.
  assert (L1 : length cap1 = 5%nat) by (unfold cap1; rewrite length_insert; exact L0).
  exists (<[0%nat := Some (0, 5 + strings.len w + strings.len D)%nat]>
            (<[2%nat := Some (5 + strings.len w, 5 + strings.len w + strings.len D)%nat]> cap')).
  split; [|split; [|split]].
  - unfold matchAt. fold cap0. fold K0.
    unfold reParam, placeholder. cbn [String.append].
    change (lit "/*") with (Seq (chr "/") (chr "*")).
    change (lit "*/") with (Seq (chr "*") (chr "/")).
    unfold plus, chr. cbn [exec]. rewrite !Ascii.eqb_refl.
    unfold iword at 1. cbn [exec]. rewrite Hc. apply orelse_some.
    apply star_iword; [exact Hw | rewrite len_app; simpl; lia |].
    rewrite !Ascii.eqb_refl.
    replace (S (S (3 + strings.len w))) with (5 + strings.len w)%nat by lia.
    fold cap1. fold K2. rewrite He. reflexivity.
  - rewrite Hlen. apply list_lookup_insert_eq.
    rewrite length_insert, Hl, L1. lia.
  - rewrite list_lookup_insert_ne by lia. rewrite list_lookup_insert_ne by lia.
    rewrite Hi by lia. unfold cap1.
    rewrite list_lookup_insert_eq by (rewrite L0; lia).
    do 3 f_equal; simpl; lia.
  - rewrite list_lookup_insert_ne by lia.
    rewrite list_lookup_insert_eq by (rewrite Hl, L1; lia).
    rewrite Hlen. do 3 f_equal; simpl; lia.
Qed.

Lemma lookup_map {A B : Type} (f : A -> B) (l : list A) (i : nat) :
  map f l !! i = option_map f (l !! i).
Proof.
  revert i. induction l as [|x l IH]; intros [|i]; simpl; auto.
Qed.

(** The name and the default literal that the callback of the fourth pass
    reads back from a placeholder span *)
Lemma FindStringSubmatch_placeholder (k D : string) :
  identifier k = true -> default_literal D = true ->
  exists sm,
    FindStringSubmatch reParam (placeholder k D) = sm
    /\ sm !! 0%nat = Some (placeholder k D)
    /\ sm !! 1%nat = Some k
    /\ sm !! 2%nat = Some D.
Proof.
  intros Hk HD.
  destruct (matchAt_placeholder k D Hk HD) as (a & Hm & A0 & A1 & A2).
  exists (submatches 0 (placeholder k D) a). unfold FindStringSubmatch.
  rewrite (search_here _ _ _ _ Hm). split; [reflexivity|].
  unfold submatches. rewrite !lookup_map, A0, A1, A2. cbn [option_map].
  assert (E : placeholder k D = ("/*" ++ k ++ "*/") ++ D).
  { unfold placeholder. cbn [String.append]. rewrite app_assoc. reflexivity. }
  assert (L : strings.len ("/*" ++ k ++ "*/") = (4 + strings.len k)%nat).
  { cbn [String.append strings.len String.length]. fold (strings.len (k ++ "*/")).
    rewrite len_app. simpl. lia. }
  unfold slice. split; [|split]; f_equal.
  - rewrite Nat.sub_0_r. cbn [strings.drop].
    rewrite <- (app_nil_r (placeholder k D)) at 2. apply take_app_len.
  - replace (2 + strings.len k - 2)%nat with (strings.len k) by lia.
    unfold placeholder. cbn [String.append strings.drop Nat.sub].
    apply take_app_len.
  - rewrite Nat.sub_0_r. rewrite E at 2. rewrite <- L, drop_app_len.
    rewrite E, len_app.
    replace (strings.len ("/*" ++ k ++ "*/") + strings.len D
             - strings.len ("/*" ++ k ++ "*/"))%nat
      with (strings.len D) by lia.
    rewrite <- (app_nil_r D) at 2. apply take_app_len.
Qed.

Lemma param_placeholder (ps : params) (k D : string) :
  identifier k = true -> default_literal D = true ->
  get ps k = VNil ->
  param ps (placeholder k D) = Ok D.
Proof.
  intros Hk HD Hg.
  destruct (FindStringSubmatch_placeholder k D Hk HD) as (sm & E & _ & S1 & S2).
  unfold param, index. rewrite E, S1, S2. cbn [bind].
  unfold get in Hg. destruct (ps !! k) as [v|]; [|reflexivity].
  subst v. reflexivity.
Qed.

(** The template [tpl_select_k] has no block, and one placeholder. *)
Lemma select_k_blocks (ps : params) :
  ReplaceAllStringFunc reOptBlock tpl_select_k (optBlock ps) = Ok tpl_select_k
  /\ ReplaceAllStringFunc reIfBlock tpl_select_k (ifBlock ps) = Ok tpl_select_k
  /\ ReplaceAllStringFunc reBeginEnd tpl_select_k beginEnd = Ok tpl_select_k.
Proof. repeat split; vm_compute; reflexivity. Qed.

Lemma select_k_param (repl : string -> result string) :
  repl (placeholder "k" "'d'") = Ok "'d'" ->
  ReplaceAllStringFunc reParam tpl_select_k repl
  = Ok "SELECT * FROM t WHERE c = 'd'".
Proof. intros Hr. vm_compute. vm_compute in Hr. rewrite Hr. reflexivity. Qed.

Lemma select_k_render (ps : params) :
  param ps (placeholder "k" "'d'") = Ok "'d'" ->
  renderNyanSQL tpl_select_k ps = Ok "SELECT * FROM t WHERE c = 'd'".
Proof.
  intros Hr. unfold renderNyanSQL.
  destruct (select_k_blocks ps) as (E1 & E2 & E3).
  rewrite E1. cbn [bind]. rewrite E2. cbn [bind]. rewrite E3. cbn [bind].
  rewrite (select_k_param _ Hr). reflexivity.
Qed.

(** Claim C5: the callback of the fourth pass gives back the default
    literal [D] of every placeholder span [/*k*/D] whose parameter [k] is
    missing or Null, for every name of ASCII word bytes and every default
    literal that [reParam] reads; and [tpl_select_k], which holds
    [/*k*/'d'], renders with ['d'], quotes included, against every
    parameter set in which [k] is missing or Null. *)
Theorem default_fallback (ps : params) :
  (forall k D : string,
     identifier k = true -> default_literal D = true ->
     get ps k = VNil ->
     param ps (placeholder k D) = Ok D)
  /\ (get ps "k" = VNil ->
      renderNyanSQL tpl_select_k ps = Ok "SELECT * FROM t WHERE c = 'd'").
Proof.
  split; [intros k D; apply param_placeholder|].
  intros Hg. apply select_k_render.
  apply param_placeholder; [reflexivity | reflexivity | exact Hg].
Qed.

Lemma default_fallback_witness :
  param (<[ "k" := VNil ]> ∅) "/*k*/'d'" = Ok "'d'"
  /\ renderNyanSQL tpl_select_k ∅ = Ok "SELECT * FROM t WHERE c = 'd'".
Proof.
  split.
  - apply (proj1 (default_fallback (<[ "k" := VNil ]> ∅)) "k" "'d'");
      reflexivity.
  - apply (proj2 (default_fallback ∅)). reflexivity.
Defined.

(** ** Quote style *)

Lemma ReplaceAll_doubled (q : ascii) (fuel : nat) :
  forall s, (strings.len s <= fuel)%nat ->
  strings.ReplaceAll_from fuel s (String q "") (String q (String q ""))
  = doubled q s.
Proof.
  induction fuel as [|fuel IH]; intros s Hlen.
  - destruct s; [reflexivity | simpl in Hlen; lia].
  - destruct s as [|c s]; [reflexivity|].
    cbn [strings.ReplaceAll_from strings.HasPrefix doubled].
    rewrite andb_true_r.
    destruct (Ascii.eqb c q) eqn:E.
    + cbn [strings.len String.length strings.drop String.append].
      rewrite IH by (simpl in Hlen; lia). reflexivity.
    + rewrite IH by (simpl in Hlen; lia). reflexivity.
Qed.

Lemma quoteByDefault_quoted (D v : string) :
  (quoted dquote D = true ->
   quoteByDefault D v = DQ ++ doubled dquote v ++ DQ)
  /\ (quoted squote D = true ->
      quoteByDefault D v = SQ ++ doubled squote v ++ SQ).
Proof.
  unfold quoteByDefault, strings.ReplaceAll.
  split; intros H; (destruct D as [|c s]; [discriminate|]);
    cbn [quoted] in H; apply andb_true_iff in H as [H _];
    apply Ascii.eqb_eq in H; subst c.
  - change (strings.HasPrefix (String dquote s) DQ) with true. cbv iota.
    change (DQ ++ DQ) with (String dquote (String dquote "")). unfold DQ.
    rewrite ReplaceAll_doubled by lia. reflexivity.
  - change (strings.HasPrefix (String squote s) DQ) with false. cbv iota.
    change (SQ ++ SQ) with (String squote (String squote "")). unfold SQ.
    rewrite ReplaceAll_doubled by lia. reflexivity.
Qed.

Lemma param_string (ps : params) (k D v : string) :
  identifier k = true -> default_literal D = true ->
  ps !! k = Some (VString v) ->
  param ps (placeholder k D) = Ok (quoteByDefault D v).
Proof.
  intros Hk HD Hv.
  destruct (FindStringSubmatch_placeholder k D Hk HD) as (sm & E & _ & S1 & S2).
  unfold param, index. rewrite E, S1, S2. cbn [bind]. rewrite Hv. reflexivity.
Qed.

(** C4: for a placeholder whose default literal is quoted and whose
    parameter is a String, the callback of the fourth pass puts the value
    in the quote character of the default and writes that character twice
    wherever the value holds it; [/*k*/DQ d DQ] with the value [a'b]
    renders [DQ a'b DQ], and [/*k*/'d'] renders ['a''b']. *)
Theorem quote_style_preserved :
  (forall (ps : params) (k D v : string),
     identifier k = true -> ps !! k = Some (VString v) ->
     (quoted dquote D = true ->
      param ps (placeholder k D) = Ok (DQ ++ doubled dquote v ++ DQ))
     /\ (quoted squote D = true ->
         param ps (placeholder k D) = Ok (SQ ++ doubled squote v ++ SQ)))
  /\ renderNyanSQL tpl_k_dquoted {[ "k" := VString "a'b" ]}
     = Ok (DQ ++ "a'b" ++ DQ)
  /\ renderNyanSQL tpl_k_squoted {[ "k" := VString "a'b" ]}
     = Ok "'a''b'".
Proof.
  split; [|split; vm_compute; reflexivity].
  intros ps k D v Hk Hv.
  split; intros HD.
  - rewrite (param_string ps k D v Hk) by
      (exact Hv || (unfold default_literal; rewrite HD; reflexivity)).
    f_equal. apply (proj1 (quoteByDefault_quoted D v) HD).
  - rewrite (param_string ps k D v Hk) by
      (exact Hv || (unfold default_literal; rewrite HD;
                    destruct (quoted dquote D); reflexivity)).
    f_equal. apply (proj2 (quoteByDefault_quoted D v) HD).
Qed.

Lemma quote_style_preserved_witness :
  param {[ "k" := VString "a'b" ]} (placeholder "k" "'d'") = Ok "'a''b'"
  /\ param {[ "k" := VString "a'b" ]} (placeholder "k" (DQ ++ "d" ++ DQ))
     = Ok (DQ ++ "a'b" ++ DQ).
Proof.
  split.
  - apply (proj1 quote_style_preserved {[ "k" := VString "a'b" ]}
             "k" "'d'" "a'b"); vm_compute; reflexivity.
  - apply (proj1 quote_style_preserved {[ "k" := VString "a'b" ]}
             "k" (DQ ++ "d" ++ DQ) "a'b"); vm_compute; reflexivity.
Defined.

(** ** What the renderer reads of the parameter set *)

Lemma replaceAll_ext (r : regex) (f g : string -> result string) :
  (forall m, f m = g m) ->
  forall fuel pos rest pending lastEnd,
    replaceAll fuel r f pos rest pending lastEnd
    = replaceAll fuel r g pos rest pending lastEnd.
Proof.
  intros Hfg. induction fuel as [|fuel IH]; intros pos rest pending lastEnd;
    [reflexivity|].
  cbn [replaceAll].
  destruct (search r pos rest) as [a|]; [|reflexivity].
  destruct (bounds a 0) as [[lo hi]|]; [|reflexivity].
  rewrite Hfg.
  destruct (if (lastEnd <? hi)%nat || (lo =? 0)%nat
            then g (slice pos rest lo hi) else Ok "") as [new|p];
    [|reflexivity].
  cbn [bind].
  destruct (pos <? hi)%nat.
  - rewrite IH. reflexivity.
  - destruct rest as [|c rest']; [reflexivity|]. rewrite IH. reflexivity.
Qed.

Lemma ReplaceAllStringFunc_ext (r : regex) (src : string)
    (f g : string -> result string) :
  (forall m, f m = g m) ->
  ReplaceAllStringFunc r src f = ReplaceAllStringFunc r src g.
Proof. intros H. apply replaceAll_ext. exact H. Qed.

Lemma evalCondFlexible_get (cond : string) (ps ps' : params) :
  (forall k, get ps k = get ps' k) ->
  evalCondFlexible cond ps = evalCondFlexible cond ps'.
Proof.
  intros H. unfold evalCondFlexible.
  rewrite (H (strings.TrimSpace cond)).
  destruct (negb _); [reflexivity|].
  destruct (if strings.Contains _ "==" then _ else _) as [op|]; [|reflexivity].
  destruct (strings.SplitN2 _ _) as [|l [|r [|? ?]]]; try reflexivity.
  rewrite (H (strings.TrimSpace l)). reflexivity.
Qed.

Lemma param_get (ps ps' : params) (m : string) :
  (forall k, get ps k = get ps' k) -> param ps m = param ps' m.
Proof.
  intros H. unfold param.
  destruct (index _ 1) as [name|p]; [|reflexivity]. cbn [bind].
  destruct (index _ 2) as [defWhole|p]; [|reflexivity]. cbn [bind].
  specialize (H name). unfold get in H.
  destruct (ps !! name) as [v|], (ps' !! name) as [v'|]; subst;
    try reflexivity.
Qed.

(** A parameter that is Null is, for the renderer, a parameter that is
    missing: the rendered text is the same for two parameter sets that
    differ only in that. *)
Theorem render_null_is_missing (tpl : string) (ps ps' : params) :
  (forall k : string, get ps k = get ps' k) ->
  renderNyanSQL tpl ps = renderNyanSQL tpl ps'.
Proof.
  intros H. unfold renderNyanSQL.
  rewrite (ReplaceAllStringFunc_ext reOptBlock tpl (optBlock ps) (optBlock ps'))
    by (intros m; unfold optBlock; destruct (_ <? _)%nat; [reflexivity|];
        destruct (index _ 1); [|reflexivity]; cbn [bind];
        destruct (index _ 2); [|reflexivity]; cbn [bind];
        rewrite H; reflexivity).
  destruct (ReplaceAllStringFunc reOptBlock tpl (optBlock ps')) as [t1|p];
    [|reflexivity].
  cbn [bind].
  rewrite (ReplaceAllStringFunc_ext reIfBlock t1 (ifBlock ps) (ifBlock ps'))
    by (intros m; unfold ifBlock; destruct (_ <? _)%nat; [reflexivity|];
        destruct (index _ 1); [|reflexivity]; cbn [bind];
        destruct (index _ 2); [|reflexivity]; cbn [bind];
        rewrite (evalCondFlexible_get _ ps ps' H); reflexivity).
  destruct (ReplaceAllStringFunc reIfBlock t1 (ifBlock ps')) as [t2|p];
    [|reflexivity].
  cbn [bind].
  destruct (ReplaceAllStringFunc reBeginEnd t2 beginEnd) as [t3|p];
    [|reflexivity].
  cbn [bind].
  rewrite (ReplaceAllStringFunc_ext reParam t3 (param ps) (param ps'))
    by (intros m; apply param_get; exact H).
  reflexivity.
Qed.

Lemma render_null_is_missing_witness :
  renderNyanSQL tpl_select_k {[ "k" := VNil ]} = renderNyanSQL tpl_select_k ∅.
Proof.
  apply render_null_is_missing.
  intros k. unfold get. destruct (decide (k = "k")) as [-> | Hne].
  - rewrite lookup_singleton_eq, lookup_empty. reflexivity.
  - rewrite lookup_singleton_ne, lookup_empty by congruence. reflexivity.
Defined.

(** ** The rendered text is trimmed *)

Lemma renderNyanSQL_last_pass (tpl : string) (ps : params) (out : string) :
  renderNyanSQL tpl ps = Ok out ->
  exists t, out = strings.TrimSpace (normalizeWhitespace t).
Proof.
  unfold renderNyanSQL. intros H.
  destruct (ReplaceAllStringFunc reOptBlock tpl (optBlock ps)) as [t1|p];
    [|discriminate]. cbn [bind] in H.
  destruct (ReplaceAllStringFunc reIfBlock t1 (ifBlock ps)) as [t2|p];
    [|discriminate]. cbn [bind] in H.
  destruct (ReplaceAllStringFunc reBeginEnd t2 beginEnd) as [t3|p];
    [|discriminate]. cbn [bind] in H.
  destruct (ReplaceAllStringFunc reParam t3 (param ps)) as [t4|p];
    [|discriminate]. cbn [bind] in H.
  injection H as <-. eauto.
Qed.

(** A text that the renderer gives has no white space at its ends:
    trimming it once more changes nothing. *)
Theorem render_trimmed (tpl : string) (ps : params) (out : string) :
  renderNyanSQL tpl ps = Ok out -> strings.TrimSpace out = out.
Proof.
  intros H. destruct (renderNyanSQL_last_pass tpl ps out H) as [t ->].
  apply TrimSpace_idem.
Qed.

Lemma render_trimmed_witness :
  strings.TrimSpace "SELECT * FROM t WHERE c = 'd'" = "SELECT * FROM t WHERE c = 'd'".
Proof.
  apply (render_trimmed tpl_select_k ∅). vm_compute. reflexivity.
Defined.

(** ** The matcher finds a match where the pattern has one *)

Lemma orelse_not_none {A} (x y : option A) :
  x <> None \/ y <> None -> orelse x y <> None.
Proof. destruct x; simpl; [intros _; discriminate | intros [H|H]; auto]. Qed.

Lemma star_loop_complete {A : Type} (g : bool) (r1 : regex)
    (Hr : forall w, lang r1 w ->
          forall pos rest cap (k : nat -> string -> caps -> option A),
            (forall cap', k (pos + strings.len w)%nat rest cap' <> None) ->
            exec r1 pos (w ++ rest) cap k <> None) :
  forall rs w, lang rs w -> rs = Star g r1 ->
  forall fuel pos rest cap (k : nat -> string -> caps -> option A),
    (strings.len w <= fuel)%nat ->
    (forall cap', k (pos + strings.len w)%nat rest cap' <> None) ->
    star_loop g (exec r1) k fuel pos (w ++ rest) cap <> None.
Proof.
  intros rs w Hl. induction Hl as [ | | | | |g' r'|g' r' w1 w2 H1 _ H2 IH2| | | ];
    intros E; try discriminate E; injection E as -> ->;
    intros fuel pos rest cap k Hfuel Hk.
  - cbn [String.append strings.len String.length] in *.
    rewrite Nat.add_0_r in Hk.
    destruct fuel; cbn [star_loop]; [apply Hk|].
    destruct g; apply orelse_not_none; [right | left]; apply Hk.
  - destruct w1 as [|c w1].
    + cbn [String.append] in *. apply (IH2 eq_refl); assumption.
    + rewrite len_app in Hfuel, Hk.
      destruct fuel as [|fuel]; [simpl in Hfuel; lia|].
      cbn [star_loop].
      assert (Hagain :
        exec r1 pos ((String c w1 ++ w2) ++ rest) cap
          (fun pos1 rest1 cap1 =>
             if (pos <? pos1)%nat
             then star_loop g (exec r1) k fuel pos1 rest1 cap1 else None)
        <> None).
      { rewrite app_assoc. apply (Hr _ H1). intros cap'.
        assert (Hlt : (pos <? pos + strings.len (String c w1))%nat = true)
          by (apply Nat.ltb_lt; simpl; lia).
        rewrite Hlt. apply (IH2 eq_refl); [simpl in Hfuel; lia|].
        intros cap''. rewrite <- Nat.add_assoc. apply Hk. }
      destruct g; apply orelse_not_none; [left | right]; exact Hagain.
Qed.

Lemma exec_complete {A : Type} (r : regex) :
  anchor_free r = true ->
  forall w, lang r w ->
  forall pos rest cap (k : nat -> string -> caps -> option A),
    (forall cap', k (pos + strings.len w)%nat rest cap' <> None) ->
    exec r pos (w ++ rest) cap k <> None.
Proof.
  induction r as [|p|r1 IH1 r2 IH2|r1 IH1 r2 IH2|g r1 IH1|i r1 IH1| |];
    intros Haf w Hl pos rest cap k Hk; cbn [anchor_free] in Haf;
    try discriminate Haf.
  - inversion Hl; subst. cbn [exec String.append].
    specialize (Hk cap). simpl in Hk. rewrite Nat.add_0_r in Hk. exact Hk.
  - inversion Hl as [|p' c Hc| | | | | | | |]; subst. cbn [exec String.append].
    rewrite Hc. specialize (Hk cap). simpl in Hk.
    rewrite Nat.add_1_r in Hk. exact Hk.
  - apply andb_true_iff in Haf as [A1 A2].
    inversion Hl as [| |r1' r2' w1 w2 L1 L2| | | | | | |]; subst.
    cbn [exec]. rewrite app_assoc. apply (IH1 A1 _ L1).
    intros cap'. apply (IH2 A2 _ L2). intros cap''.
    rewrite <- Nat.add_assoc, <- len_app. apply Hk.
  - apply andb_true_iff in Haf as [A1 A2]. cbn [exec]. apply orelse_not_none.
    inversion Hl; subst; [left; apply (IH1 A1) | right; apply (IH2 A2)];
      assumption.
  - cbn [exec].
    apply (star_loop_complete g r1 (IH1 Haf) (Star g r1) w Hl eq_refl);
      [rewrite len_app; lia | exact Hk].
  - inversion Hl; subst. cbn [exec]. apply (IH1 Haf); [assumption|].
    intros cap'. apply Hk.
Qed.

Lemma matchAt_complete (r : regex) (w rest : string) (pos : nat) :
  anchor_free r = true -> lang r w -> matchAt r pos (w ++ rest) <> None.
Proof.
  intros Haf Hl. unfold matchAt. apply (exec_complete r Haf w Hl).
  intros cap'. discriminate.
Qed.

(** Matched again on its own, the text of a match of a pattern without
    anchors gives all the texts of a match. *)
Lemma FindStringSubmatch_length (r : regex) (m : string) :
  anchor_free r = true -> lang r m ->
  length (FindStringSubmatch r m) = S (ngroups r).
Proof.
  intros Haf Hl. unfold FindStringSubmatch.
  pose proof (matchAt_complete r m "" 0 Haf Hl) as Hm.
  rewrite app_nil_r in Hm.
  destruct (search r 0 m) as [a|] eqn:Es.
  - apply (search_match_of _ _ _ _ Es).
  - exfalso. destruct m; cbn [search] in Es;
      destruct (matchAt r 0 _); congruence.
Qed.

Lemma group_lang_0 (r : regex) (w : string) :
  no_group0 r = true -> group_lang r 0 w -> False.
Proof.
  induction r as [|p|r1 IH1 r2 IH2|r1 IH1 r2 IH2|g r1 IH1|i r1 IH1| |];
    cbn [no_group0 group_lang]; intros Hn Hg; try exact Hg.
  - apply andb_true_iff in Hn as [N1 N2]. destruct Hg; auto.
  - apply andb_true_iff in Hn as [N1 N2]. destruct Hg; auto.
  - auto.
  - apply andb_true_iff in Hn as [N1 N2]. destruct Hg as [[<- _]|Hg]; auto.
    discriminate N1.
Qed.

(** The text that a replacement callback gets is in the language of the
    pattern. *)
Lemma search_lang (r : regex) (pos : nat) (rest : string) (a : caps) lo hi :
  no_group0 r = true ->
  search r pos rest = Some a -> bounds a 0 = Some (lo, hi) ->
  lang r (slice pos rest lo hi).
Proof.
  intros Hn Hs Hb.
  destruct (search_sound r pos rest pos rest a (at_pos_refl pos rest) Hs)
    as [Hc _].
  unfold bounds in Hb.
  destruct (a !! 0%nat) as [[b|]|] eqn:Ea; try discriminate.
  injection Hb as ->.
  destruct (Hc _ _ _ Ea) as [[_ H]|H]; [exact H|].
  exfalso. exact (group_lang_0 r _ Hn H).
Qed.

Lemma replaceAll_panic (r : regex) (repl : string -> result string)
    (Q : panic -> Prop) :
  no_group0 r = true ->
  (forall m p, lang r m -> repl m = Panic p -> Q p) ->
  forall fuel pos rest pending lastEnd p,
    replaceAll fuel r repl pos rest pending lastEnd = Panic p -> Q p.
Proof.
  intros Hn Hrepl. induction fuel as [|fuel IH];
    intros pos rest pending lastEnd p; cbn [replaceAll]; [discriminate|].
  destruct (search r pos rest) as [a|] eqn:Es; [|discriminate].
  destruct (bounds a 0) as [[lo hi]|] eqn:Eb; [|discriminate].
  pose proof (search_lang r pos rest a lo hi Hn Es Eb) as Hl.
  destruct ((lastEnd <? hi)%nat || (lo =? 0)%nat).
  - destruct (repl (slice pos rest lo hi)) as [new|q] eqn:Er; cbn [bind].
    + destruct (pos <? hi)%nat.
      * destruct (replaceAll fuel r repl hi _ "" hi) as [tail|q] eqn:Et;
          cbn [bind]; [discriminate|].
        intros [= <-]. exact (IH _ _ _ _ _ Et).
      * destruct rest as [|c rest']; [discriminate|].
        destruct (replaceAll fuel r repl (S pos) rest' _ hi) as [tail|q] eqn:Et;
          cbn [bind]; [discriminate|].
        intros [= <-]. exact (IH _ _ _ _ _ Et).
    + intros [= <-]. exact (Hrepl _ _ Hl Er).
  - cbn [bind]. destruct (pos <? hi)%nat.
    + destruct (replaceAll fuel r repl hi _ "" hi) as [tail|q] eqn:Et;
        cbn [bind]; [discriminate|].
      intros [= <-]. exact (IH _ _ _ _ _ Et).
    + destruct rest as [|c rest']; [discriminate|].
      destruct (replaceAll fuel r repl (S pos) rest' _ hi) as [tail|q] eqn:Et;
        cbn [bind]; [discriminate|].
      intros [= <-]. exact (IH _ _ _ _ _ Et).
Qed.

Lemma index_in_range (sm : list string) (i : nat) :
  (i < length sm)%nat -> exists s, index sm i = Ok s.
Proof.
  intros H. unfold index. destruct (sm !! i) as [s|] eqn:E; [eauto|].
  apply lookup_ge_None in E. lia.
Qed.

Lemma evalCondFlexible_panic (cond : string) (ps : params) (p : panic) :
  evalCondFlexible cond ps = Panic p -> p = SliceBoundsOutOfRange.
Proof.
  destruct (comparison cond) as [[[op lhs] rhs]|] eqn:Hc.
  - rewrite (evalCond_comparison _ ps _ _ _ Hc).
    destruct (rhsValue rhs) as [[v|]|q] eqn:ER; cbn [bind].
    + destruct op; discriminate.
    + discriminate.
    + intros [= <-]. apply (rhsValue_panic rhs q). exact ER.
  - rewrite (evalCond_no_comparison _ ps Hc). discriminate.
Qed.

Lemma optBlock_no_panic (ps : params) (m : string) (p : panic) :
  optBlock ps m = Panic p -> False.
Proof.
  unfold optBlock. destruct (_ <? 3)%nat eqn:E; [discriminate|].
  apply Nat.ltb_ge in E.
  destruct (index_in_range (FindStringSubmatch reOptBlock m) 1) as [k ->]; [lia|].
  destruct (index_in_range (FindStringSubmatch reOptBlock m) 2) as [b ->]; [lia|].
  cbn [bind]. destruct (isTruthy _); discriminate.
Qed.

Lemma ifBlock_panic (ps : params) (m : string) (p : panic) :
  ifBlock ps m = Panic p -> p = SliceBoundsOutOfRange.
Proof.
  unfold ifBlock. destruct (_ <? 3)%nat eqn:E; [discriminate|].
  apply Nat.ltb_ge in E.
  destruct (index_in_range (FindStringSubmatch reIfBlock m) 1) as [k ->]; [lia|].
  destruct (index_in_range (FindStringSubmatch reIfBlock m) 2) as [b ->]; [lia|].
  cbn [bind].
  destruct (evalCondFlexible _ ps) as [v|q] eqn:Ev; cbn [bind].
  - destruct v; discriminate.
  - intros [= <-]. exact (evalCondFlexible_panic _ _ _ Ev).
Qed.

Lemma beginEnd_no_panic (m : string) (p : panic) :
  beginEnd m = Panic p -> False.
Proof.
  unfold beginEnd. destruct (_ <? 2)%nat eqn:E; [discriminate|].
  apply Nat.ltb_ge in E.
  destruct (index_in_range (FindStringSubmatch reBeginEnd m) 1) as [k ->]; [lia|].
  cbn [bind]. destruct (_ || _); discriminate.
Qed.

Lemma param_no_panic (ps : params) (m : string) (p : panic) :
  lang reParam m -> param ps m = Panic p -> False.
Proof.
  intros Hl. unfold param.
  pose proof (FindStringSubmatch_length reParam m eq_refl Hl) as Hn.
  change (ngroups reParam) with 4%nat in Hn.
  destruct (index_in_range (FindStringSubmatch reParam m) 1) as [k ->]; [lia|].
  destruct (index_in_range (FindStringSubmatch reParam m) 2) as [d ->]; [lia|].
  cbn [bind].
  destruct (ps !! k) as [[|b|f|n|s|o]|]; try discriminate.
  - destruct (strconv.feq _ _); discriminate.
  - destruct (strconv.ParseInt _); [discriminate|].
    destruct (strconv.ParseFloat _); discriminate.
Qed.

(** The renderer can only panic in an if-block, on the slice that takes
    the quotes off a literal: no callback indexes the texts of a match out
    of range, although the callback of the fourth pass does not look at
    their number. *)
Theorem render_panics_only_on_slice (tpl : string) (ps : params) (p : panic) :
  renderNyanSQL tpl ps = Panic p -> p = SliceBoundsOutOfRange.
Proof.
  unfold renderNyanSQL, ReplaceAllStringFunc.
  destruct (replaceAll _ reOptBlock _ 0 tpl "" 0) as [t1|q] eqn:E1; cbn [bind].
  2: { intros _. exfalso.
       apply (replaceAll_panic reOptBlock (optBlock ps) (fun _ => False) eq_refl)
         in E1; [exact E1|].
       intros m p' _. apply optBlock_no_panic. }
  destruct (replaceAll _ reIfBlock _ 0 t1 "" 0) as [t2|q] eqn:E2; cbn [bind].
  2: { intros [= <-].
       apply (replaceAll_panic reIfBlock (ifBlock ps)
                (fun q => q = SliceBoundsOutOfRange) eq_refl) in E2; [exact E2|].
       intros m p' _. apply ifBlock_panic. }
  destruct (replaceAll _ reBeginEnd _ 0 t2 "" 0) as [t3|q] eqn:E3; cbn [bind].
  2: { intros _. exfalso.
       apply (replaceAll_panic reBeginEnd beginEnd (fun _ => False) eq_refl)
         in E3; [exact E3|].
       intros m p' _. apply beginEnd_no_panic. }
  destruct (replaceAll _ reParam _ 0 t3 "" 0) as [t4|q] eqn:E4; cbn [bind].
  2: { intros _. exfalso.
       apply (replaceAll_panic reParam (param ps) (fun _ => False) eq_refl)
         in E4; [exact E4|].
       intros m p'. apply param_no_panic. }
  discriminate.
Qed.

Lemma render_panics_only_on_slice_witness :
  exists p, renderNyanSQL "/*IF a == '*/x/*END*/" ∅ = Panic p
            /\ p = SliceBoundsOutOfRange.
Proof.
  assert (H : renderNyanSQL "/*IF a == '*/x/*END*/" ∅
              = Panic SliceBoundsOutOfRange) by (vm_compute; reflexivity).
  exists SliceBoundsOutOfRange. split; [exact H|].
  exact (render_panics_only_on_slice _ _ _ H).
Defined.

(** ** Templates without directives *)

Lemma HasPrefix_app (a b p : string) :
  strings.HasPrefix a p = true -> strings.HasPrefix (a ++ b) p = true.
Proof.
  revert a. induction p as [|c p IH]; intros a; [reflexivity|].
  destruct a as [|d a]; cbn [strings.HasPrefix String.append]; [discriminate|].
  intros H. apply andb_true_iff in H as [-> H]. apply IH. exact H.
Qed.

Lemma HasPrefix_take (n : nat) (s p : string) :
  strings.HasPrefix (strings.take n s) p = true -> strings.HasPrefix s p = true.
Proof.
  revert n s. induction p as [|c p IH]; intros n s; [reflexivity|].
  destruct n, s; cbn [strings.take strings.HasPrefix]; try discriminate.
  intros H. apply andb_true_iff in H as [-> H]. apply (IH n). exact H.
Qed.

Lemma Contains_drop (n : nat) (s p : string) :
  p <> "" ->
  strings.HasPrefix (strings.drop n s) p = true -> strings.Contains s p = true.
Proof.
  intros Hp. unfold strings.Contains. revert s.
  induction n as [|n IH]; intros s H.
  - cbn [strings.drop] in H. destruct s; cbn [strings.Index]; rewrite H; reflexivity.
  - destruct s as [|c s]; cbn [strings.drop] in H.
    + destruct p; [congruence | discriminate H].
    + cbn [strings.Index]. destruct (strings.HasPrefix (String c s) p); [reflexivity|].
      specialize (IH s H). destruct (strings.Index s p); [reflexivity | discriminate].
Qed.

Lemma lang_chr_inv (a : ascii) (w : string) : lang (chr a) w -> w = String a "".
Proof.
  unfold chr. intros H. inversion H as [|? c E| | | | | | | |]; subst.
  apply Ascii.eqb_eq in E. subst. reflexivity.
Qed.

Lemma lang_seq_inv (r1 r2 : regex) (w : string) :
  lang (Seq r1 r2) w -> exists w1 w2, w = w1 ++ w2 /\ lang r1 w1 /\ lang r2 w2.
Proof. intros H. inversion H; subst. eauto. Qed.

Lemma lang_directive (r : regex) (w : string) :
  r = reOptBlock \/ r = reIfBlock \/ r = reBeginEnd \/ r = reParam ->
  lang r w -> strings.HasPrefix w "/*" = true.
Proof.
  intros [-> | [-> | [-> | ->]]] H.
  - apply lang_seq_inv in H as (w1 & w2 & -> & H & _).
    apply lang_seq_inv in H as (v1 & v2 & -> & H & _).
    change (lit "/*?") with (Seq (chr "/") (Seq (chr "*") (chr "?"))) in H.
    apply lang_seq_inv in H as (a & b & -> & Ha & H).
    apply lang_seq_inv in H as (c & d & -> & Hc & _).
    apply lang_chr_inv in Ha, Hc. subst. reflexivity.
  - apply lang_seq_inv in H as (w1 & w2 & -> & H & _).
    apply lang_seq_inv in H as (v1 & v2 & -> & H & _).
    change (lit "/*") with (Seq (chr "/") (chr "*")) in H.
    apply lang_seq_inv in H as (a & b & -> & Ha & Hb).
    apply lang_chr_inv in Ha, Hb. subst. reflexivity.
  - apply lang_seq_inv in H as (v1 & v2 & -> & H & _).
    change (lit "/*") with (Seq (chr "/") (chr "*")) in H.
    apply lang_seq_inv in H as (a & b & -> & Ha & Hb).
    apply lang_chr_inv in Ha, Hb. subst. reflexivity.
  - apply lang_seq_inv in H as (v1 & v2 & -> & H & _).
    change (lit "/*") with (Seq (chr "/") (chr "*")) in H.
    apply lang_seq_inv in H as (a & b & -> & Ha & Hb).
    apply lang_chr_inv in Ha, Hb. subst. reflexivity.
Qed.

Lemma replaceAll_no_opener (r : regex) (repl : string -> result string) :
  r = reOptBlock \/ r = reIfBlock \/ r = reBeginEnd \/ r = reParam ->
  forall fuel pos rest pending lastEnd,
    strings.Contains rest "/*" = false ->
    replaceAll fuel r repl pos rest pending lastEnd = Ok (pending ++ rest).
Proof.
  intros Hr fuel pos rest pending lastEnd Hc.
  destruct fuel as [|fuel]; [reflexivity|]. cbn [replaceAll].
  destruct (search r pos rest) as [a|] eqn:Es; [|reflexivity].
  destruct (bounds a 0) as [[lo hi]|] eqn:Eb; [|reflexivity].
  exfalso.
  assert (Hn : no_group0 r = true)
    by (destruct Hr as [-> | [-> | [-> | ->]]]; reflexivity).
  pose proof (lang_directive r _ Hr (search_lang r pos rest a lo hi Hn Es Eb)) as Hp.
  unfold slice in Hp. apply HasPrefix_take in Hp.
  apply Contains_drop in Hp; [congruence | discriminate].
Qed.

Lemma renderNyanSQL_no_opener (tpl : string) (ps : params) :
  strings.Contains tpl "/*" = false ->
  renderNyanSQL tpl ps = Ok (strings.TrimSpace (normalizeWhitespace tpl)).
Proof.
  intros H. unfold renderNyanSQL, ReplaceAllStringFunc.
  rewrite (replaceAll_no_opener reOptBlock) by auto. cbn [bind String.append].
  rewrite (replaceAll_no_opener reIfBlock) by auto. cbn [bind String.append].
  rewrite (replaceAll_no_opener reBeginEnd) by auto. cbn [bind String.append].
  rewrite (replaceAll_no_opener reParam) by auto 6. reflexivity.
Qed.

(** A template without a comment opener has no directive: whatever the
    parameters are, it is only normalised for white space. *)
Theorem render_plain_text (tpl : string) (ps : params) :
  strings.Contains tpl "/*" = false ->
  renderNyanSQL tpl ps = Ok (strings.TrimSpace (normalizeWhitespace tpl)).
Proof. exact (renderNyanSQL_no_opener tpl ps). Qed.

Lemma render_plain_text_witness :
  renderNyanSQL "SELECT  1" {[ "k" := VBool true ]} = Ok "SELECT 1".
Proof.
  apply (render_plain_text "SELECT  1"). reflexivity.
Defined.

(** ** Quoting and reading back *)

Lemma ReplaceAll_undouble (q : ascii) (s : string) :
  forall fuel, (strings.len (doubled q s) <= fuel)%nat ->
  strings.ReplaceAll_from fuel (doubled q s) (String q (String q "")) (String q "")
  = s.
Proof.
  induction s as [|c s IH]; intros fuel Hlen.
  - destruct fuel; reflexivity.
  - cbn [doubled] in *. destruct (Ascii.eqb c q) eqn:E.
    + apply Ascii.eqb_eq in E. subst c.
      destruct fuel as [|fuel]; [simpl in Hlen; lia|].
      cbn [strings.ReplaceAll_from strings.HasPrefix].
      rewrite Ascii.eqb_refl. cbn [andb strings.len String.length strings.drop String.append].
      rewrite IH by (simpl in Hlen; lia). reflexivity.
    + destruct fuel as [|fuel]; [simpl in Hlen; lia|].
      cbn [strings.ReplaceAll_from strings.HasPrefix]. rewrite E. cbn [andb].
      rewrite IH by (simpl in Hlen; lia). reflexivity.
Qed.

Lemma HasSuffix_app (s t : string) : strings.HasSuffix (s ++ t) t = true.
Proof.
  unfold strings.HasSuffix. rewrite len_app.
  replace (strings.len s + strings.len t - strings.len t)%nat
    with (strings.len s) by lia.
  rewrite drop_app_len, String.eqb_refl, andb_true_r.
  apply Nat.leb_le. lia.
Qed.

Lemma quoted_parts (q : ascii) (body : string) :
  strings.HasSuffix (String q (body ++ String q "")) (String q "") = true
  /\ substr (String q (body ++ String q "")) 1
       (strings.len (String q (body ++ String q "")) - 1)
     = Ok body.
Proof.
  split.
  - apply (HasSuffix_app (String q body) (String q "")).
  - rewrite substr_ok.
    + cbn [strings.len String.length strings.drop Nat.sub].
      fold (strings.len (body ++ String q "")). rewrite len_app.
      replace (strings.len body + strings.len (String q "") - 0 - 1)%nat
        with (strings.len body) by (simpl; lia).
      rewrite take_app_len. reflexivity.
    + cbn [strings.len String.length].
      fold (strings.len (body ++ String q "")). rewrite len_app. simpl. lia.
Qed.

(** What [quoteByDefault] writes, [extractParamDefaults] reads back: the
    quoted text is a default literal whose value is the String that was
    quoted, whatever quote characters it holds. *)
Theorem quote_then_decode (defWhole s : string) :
  decodeDefault (quoteByDefault defWhole s) = Ok (VString s).
Proof.
  unfold quoteByDefault, strings.ReplaceAll.
  change (DQ ++ DQ) with (String dquote (String dquote "")).
  change (SQ ++ SQ) with (String squote (String squote "")).
  unfold DQ, SQ.
  rewrite !ReplaceAll_doubled by lia.
  destruct (strings.HasPrefix defWhole (String dquote "")).
  - destruct (quoted_parts dquote (doubled dquote s)) as [HS SUB].
    cbn [String.append].
    unfold decodeDefault. unfold DQ, SQ. rewrite HS, SUB.
    cbn [strings.HasPrefix]. rewrite Ascii.eqb_refl.
    replace (Ascii.eqb dquote squote) with false by reflexivity.
    cbn [andb bind]. do 2 f_equal.
    apply ReplaceAll_undouble. lia.
  - destruct (quoted_parts squote (doubled squote s)) as [HS SUB].
    cbn [String.append].
    unfold decodeDefault. unfold DQ, SQ. rewrite HS, SUB.
    cbn [strings.HasPrefix]. rewrite Ascii.eqb_refl.
    cbn [andb bind]. do 2 f_equal.
    apply ReplaceAll_undouble. lia.
Qed.

(** ** The normal form of the comparison *)

Lemma noadj_Contains (P : ascii -> ascii -> bool) (a b : ascii) (t : string) :
  P a b = true -> noadj P t = true ->
  strings.Contains t (String a (String b "")) = false.
Proof.
  intros HP. unfold strings.Contains.
  induction t as [|c t IH]; intros Hn; [reflexivity|].
  cbn [noadj] in Hn. apply andb_true_iff in Hn as [H1 H2].
  specialize (IH H2). cbn [strings.Index strings.HasPrefix].
  destruct t as [|d t'].
  - rewrite andb_false_r. reflexivity.
  - destruct (Ascii.eqb c a) eqn:Ec, (Ascii.eqb d b) eqn:Ed; cbn [andb].
    + apply Ascii.eqb_eq in Ec, Ed. subst.
      cbn [head_is] in H1. rewrite HP in H1. discriminate.
    + destruct (strings.Index (String d t') _); [discriminate | reflexivity].
    + destruct (strings.Index (String d t') _); [discriminate | reflexivity].
    + destruct (strings.Index (String d t') _); [discriminate | reflexivity].
Qed.

(** The normal form of [normalizeForCompare]: it is trimmed, its only
    white space byte of the kind [\s] is the space, and it has no two
    spaces in a row, no space after an opening parenthesis and none before
    a closing parenthesis, a comma or a semicolon. *)
Theorem normal_form_shape (s : string) :
  let t := normalizeForCompare s in
  strings.TrimSpace t = t
  /\ all_bytes (fun c => negb (is_s c) || Ascii.eqb c " ") t = true
  /\ strings.Contains t "  " = false
  /\ strings.Contains t "( " = false
  /\ strings.Contains t " )" = false
  /\ strings.Contains t " ," = false
  /\ strings.Contains t " ;" = false.
Proof.
  intros t. pose proof (normalizeForCompare_tight s) as H. fold t in H.
  unfold tight, single_spaced in H.
  do 4 (apply andb_true_iff in H as [H ?]). apply andb_true_iff in H as [Hb Hw].
  split; [|split; [|split; [|split; [|split; [|split]]]]].
  - unfold t. rewrite normalizeForCompare_tighten. apply TrimSpace_idem.
  - clear -Hb. induction t as [|c t IH]; [reflexivity|].
    cbn [all_bytes] in *. apply andb_true_iff in Hb as [H1 H2].
    rewrite (IH H2), andb_true_r. unfold sp_only in H1.
    destruct (is_s c); [exact H1 | reflexivity].
  - apply (noadj_Contains ws_pair); [reflexivity | exact Hw].
  - apply (noadj_Contains (pair_is "(" " ")); [reflexivity | assumption].
  - apply (noadj_Contains (pair_is " " ")")); [reflexivity | assumption].
  - apply (noadj_Contains (pair_is " " ",")); [reflexivity | assumption].
  - apply (noadj_Contains (pair_is " " ";")); [reflexivity | assumption].
Qed.

(** [diff] reports nothing exactly when [equalSQL] accepts. *)
Theorem diff_empty_iff_equal (expected actual : string) :
  diff expected actual = "" <-> equalSQL expected actual = true.
Proof.
  unfold diff, equalSQL.
  destruct (String.eqb (normalizeForCompare expected) (normalizeForCompare actual)).
  - split; reflexivity.
  - cbn [String.append]. split; discriminate.
Qed.

(** ** What [stripComments] takes out *)

Lemma stripComments_from_fuel (fuel1 : nat) :
  forall fuel2 s,
    (strings.len s <= fuel1)%nat -> (strings.len s <= fuel2)%nat ->
    stripComments_from fuel1 s = stripComments_from fuel2 s.
Proof.
  induction fuel1 as [|fuel1 IH]; intros fuel2 s H1 H2.
  - destruct s; [|simpl in H1; lia]. destruct fuel2; reflexivity.
  - destruct s as [|c s]; [destruct fuel2; reflexivity|].
    destruct fuel2 as [|fuel2]; [simpl in H2; lia|].
    cbn [stripComments_from].
    destruct (strings.HasPrefix (String c s) "/*").
    + destruct (strings.Index _ "*/") as [j|]; [|reflexivity].
      apply IH; rewrite len_drop; simpl in *; lia.
    + destruct (strings.HasPrefix (String c s) "--").
      * destruct (strings.Index _ NL) as [j|]; [|reflexivity].
        apply IH; rewrite len_drop; simpl in *; lia.
      * f_equal. apply IH; simpl in *; lia.
Qed.

Lemma stripComments_from_enough (fuel : nat) (s : string) :
  (strings.len s <= fuel)%nat -> stripComments_from fuel s = stripComments s.
Proof. intros H. apply stripComments_from_fuel; [exact H | lia]. Qed.

Lemma Contains_tail (c : ascii) (s p : string) :
  strings.Contains (String c s) p = false ->
  strings.HasPrefix (String c s) p = false /\ strings.Contains s p = false.
Proof.
  unfold strings.Contains. intros H.
  destruct (strings.Index (String c s) p) eqn:E; [discriminate|].
  apply Index_none_tail in E as [E1 E2]. rewrite E2. auto.
Qed.

(** Text without a comment opener is kept up to a slash that follows
    it. *)
Lemma stripComments_keep_slash (a r : string) :
  strings.Contains a "/*" = false -> strings.Contains a "--" = false ->
  stripComments (a ++ String "/" r) = a ++ stripComments (String "/" r).
Proof.
  induction a as [|c a IH]; intros H1 H2; [reflexivity|].
  apply Contains_tail in H1 as [P1 H1]. apply Contains_tail in H2 as [P2 H2].
  unfold stripComments at 1. cbn [String.append strings.len String.length].
  cbn [stripComments_from].
  assert (Q1 : strings.HasPrefix (String c (a ++ String "/" r)) "/*" = false).
  { destruct a as [|d a]; [|exact P1].
    cbn [String.append strings.HasPrefix]. rewrite andb_false_r. reflexivity. }
  assert (Q2 : strings.HasPrefix (String c (a ++ String "/" r)) "--" = false).
  { destruct a as [|d a]; [|exact P2].
    cbn [String.append strings.HasPrefix]. rewrite andb_false_r. reflexivity. }
  rewrite Q1, Q2.
  rewrite stripComments_from_enough by (unfold strings.len; lia).
  rewrite (IH H1 H2). reflexivity.
Qed.

Lemma Index_closer (b c : string) :
  strings.Contains b "*/" = false ->
  strings.Index (b ++ "*/" ++ c) "*/" = Some (strings.len b).
Proof.
  induction b as [|x b IH]; intros H; [reflexivity|].
  apply Contains_tail in H as [P H].
  cbn [String.append strings.Index].
  assert (Q : strings.HasPrefix (String x (b ++ String "*" (String "/" c))) "*/" = false).
  { destruct b as [|d b]; [|exact P].
    cbn [String.append strings.HasPrefix]. rewrite andb_false_r. reflexivity. }
  cbn [String.append] in IH. rewrite Q, (IH H). reflexivity.
Qed.

Lemma Index_none (s p : string) :
  strings.Contains s p = false -> strings.Index s p = None.
Proof.
  unfold strings.Contains. destruct (strings.Index s p); [discriminate | reflexivity].
Qed.

Lemma stripComments_open_block (r : string) :
  stripComments (String "/" (String "*" r))
  = match strings.Index r "*/" with
    | None => ""
    | Some j => stripComments (strings.drop (j + 2) r)
    end.
Proof.
  unfold stripComments at 1.
  change (stripComments_from (strings.len (String "/" (String "*" r)))
            (String "/" (String "*" r)))
    with (match strings.Index r "*/" with
          | None => ""
          | Some j => stripComments_from (S (strings.len r))
                        (strings.drop (2 + j + 2) (String "/" (String "*" r)))
          end).
  destruct (strings.Index r "*/") as [j|]; [|reflexivity].
  change (strings.drop (2 + j + 2) (String "/" (String "*" r)))
    with (strings.drop (j + 2) r).
  apply stripComments_from_enough. rewrite len_drop. lia.
Qed.

(** A block comment goes with its delimiters and the text on both sides
    stays; a block comment that is not closed takes the rest of the text
    with it. *)
Theorem stripComments_block (a b c : string) :
  strings.Contains a "/*" = false -> strings.Contains a "--" = false ->
  strings.Contains b "*/" = false ->
  stripComments (a ++ "/*" ++ b ++ "*/" ++ c) = a ++ stripComments c
  /\ stripComments (a ++ "/*" ++ b) = a.
Proof.
  intros H1 H2 H3. cbn [String.append].
  rewrite !stripComments_keep_slash by assumption.
  rewrite !stripComments_open_block.
  pose proof (Index_closer b c H3) as E. cbn [String.append] in E. rewrite E.
  rewrite (Index_none b _ H3), app_nil_r.
  split; [|reflexivity]. do 2 f_equal.
  change (String "*" (String "/" c)) with ("*/" ++ c).
  rewrite <- app_assoc.
  replace (strings.len b + 2)%nat with (strings.len (b ++ "*/"))
    by (rewrite len_app; reflexivity).
  apply drop_app_len.
Qed.

Lemma stripComments_block_witness :
  stripComments ("SELECT 1 " ++ "/*" ++ " one " ++ "*/" ++ " FROM t")
  = "SELECT 1 " ++ stripComments " FROM t"
  /\ stripComments ("SELECT 1 " ++ "/*" ++ " one ") = "SELECT 1 ".
Proof.
  apply (stripComments_block "SELECT 1 " " one " " FROM t"); reflexivity.
Defined.

Lemma HasSuffix_cons (c q : ascii) (a : string) :
  a <> "" ->
  strings.HasSuffix (String c a) (String q "") = strings.HasSuffix a (String q "").
Proof.
  intros Ha. unfold strings.HasSuffix.
  destruct a as [|d a]; [congruence|].
  cbn [strings.len String.length Nat.leb Nat.sub strings.drop andb].
  rewrite Nat.sub_0_r. reflexivity.
Qed.

Lemma stripComments_keep_dash (a r : string) :
  strings.Contains a "/*" = false -> strings.Contains a "--" = false ->
  strings.HasSuffix a "-" = false ->
  stripComments (a ++ String "-" r) = a ++ stripComments (String "-" r).
Proof.
  induction a as [|c a IH]; intros H1 H2 H3; [reflexivity|].
  apply Contains_tail in H1 as [P1 H1]. apply Contains_tail in H2 as [P2 H2].
  unfold stripComments at 1. cbn [String.append strings.len String.length].
  cbn [stripComments_from].
  assert (Q1 : strings.HasPrefix (String c (a ++ String "-" r)) "/*" = false).
  { destruct a as [|d a]; [|exact P1].
    cbn [String.append strings.HasPrefix]. rewrite andb_false_r. reflexivity. }
  assert (Q2 : strings.HasPrefix (String c (a ++ String "-" r)) "--" = false).
  { destruct a as [|d a]; [|exact P2].
    cbn [String.append strings.HasPrefix].
    unfold strings.HasSuffix in H3.
    cbn [strings.len String.length Nat.leb Nat.sub strings.drop andb String.eqb] in H3.
    destruct (Ascii.eqb c "-"); [discriminate H3 | reflexivity]. }
  rewrite Q1, Q2.
  rewrite stripComments_from_enough by (unfold strings.len; lia).
  destruct a as [|d a]; [reflexivity|].
  rewrite HasSuffix_cons in H3 by discriminate.
  rewrite (IH H1 H2 H3). reflexivity.
Qed.

Lemma Index_newline (b c : string) :
  strings.Contains b NL = false ->
  strings.Index (b ++ NL ++ c) NL = Some (strings.len b).
Proof.
  induction b as [|x b IH]; intros H; [reflexivity|].
  apply Contains_tail in H as [P H].
  cbn [String.append strings.Index].
  assert (Q : strings.HasPrefix (String x (b ++ NL ++ c)) NL = false).
  { unfold NL in *. cbn [strings.HasPrefix] in *. exact P. }
  rewrite Q, (IH H). reflexivity.
Qed.

Lemma stripComments_open_line (r : string) :
  stripComments (String "-" (String "-" r))
  = match strings.Index r NL with
    | None => ""
    | Some j => stripComments (strings.drop (j + 1) r)
    end.
Proof.
  unfold stripComments at 1.
  change (stripComments_from (strings.len (String "-" (String "-" r)))
            (String "-" (String "-" r)))
    with (match option_map S (option_map S (strings.Index r NL)) with
          | None => ""
          | Some j => stripComments_from (S (strings.len r))
                        (strings.drop (j + 1) (String "-" (String "-" r)))
          end).
  destruct (strings.Index r NL) as [j|]; [|reflexivity].
  cbn [option_map].
  change (strings.drop (S (S j) + 1) (String "-" (String "-" r)))
    with (strings.drop (j + 1) r).
  apply stripComments_from_enough. rewrite len_drop. lia.
Qed.

(** A line comment goes up to and with the end of its line, and the text
    on both sides stays; a line comment on the last line, without a line
    end, goes to the end of the text. *)
Theorem stripComments_line (a b c : string) :
  strings.Contains a "/*" = false -> strings.Contains a "--" = false ->
  strings.HasSuffix a "-" = false ->
  strings.Contains b NL = false ->
  stripComments (a ++ "--" ++ b ++ NL ++ c) = a ++ stripComments c
  /\ stripComments (a ++ "--" ++ b) = a.
Proof.
  intros H1 H2 H3 H4. cbn [String.append].
  rewrite !stripComments_keep_dash by assumption.
  rewrite !stripComments_open_line.
  rewrite (Index_newline b c H4), (Index_none b _ H4), app_nil_r.
  split; [|reflexivity]. do 2 f_equal.
  rewrite <- app_assoc.
  replace (strings.len b + 1)%nat with (strings.len (b ++ NL))
    by (rewrite len_app; reflexivity).
  apply drop_app_len.
Qed.

Lemma stripComments_line_witness :
  stripComments ("SELECT 1 " ++ "--" ++ " one" ++ NL ++ "FROM t")
  = "SELECT 1 " ++ stripComments "FROM t"
  /\ stripComments ("SELECT 1 " ++ "--" ++ " one") = "SELECT 1 ".
Proof.
  apply (stripComments_line "SELECT 1 " " one" "FROM t"); reflexivity.
Defined.

(** ** What [stripJSONC] takes out *)

Lemma TrimPrefix_none (s p : string) :
  strings.HasPrefix s p = false -> strings.TrimPrefix s p = s.
Proof. unfold strings.TrimPrefix. intros ->. reflexivity. Qed.

Lemma no_BOM_app (a : string) (x : ascii) (r : string) :
  strings.HasPrefix a BOM = false ->
  (x = dquote \/ x = "/"%char) ->
  strings.HasPrefix (a ++ String x r) BOM = false.
Proof.
  intros Ha Hx. unfold BOM in *.
  destruct a as [|c1 [|c2 [|c3 a]]]; cbn [String.append strings.HasPrefix] in *.
  - destruct Hx as [-> | ->]; reflexivity.
  - destruct (Ascii.eqb c1 _); [|reflexivity].
    destruct Hx as [-> | ->]; reflexivity.
  - destruct (Ascii.eqb c1 _); [|reflexivity].
    destruct (Ascii.eqb c2 _); [|reflexivity].
    destruct Hx as [-> | ->]; reflexivity.
  - exact Ha.
Qed.

Lemma scanJSONC_plain (a rest : string) :
  all_bytes no_quote_slash a = true ->
  scanJSONC (a ++ rest) = a ++ scanJSONC rest.
Proof.
  unfold scanJSONC. induction a as [|c a IH]; intros H; [reflexivity|].
  cbn [all_bytes] in H. apply andb_true_iff in H as [Hc H].
  unfold no_quote_slash in Hc. apply andb_true_iff in Hc as [C1 C2].
  apply negb_true_iff in C1, C2.
  cbn [String.append stripJSONC_from]. rewrite C1, C2. cbn [andb].
  rewrite (IH H). reflexivity.
Qed.

Lemma stripJSONC_in_string (body rest : string) :
  forall esc, literal_body esc body = true ->
  stripJSONC_from true false false esc (body ++ String dquote rest)
  = body ++ String dquote (scanJSONC rest).
Proof.
  induction body as [|c body IH]; intros esc H.
  - destruct esc; [discriminate|].
    cbn [String.append stripJSONC_from].
    replace (Ascii.eqb dquote backslash) with false by reflexivity.
    rewrite Ascii.eqb_refl. reflexivity.
  - cbn [literal_body] in H. cbn [String.append stripJSONC_from].
    destruct esc.
    + rewrite (IH false H). reflexivity.
    + destruct (Ascii.eqb c backslash).
      * rewrite (IH true H). reflexivity.
      * destruct (Ascii.eqb c dquote); [discriminate|].
        rewrite (IH false H). reflexivity.
Qed.

(** A string literal is copied as it is, with the comment delimiters and
    the escaped quotes it holds, and the scan goes on after it. *)
Theorem stripJSONC_string (a body rest : string) :
  strings.HasPrefix a BOM = false ->
  all_bytes no_quote_slash a = true ->
  literal_body false body = true ->
  stripJSONC (a ++ DQ ++ body ++ DQ ++ rest)
  = a ++ DQ ++ body ++ DQ ++ scanJSONC rest.
Proof.
  intros Hb Ha Hl. unfold stripJSONC, DQ. cbn [String.append].
  rewrite TrimPrefix_none by (apply no_BOM_app; auto).
  fold (scanJSONC (a ++ String dquote (body ++ String dquote rest))).
  rewrite (scanJSONC_plain _ _ Ha). f_equal.
  unfold scanJSONC at 1. cbn [stripJSONC_from]. rewrite Ascii.eqb_refl.
  rewrite (stripJSONC_in_string body rest false Hl). reflexivity.
Qed.

Lemma stripJSONC_string_witness :
  stripJSONC ("{" ++ DQ ++ "http://x/*y" ++ DQ ++ ":1}")
  = "{" ++ DQ ++ "http://x/*y" ++ DQ ++ scanJSONC ":1}".
Proof.
  apply (stripJSONC_string "{" "http://x/*y" ":1}"); reflexivity.
Defined.

Lemma stripJSONC_in_line (b : string) :
  all_bytes not_eol b = true ->
  (forall e rest, e = newline \/ e = cr ->
     stripJSONC_from false true false false (b ++ String e rest)
     = String e (scanJSONC rest))
  /\ stripJSONC_from false true false false b = "".
Proof.
  induction b as [|c b IH]; intros H.
  - split; [|reflexivity]. intros e rest He.
    cbn [String.append stripJSONC_from].
    destruct He as [-> | ->]; reflexivity.
  - cbn [all_bytes] in H. apply andb_true_iff in H as [Hc H].
    unfold not_eol in Hc. apply negb_true_iff in Hc.
    destruct (IH H) as [I1 I2].
    split; [intros e rest He|]; cbn [String.append stripJSONC_from];
      rewrite Hc; auto.
Qed.

(** A line comment goes up to the end of its line, which stays, and to
    the end of the text when the line does not end. *)
Theorem stripJSONC_line (a b rest : string) (e : ascii) :
  strings.HasPrefix a BOM = false ->
  all_bytes no_quote_slash a = true ->
  all_bytes not_eol b = true ->
  e = newline \/ e = cr ->
  stripJSONC (a ++ "//" ++ b ++ String e rest) = a ++ String e (scanJSONC rest)
  /\ stripJSONC (a ++ "//" ++ b) = a.
Proof.
  intros Hb Ha Hl He. unfold stripJSONC. cbn [String.append].
  rewrite !TrimPrefix_none by (apply no_BOM_app; auto).
  fold (scanJSONC (a ++ String "/" (String "/" (b ++ String e rest)))).
  fold (scanJSONC (a ++ String "/" (String "/" b))).
  rewrite !(scanJSONC_plain _ _ Ha).
  destruct (stripJSONC_in_line b Hl) as [I1 I2].
  unfold scanJSONC at 1 3. cbn [stripJSONC_from Ascii.eqb Bool.eqb andb orb].
  rewrite (I1 e rest He), I2, app_nil_r. auto.
Qed.

Lemma stripJSONC_line_witness :
  stripJSONC ("[1" ++ "//" ++ " one" ++ String newline "]") 
  = "[1" ++ String newline (scanJSONC "]")
  /\ stripJSONC ("[1" ++ "//" ++ " one") = "[1".
Proof.
  apply (stripJSONC_line "[1" " one" "]" newline); auto.
Defined.

Lemma stripJSONC_in_block (b : string) :
  strings.Contains b "*/" = false ->
  (forall rest,
     stripJSONC_from false false true false (b ++ "*/" ++ rest) = scanJSONC rest)
  /\ stripJSONC_from false false true false b = "".
Proof.
  induction b as [|x b IH]; intros H.
  - split; [|reflexivity]. intros rest. reflexivity.
  - apply Contains_tail in H as [P H]. destruct (IH H) as [I1 I2].
    cbn [strings.HasPrefix] in P.
    split; [intros rest|]; cbn [String.append stripJSONC_from].
    + destruct b as [|d b].
      * cbn [String.append]. rewrite andb_false_r.
        exact (I1 rest).
      * cbn [String.append] in *. rewrite andb_true_r in P. rewrite P.
        exact (I1 rest).
    + destruct b as [|d b].
      * rewrite andb_false_r. reflexivity.
      * rewrite andb_true_r in P. rewrite P. exact I2.
Qed.

(** A block comment goes with its delimiters, and to the end of the text
    when it is not closed. *)
Theorem stripJSONC_block (a b rest : string) :
  strings.HasPrefix a BOM = false ->
  all_bytes no_quote_slash a = true ->
  strings.Contains b "*/" = false ->
  stripJSONC (a ++ "/*" ++ b ++ "*/" ++ rest) = a ++ scanJSONC rest
  /\ stripJSONC (a ++ "/*" ++ b) = a.
Proof.
  intros Hb Ha Hl. unfold stripJSONC. cbn [String.append].
  rewrite !TrimPrefix_none by (apply no_BOM_app; auto).
  fold (scanJSONC (a ++ String "/" (String "*" (b ++ String "*" (String "/" rest))))).
  fold (scanJSONC (a ++ String "/" (String "*" b))).
  rewrite !(scanJSONC_plain _ _ Ha).
  destruct (stripJSONC_in_block b Hl) as [I1 I2].
  unfold scanJSONC at 1 3. cbn [stripJSONC_from Ascii.eqb Bool.eqb andb orb].
  specialize (I1 rest). cbn [String.append] in I1.
  rewrite I1, I2, app_nil_r. auto.
Qed.

Lemma stripJSONC_block_witness :
  stripJSONC ("[1" ++ "/*" ++ " one " ++ "*/" ++ "]") = "[1" ++ scanJSONC "]"
  /\ stripJSONC ("[1" ++ "/*" ++ " one ") = "[1".
Proof.
  apply (stripJSONC_block "[1" " one " "]"); reflexivity.
Defined.

(** ** What [stripTrailingCommas] takes out *)

Lemma commas_plain (a rest : string) :
  all_bytes no_quote_comma a = true ->
  stripTrailingCommas (a ++ rest) = a ++ stripTrailingCommas rest.
Proof.
  unfold stripTrailingCommas. induction a as [|c a IH]; intros H; [reflexivity|].
  cbn [all_bytes] in H. apply andb_true_iff in H as [Hc H].
  unfold no_quote_comma in Hc. apply andb_true_iff in Hc as [C1 C2].
  apply negb_true_iff in C1, C2.
  cbn [String.append stripTrailingCommas_from]. rewrite C1, C2. cbn [andb].
  rewrite (IH H). reflexivity.
Qed.

Lemma blank_no_quote_comma (ws : string) :
  all_bytes blank ws = true -> all_bytes no_quote_comma ws = true.
Proof.
  induction ws as [|c ws IH]; [reflexivity|]. cbn [all_bytes].
  intros H. apply andb_true_iff in H as [Hc H]. rewrite (IH H), andb_true_r.
  unfold blank in Hc. unfold no_quote_comma.
  repeat (apply orb_true_iff in Hc as [Hc|Hc]);
    apply Ascii.eqb_eq in Hc; subst c; reflexivity.
Qed.

Lemma closes_after_blank (ws : string) (e : ascii) (rest : string) :
  all_bytes blank ws = true -> blank e = false ->
  closes_after (ws ++ String e rest) = (Ascii.eqb e "]" || Ascii.eqb e "}").
Proof.
  intros H He. induction ws as [|c ws IH].
  - cbn [String.append closes_after]. unfold blank in He. rewrite He. reflexivity.
  - cbn [all_bytes] in H. apply andb_true_iff in H as [Hc H].
    cbn [String.append closes_after]. unfold blank in Hc. rewrite Hc. exact (IH H).
Qed.

(** A comma that is followed, after blanks, by a closing bracket or brace
    goes, and nothing else of the text around it; a comma that is followed
    by anything else stays. *)
Theorem stripTrailingCommas_closer (a ws rest : string) (e : ascii) :
  all_bytes no_quote_comma a = true ->
  all_bytes blank ws = true ->
  blank e = false -> no_quote_comma e = true ->
  stripTrailingCommas (a ++ "," ++ ws ++ String e rest)
  = if Ascii.eqb e "]" || Ascii.eqb e "}"
    then a ++ ws ++ String e (stripTrailingCommas rest)
    else a ++ "," ++ ws ++ String e (stripTrailingCommas rest).
Proof.
  intros Ha Hw He Hq.
  rewrite (commas_plain _ _ Ha).
  assert (E : stripTrailingCommas (ws ++ String e rest)
              = ws ++ String e (stripTrailingCommas rest)).
  { rewrite (commas_plain _ _ (blank_no_quote_comma ws Hw)). f_equal.
    apply (commas_plain (String e "") rest). cbn [all_bytes].
    rewrite Hq. reflexivity. }
  unfold stripTrailingCommas at 1. cbn [String.append stripTrailingCommas_from].
  replace (Ascii.eqb "," dquote) with false by reflexivity.
  rewrite Ascii.eqb_refl, (closes_after_blank ws e rest Hw He). cbn [andb].
  fold (stripTrailingCommas (ws ++ String e rest)). rewrite E.
  destruct (Ascii.eqb e "]" || Ascii.eqb e "}"); reflexivity.
Qed.

Lemma stripTrailingCommas_closer_witness :
  stripTrailingCommas ("[1" ++ "," ++ " " ++ String "]" "")
  = "[1" ++ " " ++ String "]" (stripTrailingCommas "").
Proof.
  apply (stripTrailingCommas_closer "[1" " " "" "]"); reflexivity.
Defined.

Lemma commas_in_string (body rest : string) :
  forall esc, literal_body esc body = true ->
  stripTrailingCommas_from true esc (body ++ String dquote rest)
  = body ++ String dquote (stripTrailingCommas rest).
Proof.
  induction body as [|c body IH]; intros esc H.
  - destruct esc; [discriminate|].
    cbn [String.append stripTrailingCommas_from].
    replace (Ascii.eqb dquote backslash) with false by reflexivity.
    rewrite Ascii.eqb_refl. reflexivity.
  - cbn [literal_body] in H. cbn [String.append stripTrailingCommas_from].
    destruct esc.
    + rewrite (IH false H). reflexivity.
    + destruct (Ascii.eqb c backslash).
      * rewrite (IH true H). reflexivity.
      * destruct (Ascii.eqb c dquote); [discriminate|].
        rewrite (IH false H). reflexivity.
Qed.

(** A string literal is copied as it is, with the commas in front of
    brackets and the escaped quotes that it holds. *)
Theorem stripTrailingCommas_string (a body rest : string) :
  all_bytes no_quote_comma a = true ->
  literal_body false body = true ->
  stripTrailingCommas (a ++ DQ ++ body ++ DQ ++ rest)
  = a ++ DQ ++ body ++ DQ ++ stripTrailingCommas rest.
Proof.
  intros Ha Hl. rewrite (commas_plain _ _ Ha). f_equal.
  unfold stripTrailingCommas at 1, DQ.
  cbn [String.append stripTrailingCommas_from]. rewrite Ascii.eqb_refl.
  rewrite (commas_in_string body rest false Hl). reflexivity.
Qed.

Lemma stripTrailingCommas_string_witness :
  stripTrailingCommas ("[" ++ DQ ++ "a,]" ++ DQ ++ ",]")
  = "[" ++ DQ ++ "a,]" ++ DQ ++ stripTrailingCommas ",]".
Proof.
  apply (stripTrailingCommas_string "[" "a,]" ",]"); reflexivity.
Defined.

(** [stripTrailingCommas] takes nothing but commas out of the text. *)
Theorem stripTrailingCommas_only_commas (s : string) :
  comma_del s (stripTrailingCommas s).
Proof.
  unfold stripTrailingCommas.
  assert (H : forall inStr esc, comma_del s (stripTrailingCommas_from inStr esc s)).
  { induction s as [|c s IH]; intros inStr esc; [constructor|].
    cbn [stripTrailingCommas_from].
    destruct inStr.
    - apply comma_del_keep.
      destruct esc; [apply IH|].
      destruct (Ascii.eqb c backslash); [apply IH|].
      destruct (Ascii.eqb c dquote); apply IH.
    - destruct (Ascii.eqb c dquote); [apply comma_del_keep, IH|].
      destruct (Ascii.eqb c ",") eqn:Ec; cbn [andb].
      + destruct (closes_after s).
        * apply Ascii.eqb_eq in Ec. subst c. apply comma_del_drop, IH.
        * apply comma_del_keep, IH.
      + apply comma_del_keep, IH. }
  apply H.
Qed.

(** ** The guessed parameters *)

Lemma omap_cons_eq {A B : Type} (f : A -> option B) (x : A) (l : list A) :
  omap f (x :: l) = match f x with Some y => y :: omap f l | None => omap f l end.
Proof. reflexivity. Qed.

Lemma guess_loop (ms : list (list string)) :
  forall (defs : params) (name : string),
    foldl (fun (defs : params) (m : list string) =>
             if (2 <=? length m)%nat
             then match m !! 1%nat with
                  | Some key =>
                      match defs !! key with
                      | Some _ => defs
                      | None => <[key := VString ""]> defs
                      end
                  | None => defs
                  end
             else defs) defs ms !! name
    = match defs !! name with
      | Some v => Some v
      | None =>
          if bool_decide
               (name ∈ omap (fun m : list string =>
                               if (2 <=? length m)%nat then m !! 1%nat else None) ms)
          then Some (VString "") else None
      end.
Proof.
  induction ms as [|m ms IH]; intros defs name.
  - cbn [foldl]. destruct (defs !! name); [reflexivity|].
    rewrite bool_decide_eq_false_2; [reflexivity | apply not_elem_of_nil].
  - cbn [foldl]. rewrite IH, omap_cons_eq.
    destruct (2 <=? length m)%nat; [|reflexivity].
    destruct (m !! 1%nat) as [key|]; [|reflexivity].
    destruct (decide (key = name)) as [-> | Hne].
    + destruct (defs !! name) as [v|] eqn:E.
      * rewrite E. reflexivity.
      * rewrite lookup_insert_eq.
        rewrite bool_decide_eq_true_2; [reflexivity | apply list_elem_of_here].
    + assert (E : (match defs !! key with
                   | Some _ => defs
                   | None => <[key := VString ""]> defs
                   end) !! name = defs !! name).
      { destruct (defs !! key); [reflexivity|].
        apply lookup_insert_ne. exact Hne. }
      rewrite E. destruct (defs !! name); [reflexivity|].
      apply (f_equal (fun b : bool => if b then Some (VString "") else None)).
      apply bool_decide_ext. rewrite elem_of_cons. split; [auto|].
      intros [->|H]; [congruence | exact H].
Qed.

(** [guessParamsFromSQL] is defined for every text.  It gives each
    placeholder name the value that [extractParamDefaults] gives it, each
    key of an optional block that has no placeholder the empty String, and
    has no other name. *)
Theorem guess_keeps_defaults (sqlContent : string) :
  exists defs m : params,
    extractParamDefaults sqlContent = Ok defs
    /\ guessParamsFromSQL sqlContent = Ok m
    /\ forall name : string,
         m !! name
         = match defs !! name with
           | Some v => Some v
           | None => if bool_decide (name ∈ block_keys sqlContent)
                     then Some (VString "") else None
           end.
Proof.
  destruct (extract_loop_last _ (FindAllStringSubmatch_match_of reParam sqlContent) ∅)
    as (defs & Hd & _).
  unfold guessParamsFromSQL, extractParamDefaults. rewrite Hd. cbn [bind].
  eexists _, _. split; [reflexivity|]. split; [reflexivity|].
  intros name. apply guess_loop.
Qed.

(** ** The keys of the variants *)

Lemma add_words_elem (cond : string) (set : gset string) (k : string) :
  k ∈ add_words cond set
  <-> k ∈ set \/ (k ∈ FindAllString reIdent cond
                  /\ reserved (strings.ToLower k) = false).
Proof.
  unfold add_words. generalize (FindAllString reIdent cond) as ws.
  intros ws. revert set. induction ws as [|w ws IH]; intros set; cbn [foldl].
  - split; [auto|]. intros [H|[H _]]; [exact H|]. inversion H.
  - rewrite IH, elem_of_cons.
    destruct (reserved (strings.ToLower w)) eqn:E.
    + split; [tauto|]. intros [H|[[->|H] Hr]]; [tauto | congruence | tauto].
    + rewrite elem_of_union, elem_of_singleton.
      split; [intros [[->|H]|H]; tauto|].
      intros [H|[[->|H] Hr]]; tauto.
Qed.

Lemma truthy_loop1 (ms : list (list string)) :
  forall (set : gset string) (k : string),
    k ∈ foldl (fun set (m : list string) =>
                 if (length m <? 2)%nat then set
                 else match m !! 1%nat with
                      | Some cond => add_words cond set
                      | None => set
                      end) set ms
    <-> k ∈ set
        \/ exists cond,
             cond ∈ omap (fun m : list string =>
                            if (length m <? 2)%nat then None else m !! 1%nat) ms
             /\ k ∈ FindAllString reIdent cond
             /\ reserved (strings.ToLower k) = false.
Proof.
  induction ms as [|m ms IH]; intros set k; cbn [foldl].
  - split; [auto|]. intros [H|(c & H & _)]; [exact H | inversion H].
  - rewrite IH, omap_cons_eq. destruct (length m <? 2)%nat; [reflexivity|].
    destruct (m !! 1%nat) as [cond|]; [|reflexivity].
    rewrite add_words_elem. setoid_rewrite elem_of_cons.
    split.
    + intros [[H|H]|(c & H1 & H2)]; eauto 6.
    + intros [H|(c & [->|H1] & H2)]; eauto 6.
Qed.

Lemma truthy_loop2 (ms : list (list string)) :
  forall (set : gset string) (k : string),
    k ∈ foldl (fun set (m : list string) =>
                 if (2 <=? length m)%nat
                 then match m !! 1%nat with
                      | Some key => {[key]} ∪ set
                      | None => set
                      end
                 else set) set ms
    <-> k ∈ set
        \/ k ∈ omap (fun m : list string =>
                       if (2 <=? length m)%nat then m !! 1%nat else None) ms.
Proof.
  induction ms as [|m ms IH]; intros set k; cbn [foldl].
  - split; [auto|]. intros [H|H]; [exact H | inversion H].
  - rewrite IH, omap_cons_eq. destruct (2 <=? length m)%nat; [|reflexivity].
    destruct (m !! 1%nat) as [key|]; [|reflexivity].
    rewrite elem_of_union, elem_of_singleton, elem_of_cons. tauto.
Qed.

(** The keys of the variants come in increasing order, each one once; they
    are the words of the conditions of the if-blocks that are not reserved
    words, and the keys of the optional blocks, reserved or not. *)
Theorem truthy_keys_sorted (sqlContent : string) :
  let ks := findTruthyKeysForVariants sqlContent in
  StronglySorted String.le ks /\ NoDup ks
  /\ forall k : string,
       k ∈ ks
       <-> (exists cond, cond ∈ if_conditions sqlContent
                         /\ k ∈ FindAllString reIdent cond
                         /\ reserved (strings.ToLower k) = false)
           \/ k ∈ block_keys sqlContent.
Proof.
  unfold findTruthyKeysForVariants, sorted_keys.
  split; [apply StronglySorted_merge_sort; apply _|].
  split.
  - rewrite merge_sort_Permutation. apply NoDup_elements.
  - intros k. rewrite merge_sort_Permutation, elem_of_elements.
    rewrite truthy_loop2, truthy_loop1.
    unfold if_conditions, block_keys. split.
    + intros [[H|H]|H]; [inversion H | auto | auto].
    + intros [H|H]; auto.
Qed.

(** ** Splitting a batch *)

Lemma Split1_nonempty (s : string) (sep : ascii) : strings.Split1 s sep <> [].
Proof.
  destruct s as [|c s]; cbn [strings.Split1]; [discriminate|].
  destruct (Ascii.eqb c sep); [discriminate|].
  destruct (strings.Split1 s sep); discriminate.
Qed.

Lemma Split1_app (a b : string) (sep : ascii) :
  all_bytes (is_not sep) a = true ->
  strings.Split1 (a ++ String sep b) sep = a :: strings.Split1 b sep
  /\ strings.Split1 a sep = [a].
Proof.
  induction a as [|c a IH]; intros H.
  - cbn [String.append strings.Split1]. rewrite Ascii.eqb_refl. auto.
  - cbn [all_bytes] in H. apply andb_true_iff in H as [Hc H].
    unfold is_not in Hc. apply negb_true_iff in Hc.
    destruct (IH H) as [I1 I2].
    cbn [String.append strings.Split1]. rewrite Hc, I1, I2. auto.
Qed.

Lemma Split1_pieces (s : string) (sep : ascii) :
  Forall (fun p => all_bytes (is_not sep) p = true) (strings.Split1 s sep).
Proof.
  induction s as [|c s IH]; cbn [strings.Split1].
  - repeat constructor.
  - destruct (Ascii.eqb c sep) eqn:E.
    + constructor; [reflexivity | exact IH].
    + destruct (strings.Split1 s sep) as [|f fs].
      * repeat constructor. cbn [all_bytes]. unfold is_not. rewrite E. reflexivity.
      * inversion IH as [|? ? Hf Hfs]; subst. constructor; [|exact Hfs].
        cbn [all_bytes]. unfold is_not at 1. rewrite E. exact Hf.
Qed.

Lemma Split1_Join (s : string) (sep : ascii) :
  strings.Join (strings.Split1 s sep) (String sep "") = s.
Proof.
  induction s as [|c s IH]; [reflexivity|]. cbn [strings.Split1].
  pose proof (Split1_nonempty s sep) as Hne.
  destruct (Ascii.eqb c sep) eqn:E.
  - apply Ascii.eqb_eq in E. subst c.
    destruct (strings.Split1 s sep) as [|f fs]; [congruence|].
    change (strings.Join ("" :: f :: fs) (String sep ""))
      with (String sep (strings.Join (f :: fs) (String sep ""))).
    rewrite IH. reflexivity.
  - destruct (strings.Split1 s sep) as [|f fs]; [congruence|].
    rewrite <- IH. destruct fs; reflexivity.
Qed.

(** [splitBySemicolon] cuts at every semicolon, also at one inside a
    quoted text: the piece in front of the first semicolon is the first
    piece, whatever it holds.  Joined with semicolons the pieces give the
    text back. *)
Theorem split_at_every_semicolon (a b : string) :
  all_bytes (is_not ";") a = true ->
  splitBySemicolon (a ++ ";" ++ b) = a :: splitBySemicolon b
  /\ splitBySemicolon a = [a]
  /\ strings.Join (splitBySemicolon (a ++ ";" ++ b)) ";" = a ++ ";" ++ b.
Proof.
  intros H. unfold splitBySemicolon.
  destruct (Split1_app a b ";" H) as [H1 H2].
  split; [exact H1|]. split; [exact H2|]. apply Split1_Join.
Qed.

Lemma split_at_every_semicolon_witness :
  splitBySemicolon ("INSERT INTO t VALUES ('a" ++ ";" ++ "b')")
  = ["INSERT INTO t VALUES ('a"; "b')"].
Proof.
  apply (split_at_every_semicolon "INSERT INTO t VALUES ('a" "b')").
  reflexivity.
Defined.

Lemma all_bytes_Contains (x : ascii) (s : string) :
  all_bytes (is_not x) s = true -> strings.Contains s (String x "") = false.
Proof.
  unfold strings.Contains. induction s as [|c s IH]; [reflexivity|].
  cbn [all_bytes]. intros H. apply andb_true_iff in H as [Hc H].
  unfold is_not in Hc. apply negb_true_iff in Hc.
  cbn [strings.Index strings.HasPrefix]. rewrite Hc. cbn [andb].
  specialize (IH H). destruct (strings.Index s _); [discriminate | reflexivity].
Qed.

Lemma execStatements_runAll {db err : Type} (exec : db -> string -> db * option err)
    (stmts : list string) :
  forall d,
    execStatements exec stmts d
    = runAll exec (List.filter (fun q => negb (String.eqb q ""))
                               (map strings.TrimSpace stmts)) d.
Proof.
  induction stmts as [|s stmts IH]; intros d; [reflexivity|].
  cbn [execStatements map List.filter].
  destruct (String.eqb (strings.TrimSpace s) ""); cbn [negb]; [apply IH|].
  cbn [runAll]. destruct (exec d (strings.TrimSpace s)) as [d' [e|]];
    [reflexivity | apply IH].
Qed.

(** [execBatch] hands the statements of the batch to the database in
    their order and stops at the first error.  No statement that it hands
    over is empty, has white space around it, or holds a semicolon. *)
Theorem execBatch_statements {db err : Type}
    (exec : db -> string -> db * option err) (d : db) (batch : string) :
  execBatch exec d batch = runAll exec (statements batch) d
  /\ Forall (fun q => q <> "" /\ strings.TrimSpace q = q
                      /\ strings.Contains q ";" = false)
            (statements batch).
Proof.
  split; [apply execStatements_runAll|].
  unfold statements, splitBySemicolon.
  pose proof (Split1_pieces batch ";") as Hp.
  induction Hp as [|p ps Hp1 Hp2 IH]; [constructor|].
  cbn [map List.filter].
  destruct (String.eqb (strings.TrimSpace p) "") eqn:E; cbn [negb]; [exact IH|].
  constructor; [|exact IH].
  split; [|split].
  - apply String.eqb_neq. exact E.
  - apply TrimSpace_idem.
  - apply (all_bytes_Contains ";").
    destruct (TrimSpace_infix p) as (pre & post & Ep).
    rewrite Ep, !all_bytes_app in Hp1.
    apply andb_true_iff in Hp1 as [_ Hp1]. apply andb_true_iff in Hp1 as [Hp1 _].
    exact Hp1.
Qed.

(** ** [addNewline] *)

(** The text that [addNewline] gives ends with a line end, and
    [addNewline] leaves it as it is. *)
Theorem addNewline_once (s : string) :
  strings.HasSuffix (addNewline s) NL = true
  /\ addNewline (addNewline s) = addNewline s.
Proof.
  assert (H : strings.HasSuffix (addNewline s) NL = true).
  { unfold addNewline. destruct (strings.HasSuffix s NL) eqn:E; [exact E|].
    apply HasSuffix_app. }
  split; [exact H|].
  unfold addNewline at 1. rewrite H. reflexivity.
Qed.

(** ** [maskPassword] *)

Lemma Index_skip (x : ascii) (a r p : string) :
  all_bytes (is_not x) a = true ->
  strings.HasPrefix (String x r) (String x p) = true ->
  strings.Index (a ++ String x r) (String x p) = Some (strings.len a).
Proof.
  intros Ha Hp. induction a as [|c a IH].
  - cbn [String.append]. destruct r; cbn [strings.Index]; rewrite Hp; reflexivity.
  - cbn [all_bytes] in Ha. apply andb_true_iff in Ha as [Hc Ha].
    unfold is_not in Hc. apply negb_true_iff in Hc.
    cbn [String.append strings.Index strings.HasPrefix]. rewrite Hc. cbn [andb].
    rewrite (IH Ha). reflexivity.
Qed.

Lemma Contains_drop_false (n : nat) (s p : string) :
  p <> "" -> strings.Contains s p = false ->
  strings.Contains (strings.drop n s) p = false.
Proof.
  intros Hp. revert s. induction n as [|n IH]; intros s H; [exact H|].
  destruct s as [|c s]; [exact H|]. cbn [strings.drop].
  apply IH. apply Contains_tail in H. tauto.
Qed.

Lemma all_bytes_cons_app (Q : ascii -> bool) (a : string) (x : ascii) (b : string) :
  all_bytes Q a = true -> Q x = true -> all_bytes Q b = true ->
  all_bytes Q (a ++ String x b) = true.
Proof.
  intros Ha Hx Hb. rewrite all_bytes_app. cbn [all_bytes].
  rewrite Ha, Hx, Hb. reflexivity.
Qed.

(** In a URL with a user name and a password, [maskPassword] writes three
    stars for the password, up to the first at sign after the scheme. *)
Theorem maskPassword_url (scheme user pass host : string) :
  all_bytes (is_not ":") scheme = true ->
  all_bytes (is_not ":") user = true ->
  all_bytes (is_not "@") user = true ->
  all_bytes (is_not "@") pass = true ->
  maskPassword (scheme ++ "://" ++ user ++ ":" ++ pass ++ "@" ++ host)
  = scheme ++ "://" ++ user ++ ":***@" ++ host.
Proof.
  intros Hs Hu1 Hu2 Hp. unfold maskPassword.
  set (rest := user ++ ":" ++ pass ++ "@" ++ host).
  assert (Ei : strings.Index (scheme ++ "://" ++ rest) "://"
               = Some (strings.len scheme))
    by (apply Index_skip; [exact Hs | reflexivity]).
  rewrite Ei.
  assert (Ed : strings.drop (strings.len scheme + 3) (scheme ++ "://" ++ rest) = rest).
  { rewrite <- drop_drop, drop_app_len. reflexivity. }
  assert (Et : strings.take (strings.len scheme + 3) (scheme ++ "://" ++ rest)
               = scheme ++ "://").
  { replace (strings.len scheme + 3)%nat with (strings.len (scheme ++ "://"))
      by (rewrite len_app; reflexivity).
    replace (scheme ++ "://" ++ rest) with ((scheme ++ "://") ++ rest)
      by (rewrite app_assoc; reflexivity).
    apply take_app_len. }
  rewrite Ed, Et.
  assert (Ea : strings.Index rest "@"
               = Some (strings.len (user ++ ":" ++ pass))).
  { unfold rest.
    replace (user ++ ":" ++ pass ++ "@" ++ host)
      with ((user ++ ":" ++ pass) ++ String "@" host)
      by (rewrite !app_assoc; reflexivity).
    apply Index_skip; [|reflexivity].
    apply all_bytes_cons_app; auto. }
  assert (Ec : strings.Index rest ":" = Some (strings.len user))
    by (apply Index_skip; [exact Hu1 | reflexivity]).
  rewrite Ea, Ec.
  assert (Hlt : (strings.len user <? strings.len (user ++ ":" ++ pass))%nat = true)
    by (apply Nat.ltb_lt; rewrite len_app; simpl; lia).
  assert (Hpos : (0 <? strings.len (user ++ ":" ++ pass))%nat = true)
    by (apply Nat.ltb_lt; rewrite len_app; simpl; lia).
  rewrite Hlt, Hpos. cbn [andb].
  unfold rest at 1. rewrite take_app_len.
  unfold rest.
  replace (user ++ ":" ++ pass ++ "@" ++ host)
    with ((user ++ ":" ++ pass) ++ "@" ++ host)
    by (rewrite !app_assoc; reflexivity).
  rewrite drop_app_len, !app_assoc. reflexivity.
Qed.

Lemma maskPassword_url_witness :
  maskPassword ("postgres" ++ "://" ++ "bob" ++ ":" ++ "s3cret" ++ "@" ++ "db:5432/x")
  = "postgres://bob:***@db:5432/x".
Proof.
  apply (maskPassword_url "postgres" "bob" "s3cret" "db:5432/x"); reflexivity.
Defined.

(** In a text without [://] that has a user name, a colon, a password and
    an at sign, [maskPassword] writes three stars for the password; when
    the user name is empty it leaves the text, password included, as it
    is. *)
Theorem maskPassword_dsn (user pass rest : string) :
  all_bytes (is_not ":") user = true ->
  all_bytes (is_not "@") user = true ->
  all_bytes (is_not "@") pass = true ->
  strings.Contains (user ++ ":" ++ pass ++ "@" ++ rest) "://" = false ->
  maskPassword (user ++ ":" ++ pass ++ "@" ++ rest)
  = if String.eqb user "" then user ++ ":" ++ pass ++ "@" ++ rest
    else user ++ ":***@" ++ rest.
Proof.
  intros Hu1 Hu2 Hp Hc. unfold maskPassword.
  rewrite (Index_none _ _ Hc).
  set (s := user ++ ":" ++ pass ++ "@" ++ rest).
  assert (Es : s = (user ++ ":" ++ pass) ++ String "@" rest)
    by (unfold s; rewrite !app_assoc; reflexivity).
  assert (Ea : strings.Index s "@" = Some (strings.len (user ++ ":" ++ pass))).
  { rewrite Es. apply Index_skip; [|reflexivity].
    apply all_bytes_cons_app; auto. }
  rewrite Ea.
  assert (Hpos : (0 <? strings.len (user ++ ":" ++ pass))%nat = true)
    by (apply Nat.ltb_lt; rewrite len_app; simpl; lia).
  rewrite Hpos.
  assert (Ef : strings.take (strings.len (user ++ ":" ++ pass)) s
               = user ++ ":" ++ pass) by (rewrite Es; apply take_app_len).
  rewrite Ef.
  assert (Ec : strings.Index (user ++ ":" ++ pass) ":" = Some (strings.len user))
    by (apply Index_skip; [exact Hu1 | reflexivity]).
  rewrite Ec.
  destruct user as [|c user]; [reflexivity|].
  cbn [String.eqb strings.len String.length Nat.ltb Nat.leb].
  change (S (String.length user)) with (strings.len (String c user)).
  rewrite take_app_len. rewrite Es at 1. rewrite drop_app_len.
  reflexivity.
Qed.

Lemma maskPassword_dsn_witness :
  maskPassword ("bob" ++ ":" ++ "s3cret" ++ "@" ++ "tcp(db:3306)/x")
  = "bob:***@tcp(db:3306)/x".
Proof.
  apply (maskPassword_dsn "bob" "s3cret" "tcp(db:3306)/x"); reflexivity.
Defined.

(** A text without an at sign has no password to hide: it stays as it
    is. *)
Theorem maskPassword_no_at (s : string) :
  strings.Contains s "@" = false -> maskPassword s = s.
Proof.
  intros H. unfold maskPassword.
  destruct (strings.Index s "://") as [i|].
  - rewrite (Index_none _ _ (Contains_drop_false (i + 3) s "@" ltac:(discriminate) H)).
    reflexivity.
  - rewrite (Index_none _ _ H). reflexivity.
Qed.

Lemma maskPassword_no_at_witness :
  maskPassword "file://data/test.db" = "file://data/test.db".
Proof. apply maskPassword_no_at. reflexivity. Defined.

(** ** One directive in a text *)

Lemma matchAt_lang (r : regex) (pos : nat) (text : string) (a : caps) :
  matchAt r pos text = Some a ->
  exists w rest', text = w ++ rest' /\ lang r w.
Proof.
  unfold matchAt. intros H.
  apply (exec_sound (fun _ _ => True) pos text) in H.
  - destruct H as (w & rest' & cap' & E & Hl & _). eauto.
  - auto.
  - apply at_pos_refl.
  - intros i lo hi _. exact I.
Qed.

Lemma search_skip_slash (r : regex) (pre r' : string) :
  r = reOptBlock \/ r = reIfBlock \/ r = reBeginEnd \/ r = reParam ->
  strings.Contains pre "/*" = false ->
  forall pos,
    search r pos (pre ++ String "/" r')
    = search r (pos + strings.len pre) (String "/" r').
Proof.
  intros Hr. induction pre as [|c pre IH]; intros H pos.
  - cbn [String.append strings.len String.length]. rewrite Nat.add_0_r. reflexivity.
  - apply Contains_tail in H as [P H].
    replace (pos + strings.len (String c pre))%nat
      with (S pos + strings.len pre)%nat by (unfold strings.len; simpl; lia).
    rewrite <- (IH H (S pos)). cbn [String.append].
    assert (E1 : search r pos (String c (pre ++ String "/" r'))
                 = match matchAt r pos (String c (pre ++ String "/" r')) with
                   | Some a => Some a
                   | None => search r (S pos) (pre ++ String "/" r')
                   end) by reflexivity.
    rewrite E1.
    destruct (matchAt r pos (String c (pre ++ String "/" r'))) as [a|] eqn:Em.
    + exfalso. apply matchAt_lang in Em as (w & rest' & E & Hl).
      pose proof (lang_directive r w Hr Hl) as Hw.
      apply (HasPrefix_app w rest') in Hw. rewrite <- E in Hw.
      destruct pre as [|d pre].
      * cbn [String.append strings.HasPrefix] in Hw.
        rewrite andb_false_r in Hw. discriminate.
      * cbn [String.append strings.HasPrefix] in Hw, P. congruence.
    + reflexivity.
Qed.

Lemma bounds_0 (a : caps) (b : nat * nat) :
  a !! 0%nat = Some (Some b) -> bounds a 0 = Some b.
Proof. unfold bounds. intros ->. reflexivity. Qed.

Lemma slice_mid (a m b : string) :
  slice 0 (a ++ m ++ b) (strings.len a) (strings.len a + strings.len m) = m.
Proof.
  unfold slice. rewrite Nat.sub_0_r.
  replace (strings.len a + strings.len m - strings.len a)%nat
    with (strings.len m) by lia.
  rewrite drop_app_len. apply take_app_len.
Qed.

(** A text with one directive, which starts with a slash: the callback
    gets the directive, and what it gives takes its place. *)
Lemma ReplaceAll_single (r : regex) (repl : string -> result string)
    (pre m post : string) (a : caps) :
  r = reOptBlock \/ r = reIfBlock \/ r = reBeginEnd \/ r = reParam ->
  strings.Contains pre "/*" = false ->
  strings.Contains post "/*" = false ->
  strings.HasPrefix m "/" = true ->
  matchAt r (strings.len pre) (m ++ post) = Some a ->
  a !! 0%nat = Some (Some (strings.len pre, strings.len pre + strings.len m)%nat) ->
  ReplaceAllStringFunc r (pre ++ m ++ post) repl
  = let* new := repl m in Ok (pre ++ new ++ post).
Proof.
  intros Hr Hpre Hpost Hs Hm Ha.
  destruct m as [|c m']; [discriminate|].
  cbn [strings.HasPrefix] in Hs. rewrite andb_true_r in Hs.
  apply Ascii.eqb_eq in Hs. subst c.
  unfold ReplaceAllStringFunc. cbn [replaceAll].
  cbn [String.append] in *.
  rewrite (search_skip_slash r pre _ Hr Hpre 0). cbn [Nat.add].
  rewrite (search_here _ _ _ _ Hm), (bounds_0 _ _ Ha).
  set (text := pre ++ String "/" (m' ++ post)).
  assert (Et : text = pre ++ String "/" m' ++ post) by reflexivity.
  assert (S1 : slice 0 text 0 (strings.len pre) = pre).
  { unfold slice. rewrite Nat.sub_0_r. cbn [strings.drop]. apply take_app_len. }
  assert (S2 : slice 0 text (strings.len pre)
                 (strings.len pre + strings.len (String "/" m'))
               = String "/" m').
  { rewrite Et. apply slice_mid. }
  assert (S3 : strings.drop (strings.len pre + strings.len (String "/" m') - 0) text
               = post).
  { rewrite Nat.sub_0_r, <- drop_drop. rewrite Et, drop_app_len. apply drop_app_len. }
  rewrite S1, S2, S3.
  assert (H1 : (0 <? strings.len pre + strings.len (String "/" m'))%nat = true)
    by (apply Nat.ltb_lt; simpl; lia).
  rewrite H1. cbn [orb String.append].
  destruct (repl (String "/" m')) as [new|p]; cbn [bind]; [|reflexivity].
  rewrite (replaceAll_no_opener r repl Hr _ _ post "" _ Hpost). reflexivity.
Qed.

(** ** Matching a block *)

Lemma word_byte (c : ascii) :
  is_word c = true ->
  is_s c = false /\ strings.asciiSpace c = false
  /\ (forall d, strings.space2 c d = false)
  /\ (forall d e, strings.space3 c d e = false)
  /\ strings.mem_byte c " =!<>" = false
  /\ Ascii.eqb c "*" = false.
Proof.
  intros H.
  destruct c as [b0 b1 b2 b3 b4 b5 b6 b7];
    destruct b0, b1, b2, b3, b4, b5, b6, b7;
    first [ discriminate H
          | repeat split; intros; vm_compute; reflexivity ].
Qed.

Lemma star_class_zero {A : Type} (p : ascii -> bool)
    (K : nat -> string -> caps -> option A) fuel pos text cap :
  head_is p text = false ->
  star_loop true (exec (Chr p)) K fuel pos text cap = K pos text cap.
Proof.
  intros H. destruct fuel; [reflexivity|]. cbn [star_loop exec].
  destruct text as [|c text]; [reflexivity|].
  cbn [head_is] in H. rewrite H. reflexivity.
Qed.

Lemma star_iword_stop {A : Type} (w : string) (x : ascii) (r : string)
    (K : nat -> string -> caps -> option A) (a : A) :
  all_bytes is_word w = true ->
  is_word x = false -> (code x =? 197)%nat = false -> (code x =? 226)%nat = false ->
  forall fuel pos cap,
    (strings.len (w ++ String x r) <= fuel)%nat ->
    K (pos + strings.len w)%nat (String x r) cap = Some a ->
    star_loop true (exec iword) K fuel pos (w ++ String x r) cap = Some a.
Proof.
  intros Hw X1 X2 X3.
  induction w as [|c w IH]; intros fuel pos cap Hlen HK.
  - cbn [String.append strings.len String.length] in *.
    rewrite Nat.add_0_r in HK.
    destruct fuel as [|fuel]; cbn [star_loop]; [exact HK|].
    unfold iword, longS, kelvin, bytes3, bytes2. cbn [exec].
    rewrite X1, X2, X3. exact HK.
  - cbn [all_bytes] in Hw. apply andb_true_iff in Hw as [Hc Hw].
    cbn [String.append] in *.
    destruct fuel as [|fuel]; [simpl in Hlen; lia|].
    cbn [star_loop]. apply orelse_some.
    unfold iword. cbn [exec]. apply orelse_some. rewrite Hc.
    assert (Hlt : (pos <? S pos)%nat = true) by (apply Nat.ltb_lt; lia).
    rewrite Hlt. apply (IH Hw); [simpl in Hlen; lia|].
    rewrite <- HK. f_equal. simpl. lia.
Qed.

(** The lazy star over any byte stops at the first place where what
    follows the star matches. *)
Lemma star_lazy_any {A : Type} (K : nat -> string -> caps -> option A)
    (body rest : string) (cap : caps) (a : A) :
  forall pos fuel,
    (forall b1 b2, body = b1 ++ b2 -> b2 <> "" ->
       K (pos + strings.len b1)%nat (b2 ++ rest) cap = None) ->
    K (pos + strings.len body)%nat rest cap = Some a ->
    (strings.len body <= fuel)%nat ->
    star_loop false (exec any) K fuel pos (body ++ rest) cap = Some a.
Proof.
  induction body as [|c body IH]; intros pos fuel Hnone HK Hfuel.
  - cbn [String.append strings.len String.length] in *.
    rewrite Nat.add_0_r in HK.
    destruct fuel; cbn [star_loop]; [exact HK|]. rewrite HK. reflexivity.
  - destruct fuel as [|fuel]; [simpl in Hfuel; lia|].
    cbn [star_loop String.append].
    pose proof (Hnone "" (String c body) eq_refl ltac:(discriminate)) as H0.
    cbn [String.append strings.len String.length] in H0.
    rewrite Nat.add_0_r in H0. rewrite H0. cbn [orelse].
    unfold any. cbn [exec].
    assert (Hlt : (pos <? S pos)%nat = true) by (apply Nat.ltb_lt; lia).
    rewrite Hlt. apply IH.
    + intros b1 b2 E Hb2.
      replace (S pos + strings.len b1)%nat
        with (pos + strings.len (String c b1))%nat by (simpl; lia).
      apply Hnone; [rewrite E; reflexivity | exact Hb2].
    + rewrite <- HK. f_equal. simpl. lia.
    + simpl in Hfuel. lia.
Qed.

Lemma Contains_app_r (b1 b2 p : string) :
  p <> "" -> strings.Contains (b1 ++ b2) p = false -> strings.Contains b2 p = false.
Proof.
  intros Hp H.
  rewrite <- (drop_app_len b1 b2). apply Contains_drop_false; assumption.
Qed.

(** Inside a text without comment opener that is followed by a slash, no
    comment opener starts. *)
Lemma no_opener_inside (body b1 b2 r : string) :
  strings.Contains body "/*" = false ->
  body = b1 ++ b2 -> b2 <> "" ->
  strings.HasPrefix (b2 ++ String "/" r) "/*" = false.
Proof.
  intros H E Hb2. subst body.
  apply Contains_app_r in H; [|discriminate].
  destruct b2 as [|c [|d b2]]; [congruence| |].
  - cbn [String.append strings.HasPrefix]. rewrite andb_false_r. reflexivity.
  - apply Contains_tail in H as [P _]. exact P.
Qed.

Lemma exec_opener_fail {A : Type} (r : regex) (pos : nat) (text : string)
    (cap : caps) (K : nat -> string -> caps -> option A) :
  strings.HasPrefix text "/*" = false ->
  exec (Seq (chr "/") (Seq (chr "*") r)) pos text cap K = None.
Proof.
  intros H. unfold chr. cbn [exec].
  destruct text as [|c [|d text]]; try reflexivity.
  - destruct (Ascii.eqb "/" c); reflexivity.
  - cbn [strings.HasPrefix] in H. rewrite andb_true_r in H.
    rewrite (Ascii.eqb_sym "/" c), (Ascii.eqb_sym "*" d).
    destruct (Ascii.eqb c "/"); [|reflexivity].
    destruct (Ascii.eqb d "*"); [discriminate | reflexivity].
Qed.

Lemma exec_seq {A : Type} (r1 r2 : regex) pos rest cap
    (K : nat -> string -> caps -> option A) :
  exec (Seq r1 r2) pos rest cap K
  = exec r1 pos rest cap (fun pos1 rest1 cap1 => exec r2 pos1 rest1 cap1 K).
Proof. reflexivity. Qed.

Lemma exec_group {A : Type} (i : nat) (r1 : regex) pos rest cap
    (K : nat -> string -> caps -> option A) :
  exec (Group i r1) pos rest cap K
  = exec r1 pos rest cap
      (fun pos1 rest1 cap1 => K pos1 rest1 (<[i := Some (pos, pos1)]> cap1)).
Proof. reflexivity. Qed.

Lemma exec_star {A : Type} (g : bool) (r1 : regex) pos rest cap
    (K : nat -> string -> caps -> option A) :
  exec (Star g r1) pos rest cap K
  = star_loop g (exec r1) K (strings.len rest) pos rest cap.
Proof. reflexivity. Qed.

Lemma exec_chr_ok {A : Type} (c : ascii) pos rest cap
    (K : nat -> string -> caps -> option A) :
  exec (chr c) pos (String c rest) cap K = K (S pos) rest cap.
Proof. unfold chr. cbn [exec]. rewrite Ascii.eqb_refl. reflexivity. Qed.

Lemma exec_class_ok {A : Type} (p : ascii -> bool) (c : ascii) pos rest cap
    (K : nat -> string -> caps -> option A) :
  p c = true -> exec (Chr p) pos (String c rest) cap K = K (S pos) rest cap.
Proof. intros H. cbn [exec]. rewrite H. reflexivity. Qed.

Lemma exec_iword_ok {A : Type} (c : ascii) pos rest cap
    (K : nat -> string -> caps -> option A) (a : A) :
  is_word c = true -> K (S pos) rest cap = Some a ->
  exec iword pos (String c rest) cap K = Some a.
Proof.
  intros Hc HK. unfold iword. cbn [exec]. rewrite Hc, HK. reflexivity.
Qed.

Ltac exec_steps :=
  repeat first [ rewrite exec_seq | rewrite exec_chr_ok | rewrite exec_group
               | rewrite exec_star | progress cbv beta ].

Lemma exec_opt_closer {A : Type} (K : nat -> string -> caps -> option A)
    (pos : nat) (post : string) (cap : caps) :
  exec (Seq (lit "/*?") (Seq (Star true s_) (lit "*/"))) pos ("/*?*/" ++ post) cap K
  = K (5 + pos)%nat post cap.
Proof. reflexivity. Qed.

Lemma exec_opt_closer_fail {A : Type} (K : nat -> string -> caps -> option A)
    (pos : nat) (text : string) (cap : caps) :
  strings.HasPrefix text "/*" = false ->
  exec (Seq (lit "/*?") (Seq (Star true s_) (lit "*/"))) pos text cap K = None.
Proof.
  intros H. change (lit "/*?") with (Seq (chr "/") (Seq (chr "*") (chr "?"))).
  rewrite !exec_seq.
  exact (exec_opener_fail (chr "?") pos text cap _ H).
Qed.

Lemma exec_opt_body {A : Type} (K : nat -> string -> caps -> option A)
    (pos : nat) (body post : string) (cap : caps) (a : A) :
  strings.Contains body "/*" = false ->
  K (5 + (pos + strings.len body))%nat post
    (<[2%nat := Some (pos, (pos + strings.len body)%nat)]> cap) = Some a ->
  exec (Seq (Group 2 (Star false any))
            (Seq (lit "/*?") (Seq (Star true s_) (lit "*/"))))
       pos (body ++ "/*?*/" ++ post) cap K = Some a.
Proof.
  intros Hb HK.
  rewrite exec_seq, exec_group, exec_star.
  apply star_lazy_any.
  - intros b1 b2 E Hb2. apply exec_opt_closer_fail.
    exact (no_opener_inside body b1 b2 _ Hb E Hb2).
  - rewrite exec_opt_closer. exact HK.
  - rewrite len_app. lia.
Qed.

Lemma exec_block_keys {A : Type} (K : nat -> string -> caps -> option A)
    (pos : nat) (k rest : string) (cap : caps) (a : A) :
  identifier k = true ->
  K (6 + (pos + strings.len k))%nat rest
    (<[1%nat := Some ((3 + pos)%nat, (3 + pos + strings.len k)%nat)]> cap) = Some a ->
  exec reBlockKeys pos ("/*?" ++ k ++ "?*/" ++ rest) cap K = Some a.
Proof.
  intros Hk HK. destruct k as [|c w]; [discriminate|].
  cbn [identifier all_bytes] in Hk. apply andb_true_iff in Hk as [Hc Hw].
  destruct (word_byte c Hc) as (Cs & _).
  unfold reBlockKeys.
  change (lit "/*?") with (Seq (chr "/") (Seq (chr "*") (chr "?"))).
  change (lit "?*/") with (Seq (chr "?") (Seq (chr "*") (chr "/"))).
  unfold plus. cbn [String.append]. exec_steps.
  unfold s_ at 1. rewrite star_class_zero by (cbn [head_is]; exact Cs).
  exec_steps. apply exec_iword_ok; [exact Hc|]. exec_steps.
  apply star_iword_stop; [exact Hw | reflexivity | reflexivity | reflexivity
                         | rewrite len_app; lia |].
  exec_steps. unfold s_ at 1. rewrite star_class_zero by reflexivity.
  exec_steps.
  rewrite <- HK. f_equal.
  - unfold strings.len. simpl. lia.
  - do 3 f_equal. unfold strings.len. simpl. lia.
Qed.

Lemma matchAt_opt_block (k body post : string) (pos : nat) :
  identifier k = true -> strings.Contains body "/*" = false ->
  exists a,
    matchAt reOptBlock pos (opt_block k body ++ post) = Some a
    /\ a !! 0%nat = Some (Some (pos, pos + strings.len (opt_block k body)))%nat
    /\ a !! 1%nat = Some (Some (3 + pos, 3 + pos + strings.len k))%nat
    /\ a !! 2%nat
       = Some (Some (6 + (pos + strings.len k),
                     6 + (pos + strings.len k) + strings.len body))%nat.
Proof.
  intros Hk Hb.
  set (cap0 := replicate (S (ngroups reOptBlock)) (@None (nat * nat))).
  set (cap1 := <[1%nat := Some (3 + pos, 3 + pos + strings.len k)%nat]> cap0).
  set (p2 := (6 + (pos + strings.len k))%nat).
  set (cap2 := <[2%nat := Some (p2, (p2 + strings.len body)%nat)]> cap1).
  set (e := (5 + (p2 + strings.len body))%nat).
  exists (<[0%nat := Some (pos, e)]> cap2).
  assert (Hlen : (pos + strings.len (opt_block k body))%nat = e).
  { unfold e, p2, opt_block. rewrite !len_app. simpl. lia. }
  assert (L0 : length cap0 = 3%nat) by reflexivity.
  assert (L1 : length cap1 = 3%nat) by (unfold cap1; rewrite length_insert; exact L0).
  assert (L2 : length cap2 = 3%nat) by (unfold cap2; rewrite length_insert; exact L1).
  split; [|split; [|split]].
  - unfold matchAt. fold cap0. unfold reOptBlock, opt_block.
    rewrite !app_assoc. rewrite exec_seq.
    apply exec_block_keys; [exact Hk|]. fold cap1. fold p2.
    apply exec_opt_body; [exact Hb|]. reflexivity.
  - rewrite Hlen. apply list_lookup_insert_eq. lia.
  - rewrite list_lookup_insert_ne by lia. unfold cap2.
    rewrite list_lookup_insert_ne by lia. unfold cap1.
    apply list_lookup_insert_eq. lia.
  - rewrite list_lookup_insert_ne by lia. unfold cap2.
    apply list_lookup_insert_eq. lia.
Qed.

Lemma TrimSpace_word (k : string) :
  all_bytes is_word k = true -> strings.TrimSpace k = k.
Proof.
  intros H. unfold strings.TrimSpace.
  assert (Hl : strings.TrimLeftSpace k = k).
  { apply TrimLeftSpace_fixed. destruct k as [|c k]; [reflexivity|].
    cbn [all_bytes] in H. apply andb_true_iff in H as [Hc _].
    destruct (word_byte c Hc) as (_ & W1 & W2 & W3 & _).
    cbn [lead_space]. rewrite W1.
    destruct k as [|c2 [|c3 k]]; rewrite ?W2, ?W3; reflexivity. }
  rewrite Hl. clear Hl.
  induction k as [|c k IH]; [reflexivity|].
  cbn [all_bytes] in H. apply andb_true_iff in H as [Hc H].
  destruct (word_byte c Hc) as (_ & W1 & W2 & W3 & _).
  cbn [strings.TrimRightSpace]. rewrite (IH H).
  destruct k as [|c2 [|c3 [|c4 k]]]; cbn [strings.isSpaceRune];
    rewrite ?W1, ?W2, ?W3; reflexivity.
Qed.

Lemma Contains_app_l (a b p : string) :
  strings.Contains (a ++ b) p = false -> strings.Contains a p = false.
Proof.
  destruct p as [|x p].
  { intros H. exfalso. destruct (a ++ b); discriminate H. }
  induction a as [|c a IH]; intros H; [reflexivity|].
  cbn [String.append] in H. apply Contains_tail in H as [P H].
  unfold strings.Contains. cbn [strings.Index].
  destruct (strings.HasPrefix (String c a) (String x p)) eqn:E.
  - apply (HasPrefix_app _ b) in E. cbn [String.append] in E. congruence.
  - specialize (IH H). unfold strings.Contains in IH.
    destruct (strings.Index a (String x p)); [discriminate | reflexivity].
Qed.

Lemma optBlock_opt_block (ps : params) (k body : string) :
  identifier k = true -> strings.Contains body "/*" = false ->
  optBlock ps (opt_block k body)
  = Ok (if isTruthy (get ps k) then body else "").
Proof.
  intros Hk Hb.
  destruct (matchAt_opt_block k body "" 0 Hk Hb) as (a & Hm & A0 & A1 & A2).
  rewrite app_nil_r in Hm.
  pose proof (search_match_of _ _ _ _ (search_here _ _ _ _ Hm)) as [Hn _].
  unfold optBlock, FindStringSubmatch, index.
  rewrite (search_here _ _ _ _ Hm).
  change (ngroups reOptBlock) with 2%nat in Hn. rewrite Hn. cbn [Nat.ltb Nat.leb].
  unfold submatches. rewrite !lookup_map, A1, A2. cbn [option_map bind].
  assert (S1 : slice 0 (opt_block k body) (3 + 0) (3 + 0 + strings.len k) = k).
  { change (3 + 0)%nat with (strings.len "/*?").
    change (opt_block k body) with ("/*?" ++ k ++ ("?*/" ++ body ++ "/*?*/")).
    apply slice_mid. }
  assert (S2 : slice 0 (opt_block k body) (6 + (0 + strings.len k))
                 (6 + (0 + strings.len k) + strings.len body) = body).
  { assert (La : strings.len (("/*?" ++ k) ++ "?*/") = (6 + (0 + strings.len k))%nat)
      by (rewrite !len_app; simpl; lia).
    rewrite <- La.
    replace (opt_block k body) with ((("/*?" ++ k) ++ "?*/") ++ body ++ "/*?*/")
      by (unfold opt_block; rewrite !app_assoc; reflexivity).
    apply slice_mid. }
  rewrite S1, S2.
  destruct k as [|c w]; [discriminate|].
  rewrite TrimSpace_word by exact Hk.
  destruct (isTruthy _); reflexivity.
Qed.

(** An optional block in a text that has no other directive: the body of
    the block takes its place when the parameter of its key is truthy, and
    nothing when it is not; the text is then normalised for white
    space. *)
Theorem render_optional_block (pre k body post : string) (ps : params) :
  identifier k = true ->
  strings.Contains (pre ++ body ++ post) "/*" = false ->
  strings.Contains (pre ++ post) "/*" = false ->
  renderNyanSQL (pre ++ opt_block k body ++ post) ps
  = Ok (strings.TrimSpace
          (normalizeWhitespace
             (pre ++ (if isTruthy (get ps k) then body else "") ++ post))).
Proof.
  intros Hk H1 H2.
  pose proof (Contains_app_l _ _ _ H2) as Hpre.
  pose proof (Contains_app_r _ _ "/*" ltac:(discriminate) H2) as Hpost.
  pose proof (Contains_app_l _ _ _
                (Contains_app_r _ _ "/*" ltac:(discriminate) H1)) as Hbody.
  destruct (matchAt_opt_block k body post (strings.len pre) Hk Hbody)
    as (a & Hm & A0 & _).
  unfold renderNyanSQL.
  assert (E1 : ReplaceAllStringFunc reOptBlock (pre ++ opt_block k body ++ post)
                 (optBlock ps)
               = Ok (pre ++ (if isTruthy (get ps k) then body else "") ++ post)).
  { rewrite (ReplaceAll_single reOptBlock (optBlock ps) pre _ post a);
      auto.
    rewrite (optBlock_opt_block ps k body Hk Hbody). reflexivity. }
  rewrite E1. cbn [bind].
  assert (Hc : strings.Contains
                 (pre ++ (if isTruthy (get ps k) then body else "") ++ post) "/*"
               = false)
    by (destruct (isTruthy (get ps k)); assumption).
  unfold ReplaceAllStringFunc.
  rewrite (replaceAll_no_opener reIfBlock) by auto. cbn [bind String.append].
  rewrite (replaceAll_no_opener reBeginEnd) by auto. cbn [bind String.append].
  rewrite (replaceAll_no_opener reParam) by auto 6. reflexivity.
Qed.

Lemma render_optional_block_witness :
  renderNyanSQL ("SELECT 1 " ++ opt_block "k" "WHERE a = 1" ++ "")
                {[ "k" := VBool true ]}
  = Ok "SELECT 1 WHERE a = 1".
Proof.
  apply (render_optional_block "SELECT 1 " "k" "WHERE a = 1" "");
    reflexivity.
Defined.

(** ** Matching an if-block *)

(** The lazy star over a class of bytes stops at the first place where
    what follows the star matches. *)
Lemma star_lazy_class {A : Type} (p : ascii -> bool)
    (K : nat -> string -> caps -> option A)
    (w rest : string) (cap : caps) (a : A) :
  all_bytes p w = true ->
  forall pos fuel,
    (forall b1 b2, w = b1 ++ b2 -> b2 <> "" ->
       K (pos + strings.len b1)%nat (b2 ++ rest) cap = None) ->
    K (pos + strings.len w)%nat rest cap = Some a ->
    (strings.len w <= fuel)%nat ->
    star_loop false (exec (Chr p)) K fuel pos (w ++ rest) cap = Some a.
Proof.
  induction w as [|c w IH]; intros Hw pos fuel Hnone HK Hfuel.
  - cbn [String.append strings.len String.length] in *.
    rewrite Nat.add_0_r in HK.
    destruct fuel; cbn [star_loop]; [exact HK|]. rewrite HK. reflexivity.
  - cbn [all_bytes] in Hw. apply andb_true_iff in Hw as [Hc Hw].
    destruct fuel as [|fuel]; [simpl in Hfuel; lia|].
    cbn [star_loop String.append].
    pose proof (Hnone "" (String c w) eq_refl ltac:(discriminate)) as H0.
    cbn [String.append strings.len String.length] in H0.
    rewrite Nat.add_0_r in H0. rewrite H0. cbn [orelse exec]. rewrite Hc.
    assert (Hlt : (pos <? S pos)%nat = true) by (apply Nat.ltb_lt; lia).
    rewrite Hlt. apply (IH Hw).
    + intros b1 b2 E Hb2.
      replace (S pos + strings.len b1)%nat
        with (pos + strings.len (String c b1))%nat by (simpl; lia).
      apply Hnone; [rewrite E; reflexivity | exact Hb2].
    + rewrite <- HK. f_equal. simpl. lia.
    + simpl in Hfuel. lia.
Qed.

Lemma exec_block_end {A : Type} (K : nat -> string -> caps -> option A)
    (pos : nat) (post : string) (cap : caps) (a : A) :
  K (7 + pos)%nat post cap = Some a ->
  exec block_end pos ("/*END*/" ++ post) cap K = Some a.
Proof.
  intros HK. unfold block_end.
  change (exec (Seq (lit "/*") (Seq (Alt (ilit "END") (Alt (ilit "ENDIF") (ilit "FI")))
                                    (lit "*/")))
               pos ("/*END*/" ++ post) cap K)
    with (orelse (K (7 + pos)%nat post cap)
            (exec (Seq (Alt (ilit "ENDIF") (ilit "FI")) (lit "*/"))
                  (2 + pos)%nat ("END*/" ++ post) cap K)).
  apply orelse_some. exact HK.
Qed.

Lemma exec_block_end_fail {A : Type} (K : nat -> string -> caps -> option A)
    (pos : nat) (text : string) (cap : caps) :
  strings.HasPrefix text "/*" = false ->
  exec block_end pos text cap K = None.
Proof.
  intros H. unfold block_end.
  change (lit "/*") with (Seq (chr "/") (chr "*")).
  rewrite !exec_seq.
  exact (exec_opener_fail Eps pos text cap _ H).
Qed.

Lemma exec_if_body {A : Type} (K : nat -> string -> caps -> option A)
    (pos : nat) (body post : string) (cap : caps) (a : A) :
  strings.Contains body "/*" = false ->
  K (7 + (pos + strings.len body))%nat post
    (<[2%nat := Some (pos, (pos + strings.len body)%nat)]> cap) = Some a ->
  exec (Seq (Group 2 (Star false any)) block_end)
       pos (body ++ "/*END*/" ++ post) cap K = Some a.
Proof.
  intros Hb HK.
  rewrite exec_seq, exec_group, exec_star.
  apply star_lazy_any.
  - intros b1 b2 E Hb2. apply exec_block_end_fail.
    exact (no_opener_inside body b1 b2 _ Hb E Hb2).
  - apply exec_block_end. exact HK.
  - rewrite len_app. lia.
Qed.

Lemma exec_if_head {A : Type} (K : nat -> string -> caps -> option A)
    (pos : nat) (k rest : string) (cap : caps) (a : A) :
  identifier k = true ->
  K (7 + (pos + strings.len k))%nat rest
    (<[1%nat := Some ((5 + pos)%nat, (5 + pos + strings.len k)%nat)]> cap) = Some a ->
  exec reIfHead pos ("/*IF " ++ k ++ "*/" ++ rest) cap K = Some a.
Proof.
  intros Hk HK. destruct k as [|c w]; [discriminate|].
  cbn [identifier all_bytes] in Hk. apply andb_true_iff in Hk as [Hc Hw].
  destruct (word_byte c Hc) as (Cs & _ & _ & _ & _ & Cn).
  unfold reIfHead.
  change (exec (Seq (lit "/*") (Seq (ilit "IF") (Seq (plus s_)
                 (Seq (Group 1 (plus_lazy (notchr "*"))) (lit "*/")))))
               pos ("/*IF " ++ String c w ++ "*/" ++ rest) cap K)
    with (star_loop true (exec s_)
            (fun pos1 rest1 cap1 =>
               exec (Seq (Group 1 (plus_lazy (notchr "*"))) (lit "*/"))
                    pos1 rest1 cap1 K)
            (strings.len (String c w ++ "*/" ++ rest))
            (5 + pos)%nat (String c w ++ "*/" ++ rest) cap).
  unfold s_ at 1. rewrite star_class_zero by (cbn [String.append head_is]; exact Cs).
  unfold plus_lazy, notchr. cbn [String.append].
  rewrite exec_seq, exec_group, exec_seq.
  rewrite exec_class_ok by (rewrite Ascii.eqb_sym, Cn; reflexivity).
  rewrite exec_star.
  apply star_lazy_class.
  - clear -Hw. induction w as [|d w IH]; [reflexivity|].
    cbn [all_bytes] in *. apply andb_true_iff in Hw as [Hd Hw].
    destruct (word_byte d Hd) as (_ & _ & _ & _ & _ & Dn).
    rewrite Ascii.eqb_sym, Dn. exact (IH Hw).
  - intros b1 b2 E Hb2. cbv beta.
    destruct b2 as [|d b2]; [congruence|].
    assert (Hd : is_word d = true).
    { rewrite E in Hw. rewrite all_bytes_app in Hw.
      apply andb_true_iff in Hw as [_ Hw]. cbn [all_bytes] in Hw.
      apply andb_true_iff in Hw as [Hd _]. exact Hd. }
    destruct (word_byte d Hd) as (_ & _ & _ & _ & _ & Dn).
    change (lit "*/") with (Seq (chr "*") (chr "/")).
    rewrite exec_seq. unfold chr at 1. cbn [exec String.append].
    rewrite Ascii.eqb_sym, Dn. reflexivity.
  - cbv beta. change (lit "*/") with (Seq (chr "*") (chr "/")).
    cbn [String.append]. exec_steps.
    rewrite <- HK. f_equal.
    + unfold strings.len. simpl. lia.
    + do 3 f_equal. unfold strings.len. simpl. lia.
  - rewrite len_app. lia.
Qed.

Lemma matchAt_if_block (k body post : string) (pos : nat) :
  identifier k = true -> strings.Contains body "/*" = false ->
  exists a,
    matchAt reIfBlock pos (if_block k body ++ post) = Some a
    /\ a !! 0%nat = Some (Some (pos, pos + strings.len (if_block k body)))%nat
    /\ a !! 1%nat = Some (Some (5 + pos, 5 + pos + strings.len k))%nat
    /\ a !! 2%nat
       = Some (Some (7 + (pos + strings.len k),
                     7 + (pos + strings.len k) + strings.len body))%nat.
Proof.
  intros Hk Hb.
  set (cap0 := replicate (S (ngroups reIfBlock)) (@None (nat * nat))).
  set (cap1 := <[1%nat := Some (5 + pos, 5 + pos + strings.len k)%nat]> cap0).
  set (p2 := (7 + (pos + strings.len k))%nat).
  set (cap2 := <[2%nat := Some (p2, (p2 + strings.len body)%nat)]> cap1).
  set (e := (7 + (p2 + strings.len body))%nat).
  exists (<[0%nat := Some (pos, e)]> cap2).
  assert (Hlen : (pos + strings.len (if_block k body))%nat = e).
  { unfold e, p2, if_block. rewrite !len_app. simpl. lia. }
  assert (L0 : length cap0 = 3%nat) by reflexivity.
  assert (L1 : length cap1 = 3%nat) by (unfold cap1; rewrite length_insert; exact L0).
  assert (L2 : length cap2 = 3%nat) by (unfold cap2; rewrite length_insert; exact L1).
  split; [|split; [|split]].
  - unfold matchAt. fold cap0. unfold reIfBlock, if_block.
    rewrite !app_assoc. rewrite exec_seq.
    apply exec_if_head; [exact Hk|]. fold cap1. fold p2.
    apply exec_if_body; [exact Hb|]. reflexivity.
  - rewrite Hlen. apply list_lookup_insert_eq. lia.
  - rewrite list_lookup_insert_ne by lia. unfold cap2.
    rewrite list_lookup_insert_ne by lia. unfold cap1.
    apply list_lookup_insert_eq. lia.
  - rewrite list_lookup_insert_ne by lia. unfold cap2.
    apply list_lookup_insert_eq. lia.
Qed.

Lemma evalCondFlexible_key (k : string) (ps : params) :
  identifier k = true -> evalCondFlexible k ps = Ok (isTruthy (get ps k)).
Proof.
  intros Hk. destruct k as [|c w]; [discriminate|].
  cbn [identifier] in Hk. unfold evalCondFlexible.
  rewrite TrimSpace_word by exact Hk.
  assert (H : strings.ContainsAny (String c w) " =!<>" = false).
  { clear -Hk. induction (String c w) as [|d s IH]; [reflexivity|].
    cbn [all_bytes] in Hk. apply andb_true_iff in Hk as [Hd Hs].
    destruct (word_byte d Hd) as (_ & _ & _ & _ & Dm & _).
    cbn [strings.ContainsAny]. rewrite Dm. exact (IH Hs). }
  rewrite H. reflexivity.
Qed.

Lemma ifBlock_if_block (ps : params) (k body : string) :
  identifier k = true -> strings.Contains body "/*" = false ->
  ifBlock ps (if_block k body)
  = Ok (if isTruthy (get ps k) then body else "").
Proof.
  intros Hk Hb.
  destruct (matchAt_if_block k body "" 0 Hk Hb) as (a & Hm & A0 & A1 & A2).
  rewrite app_nil_r in Hm.
  pose proof (search_match_of _ _ _ _ (search_here _ _ _ _ Hm)) as [Hn _].
  unfold ifBlock, FindStringSubmatch, index.
  rewrite (search_here _ _ _ _ Hm).
  change (ngroups reIfBlock) with 2%nat in Hn. rewrite Hn. cbn [Nat.ltb Nat.leb].
  unfold submatches. rewrite !lookup_map, A1, A2. cbn [option_map bind].
  assert (S1 : slice 0 (if_block k body) (5 + 0) (5 + 0 + strings.len k) = k).
  { change (5 + 0)%nat with (strings.len "/*IF ").
    change (if_block k body) with ("/*IF " ++ k ++ ("*/" ++ body ++ "/*END*/")).
    apply slice_mid. }
  assert (S2 : slice 0 (if_block k body) (7 + (0 + strings.len k))
                 (7 + (0 + strings.len k) + strings.len body) = body).
  { assert (La : strings.len (("/*IF " ++ k) ++ "*/") = (7 + (0 + strings.len k))%nat)
      by (rewrite !len_app; simpl; lia).
    rewrite <- La.
    replace (if_block k body) with ((("/*IF " ++ k) ++ "*/") ++ body ++ "/*END*/")
      by (unfold if_block; rewrite !app_assoc; reflexivity).
    apply slice_mid. }
  rewrite S1, S2.
  assert (Hk' : all_bytes is_word k = true)
    by (destruct k; [discriminate | exact Hk]).
  rewrite TrimSpace_word by exact Hk'.
  rewrite (evalCondFlexible_key k ps Hk). cbn [bind].
  destruct (isTruthy _); reflexivity.
Qed.

(** A match of the pattern of the optional blocks starts with the opener
    of an optional block. *)
Lemma lang_opt_opener (w : string) :
  lang reOptBlock w -> strings.HasPrefix w "/*?" = true.
Proof.
  intros H.
  apply lang_seq_inv in H as (w1 & w2 & -> & H & _).
  apply lang_seq_inv in H as (v1 & v2 & -> & H & _).
  change (lit "/*?") with (Seq (chr "/") (Seq (chr "*") (chr "?"))) in H.
  apply lang_seq_inv in H as (a & b & -> & Ha & H).
  apply lang_seq_inv in H as (c & d & -> & Hc & Hd).
  apply lang_chr_inv in Ha, Hc, Hd. subst. reflexivity.
Qed.

Lemma replaceAll_no_opt_opener (repl : string -> result string) :
  forall fuel pos rest pending lastEnd,
    strings.Contains rest "/*?" = false ->
    replaceAll fuel reOptBlock repl pos rest pending lastEnd = Ok (pending ++ rest).
Proof.
  intros fuel pos rest pending lastEnd Hc.
  destruct fuel as [|fuel]; [reflexivity|]. cbn [replaceAll].
  destruct (search reOptBlock pos rest) as [a|] eqn:Es; [|reflexivity].
  destruct (bounds a 0) as [[lo hi]|] eqn:Eb; [|reflexivity].
  exfalso.
  pose proof (lang_opt_opener _
                (search_lang reOptBlock pos rest a lo hi eq_refl Es Eb)) as Hp.
  unfold slice in Hp. apply HasPrefix_take in Hp.
  apply Contains_drop in Hp; [congruence | discriminate].
Qed.

(** An if-block on a bare key, in a text that has no other directive and
    no opener of an optional block: the body of the block takes its place
    when the parameter of the key is truthy, and nothing when it is not;
    the text is then normalised for white space. *)
Theorem render_if_block (pre k body post : string) (ps : params) :
  identifier k = true ->
  strings.Contains (pre ++ if_block k body ++ post) "/*?" = false ->
  strings.Contains (pre ++ body ++ post) "/*" = false ->
  strings.Contains (pre ++ post) "/*" = false ->
  renderNyanSQL (pre ++ if_block k body ++ post) ps
  = Ok (strings.TrimSpace
          (normalizeWhitespace
             (pre ++ (if isTruthy (get ps k) then body else "") ++ post))).
Proof.
  intros Hk H0 H1 H2.
  pose proof (Contains_app_l _ _ _ H2) as Hpre.
  pose proof (Contains_app_r _ _ "/*" ltac:(discriminate) H2) as Hpost.
  pose proof (Contains_app_l _ _ _
                (Contains_app_r _ _ "/*" ltac:(discriminate) H1)) as Hbody.
  destruct (matchAt_if_block k body post (strings.len pre) Hk Hbody)
    as (a & Hm & A0 & _).
  unfold renderNyanSQL.
  unfold ReplaceAllStringFunc at 1.
  rewrite (replaceAll_no_opt_opener _ _ _ _ _ _ H0). cbn [bind String.append].
  assert (E1 : ReplaceAllStringFunc reIfBlock (pre ++ if_block k body ++ post)
                 (ifBlock ps)
               = Ok (pre ++ (if isTruthy (get ps k) then body else "") ++ post)).
  { rewrite (ReplaceAll_single reIfBlock (ifBlock ps) pre _ post a);
      auto.
    rewrite (ifBlock_if_block ps k body Hk Hbody). reflexivity. }
  rewrite E1. cbn [bind].
  assert (Hc : strings.Contains
                 (pre ++ (if isTruthy (get ps k) then body else "") ++ post) "/*"
               = false)
    by (destruct (isTruthy (get ps k)); assumption).
  unfold ReplaceAllStringFunc.
  rewrite (replaceAll_no_opener reBeginEnd) by auto. cbn [bind String.append].
  rewrite (replaceAll_no_opener reParam) by auto 6. reflexivity.
Qed.

Lemma render_if_block_witness :
  renderNyanSQL ("SELECT 1 " ++ if_block "k" "WHERE a = 1" ++ "")
                {[ "k" := VString " " ]}
  = Ok "SELECT 1".
Proof.
  rewrite (render_if_block "SELECT 1 " "k" "WHERE a = 1" "") by reflexivity.
  vm_compute. reflexivity.
Defined.

(** ** Names of tests *)

Section Squash.

Variable p : ascii -> bool.
Variable r : ascii.

Lemma matchAt_plus_class (pos : nat) (rest : string) :
  matchAt (plus (Chr p)) pos rest =
  match rest with
  | String c rest' =>
      if p c then Some [Some (pos, (S pos + span p rest')%nat)] else None
  | "" => None
  end.
Proof.
  destruct rest as [|c rest']; [reflexivity|].
  change (matchAt (plus (Chr p)) pos (String c rest'))
    with (if p c
          then star_loop true (exec (Chr p))
                 (fun pos1 _ cap1 => Some (<[0%nat := Some (pos, pos1)]> cap1))
                 (strings.len rest') (S pos) rest' [None]
          else None).
  destruct (p c); [|reflexivity].
  rewrite star_class_greedy; [reflexivity | eauto | lia].
Qed.

Lemma search_plus_class (pos : nat) (rest : string) :
  search (plus (Chr p)) pos rest =
  match find p rest with
  | Some n =>
      Some [Some ((pos + n)%nat,
                  (pos + n + span p (strings.drop n rest))%nat)]
  | None => None
  end.
Proof.
  revert pos. induction rest as [|c rest' IH]; intros pos; cbn [search];
    rewrite matchAt_plus_class; [reflexivity|].
  cbn [find]. destruct (p c) eqn:Hc.
  - cbn [strings.drop span]. rewrite Hc, Nat.add_0_r. do 4 f_equal; lia.
  - rewrite IH. destruct (find p rest') as [n|]; cbn [option_map strings.drop];
      [|reflexivity].
    do 4 f_equal; lia.
Qed.

Lemma squash_go_true (s : string) :
  squash_go p r true s = squash p r (strings.drop (span p s) s).
Proof.
  induction s as [|c s IH]; simpl; [reflexivity|].
  destruct (p c) eqn:Hc; simpl; [exact IH|].
  unfold squash. simpl. rewrite Hc. reflexivity.
Qed.

Lemma squash_find_none (s : string) : find p s = None -> squash p r s = s.
Proof.
  unfold squash. induction s as [|c s IH]; simpl; [reflexivity|].
  destruct (p c); [discriminate|].
  destruct (find p s); [discriminate|]. intros _. rewrite IH; reflexivity.
Qed.

Lemma squash_find_some (s : string) (n : nat) :
  find p s = Some n ->
  squash p r s
  = strings.take n s ++ String r ""
    ++ squash p r (strings.drop (n + span p (strings.drop n s)) s).
Proof.
  unfold squash. revert n. induction s as [|c s IH]; intros n; simpl;
    [discriminate|].
  destruct (p c) eqn:Hc.
  - intros [= <-]. simpl. rewrite Hc. simpl. rewrite squash_go_true. reflexivity.
  - destruct (find p s) as [m|]; simpl; [|discriminate].
    intros [= <-]. simpl. rewrite (IH m eq_refl). reflexivity.
Qed.

Lemma replaceAll_plus_class (fuel : nat) :
  forall pos rest lastEnd,
    (strings.len rest < fuel)%nat -> (lastEnd <= pos)%nat ->
    replaceAll fuel (plus (Chr p)) (fun _ => Ok (String r "")) pos rest "" lastEnd
    = Ok (squash p r rest).
Proof.
  induction fuel as [|fuel IH]; intros pos rest lastEnd Hlen Hle; [lia|].
  cbn [replaceAll]. rewrite search_plus_class.
  destruct (find p rest) as [n|] eqn:Hf.
  - pose proof (find_lt _ _ _ Hf) as Hn. pose proof (find_span _ _ _ Hf) as Hm.
    unfold bounds. simpl.
    set (m := span p (strings.drop n rest)) in *.
    assert (E1 : ((lastEnd <? pos + n + m) || (pos + n =? 0))%nat = true)
      by (apply orb_true_iff; left; apply Nat.ltb_lt; lia).
    assert (E2 : (pos <? pos + n + m)%nat = true) by (apply Nat.ltb_lt; lia).
    rewrite E1, E2. simpl.
    rewrite IH by (rewrite ?len_drop; lia).
    simpl. f_equal. rewrite (squash_find_some _ _ Hf). fold m.
    unfold slice.
    replace (pos - pos)%nat with 0%nat by lia.
    replace (pos + n - pos)%nat with n by lia.
    replace (pos + n + m - pos)%nat with (n + m)%nat by lia.
    reflexivity.
  - simpl. rewrite (squash_find_none _ Hf). reflexivity.
Qed.

Lemma ReplaceAllString_plus_class (s : string) :
  ReplaceAllString (plus (Chr p)) s (String r "") = squash p r s.
Proof.
  unfold ReplaceAllString, ReplaceAllStringFunc.
  rewrite replaceAll_plus_class by lia. reflexivity.
Qed.

Lemma squash_go_bytes (Q : ascii -> bool) (s : string) :
  Q r = true -> (forall c, p c = false -> Q c = true) ->
  forall b, all_bytes Q (squash_go p r b s) = true.
Proof.
  intros Hr HQ. induction s as [|c s IH]; intros b; [reflexivity|].
  cbn [squash_go]. destruct (p c) eqn:Hc.
  - destruct b; [apply IH|]. cbn [all_bytes]. rewrite Hr. apply IH.
  - cbn [all_bytes]. rewrite (HQ c Hc). apply IH.
Qed.

End Squash.

Lemma TrimLeft_bytes (Q : ascii -> bool) (s cs : string) :
  all_bytes Q s = true -> all_bytes Q (TrimLeft s cs) = true.
Proof.
  induction s as [|c s IH]; [reflexivity|]. intros H.
  cbn [TrimLeft]. destruct (strings.mem_byte c cs); [|exact H].
  cbn [all_bytes] in H. apply andb_true_iff in H as [_ H]. exact (IH H).
Qed.

Lemma TrimRight_bytes (Q : ascii -> bool) (s cs : string) :
  all_bytes Q s = true -> all_bytes Q (TrimRight s cs) = true.
Proof.
  induction s as [|c s IH]; [reflexivity|]. intros H.
  cbn [all_bytes] in H. apply andb_true_iff in H as [Hc H].
  cbn [TrimRight]. specialize (IH H).
  destruct (TrimRight s cs) as [|d t].
  - destruct (strings.mem_byte c cs); [reflexivity|].
    cbn [all_bytes]. rewrite Hc. reflexivity.
  - cbn [all_bytes] in *. rewrite Hc. exact IH.
Qed.

Lemma TrimLeft_head (s cs : string) :
  head_is (fun c => strings.mem_byte c cs) (TrimLeft s cs) = false.
Proof.
  induction s as [|c s IH]; [reflexivity|].
  cbn [TrimLeft]. destruct (strings.mem_byte c cs) eqn:E; [exact IH|].
  cbn [head_is]. exact E.
Qed.

Lemma TrimRight_head (P : ascii -> bool) (s cs : string) :
  head_is P s = false -> head_is P (TrimRight s cs) = false.
Proof.
  destruct s as [|c s]; [reflexivity|]. cbn [head_is TrimRight]. intros H.
  destruct (TrimRight s cs).
  - destruct (strings.mem_byte c cs); [reflexivity | exact H].
  - exact H.
Qed.

Lemma HasPrefix_head (s : string) (x : ascii) :
  strings.HasPrefix s (String x "") = head_is (fun c => Ascii.eqb c x) s.
Proof.
  destruct s as [|c s]; [reflexivity|].
  cbn [strings.HasPrefix head_is]. apply andb_true_r.
Qed.

Lemma HasSuffix_last (s : string) (x : ascii) :
  strings.HasSuffix s (String x "") = true -> exists t, s = t ++ String x "".
Proof.
  unfold strings.HasSuffix. intros H. apply andb_true_iff in H as [H1 H2].
  apply Nat.leb_le in H1. apply String.eqb_eq in H2.
  set (n := (strings.len s - strings.len (String x ""))%nat) in *.
  exists (strings.take n s). rewrite <- H2. symmetry. apply take_drop.
Qed.

Lemma TrimRight_last (t cs : string) (x : ascii) :
  strings.mem_byte x cs = true -> forall s, TrimRight s cs <> t ++ String x "".
Proof.
  intros Hx. induction t as [|d t IH]; intros s.
  - cbn [String.append]. destruct s as [|c s]; [discriminate|].
    cbn [TrimRight]. destruct (TrimRight s cs) as [|e u] eqn:E.
    + destruct (strings.mem_byte c cs) eqn:Ec; [discriminate|].
      intros [= ->]. congruence.
    + discriminate.
  - cbn [String.append]. destruct s as [|c s]; [discriminate|].
    cbn [TrimRight]. destruct (TrimRight s cs) as [|e u] eqn:E.
    + destruct (strings.mem_byte c cs); [discriminate|].
      intros [= -> H]. destruct t; discriminate H.
    + intros [= -> H]. apply (IH s). rewrite E. exact H.
Qed.

(** The name that [safeName] gives is not empty, has only lower-case
    letters, digits, underscores and hyphens, and neither starts nor ends
    with an underscore or a hyphen, whatever the text and whatever
    [strings.ToLower] makes of it. *)
Theorem safeName_shape (ToLower : string -> string) (s : string) :
  let n := safeName ToLower s in
  n <> ""
  /\ all_bytes name_byte n = true
  /\ strings.HasPrefix n "_" = false /\ strings.HasPrefix n "-" = false
  /\ strings.HasSuffix n "_" = false /\ strings.HasSuffix n "-" = false.
Proof.
  cbv zeta. unfold safeName.
  change "_" with (String "_"%char "") at 1.
  unfold reUnsafe. rewrite ReplaceAllString_plus_class.
  set (t := squash unsafe_byte "_" (ToLower s)).
  assert (Ht : all_bytes name_byte t = true).
  { apply squash_go_bytes; [reflexivity|].
    intros c Hc. unfold unsafe_byte in Hc. apply negb_false_iff in Hc. exact Hc. }
  destruct (String.eqb (Trim t "_-") "") eqn:E.
  { repeat split; try reflexivity. discriminate. }
  apply String.eqb_neq in E.
  assert (Hh : head_is (fun c => strings.mem_byte c "_-") (Trim t "_-") = false)
    by (apply TrimRight_head, TrimLeft_head).
  split; [exact E|]. split; [apply TrimRight_bytes, TrimLeft_bytes, Ht|].
  split; [|split; [|split]].
  - rewrite HasPrefix_head. destruct (Trim t "_-") as [|c u]; [reflexivity|].
    cbn [head_is strings.mem_byte] in *.
    destruct (Ascii.eqb c "_"); [discriminate Hh | reflexivity].
  - rewrite HasPrefix_head. destruct (Trim t "_-") as [|c u]; [reflexivity|].
    cbn [head_is strings.mem_byte] in *.
    destruct (Ascii.eqb c "-"); [|reflexivity].
    rewrite orb_true_r in Hh. discriminate Hh.
  - destruct (strings.HasSuffix (Trim t "_-") "_") eqn:Hs; [|reflexivity].
    apply HasSuffix_last in Hs as [u Hu].
    exfalso. exact (TrimRight_last u "_-" "_" eq_refl _ Hu).
  - destruct (strings.HasSuffix (Trim t "_-") "-") eqn:Hs; [|reflexivity].
    apply HasSuffix_last in Hs as [u Hu].
    exfalso. exact (TrimRight_last u "_-" "-" eq_refl _ Hu).
Qed.

(** ** The fields of a line *)

Lemma rev_app_app (s t : string) : String.rev_app s t = String.rev s ++ t.
Proof.
  unfold String.rev. revert t. induction s as [|c s IH]; intros t; [reflexivity|].
  cbn [String.rev_app]. rewrite (IH (String c t)), (IH (String c "")).
  rewrite app_assoc. reflexivity.
Qed.

Lemma rev_cons (c : ascii) (s : string) :
  String.rev (String c s) = String.rev s ++ String c "".
Proof. unfold String.rev at 1. cbn [String.rev_app]. apply rev_app_app. Qed.

Lemma Fields_go_nospace (cur : option string) (c : ascii) (s : string) :
  lead_space (String c s) = false ->
  strings.Fields_go cur (String c s) = strings.Fields_go (strings.push c cur) s.
Proof.
  destruct s as [|c2 [|c3 s]]; cbn [lead_space strings.Fields_go]; intros H;
    repeat (apply orb_false_iff in H as [? H]);
    repeat match goal with E : _ = false |- _ => rewrite E; clear E end;
    try rewrite H; reflexivity.
Qed.

Lemma Fields_go_space (cur : option string) (s : string) :
  lead_space s = true ->
  exists k, (1 <= k)%nat
            /\ strings.Fields_go cur s
               = (strings.flush cur ++ strings.Fields_go None (strings.drop k s))%list.
Proof.
  destruct s as [|c1 s1]; [discriminate|]. cbn [lead_space strings.Fields_go].
  destruct (strings.asciiSpace c1); [exists 1%nat; split; [lia | reflexivity]|].
  destruct s1 as [|c2 s2]; [discriminate|].
  destruct (strings.space2 c1 c2); [exists 2%nat; split; [lia | reflexivity]|].
  destruct s2 as [|c3 s3]; [discriminate|].
  destruct (strings.space3 c1 c2 c3); [|discriminate].
  exists 3%nat; split; [lia | reflexivity].
Qed.

Lemma solid_suffix (a b : string) : solid (a ++ b) = true -> solid b = true.
Proof.
  induction a as [|c a IH]; [auto|]. cbn [String.append solid].
  intros H. apply andb_true_iff in H as [_ H]. exact (IH H).
Qed.

(** A text is solid when no white space starts at any of its suffixes,
    with whatever follows the text. *)
Lemma solid_ctx (p s : string) :
  (forall a b, p = a ++ b -> b <> "" -> lead_space (b ++ s) = false) ->
  solid p = true.
Proof.
  induction p as [|c p IH]; intros H; [reflexivity|].
  cbn [solid]. apply andb_true_iff. split.
  - apply negb_true_iff. apply (lead_space_prefix _ s).
    apply (H "" (String c p)); [reflexivity | discriminate].
  - apply IH. intros a b E Hb. apply (H (String c a) b); [|exact Hb].
    rewrite E. reflexivity.
Qed.

Lemma string_snoc_suffix (p : string) (c : ascii) (a b : string) :
  p ++ String c "" = a ++ b -> b <> "" ->
  exists b', b = b' ++ String c "" /\ p = a ++ b'.
Proof.
  revert a. induction p as [|d p IH]; intros a E Hb.
  - destruct a as [|x a].
    + exists "". cbn [String.append] in *. auto.
    + cbn [String.append] in E. injection E as -> E.
      destruct a; [|discriminate]. cbn [String.append] in E. congruence.
  - destruct a as [|x a].
    + exists (String d p). cbn [String.append] in *. auto.
    + cbn [String.append] in E. injection E as -> E.
      destruct (IH a E Hb) as (b' & E1 & E2).
      exists b'. split; [exact E1|]. rewrite E2. reflexivity.
Qed.

Lemma len_le_0 (s : string) : (strings.len s <= 0)%nat -> s = "".
Proof. destruct s; [reflexivity | simpl; lia]. Qed.

(** Every field that [Fields_go] gives is a field. *)
Lemma Fields_go_fields (n : nat) :
  forall s cur,
    (strings.len s <= n)%nat ->
    (forall acc, cur = Some acc ->
       acc <> ""
       /\ forall a b, String.rev acc = a ++ b -> b <> "" ->
                      lead_space (b ++ s) = false) ->
    Forall (fun f => field f = true) (strings.Fields_go cur s).
Proof.
  assert (Hflush : forall cur s,
            (forall acc, cur = Some acc ->
               acc <> ""
               /\ forall a b, String.rev acc = a ++ b -> b <> "" ->
                              lead_space (b ++ s) = false) ->
            Forall (fun f => field f = true) (strings.flush cur)).
  { intros [acc|] s H; [|constructor]. destruct (H acc eq_refl) as [Hne Hs].
    repeat constructor. unfold field. apply andb_true_iff. split.
    - apply negb_true_iff, String.eqb_neq. intros E.
      destruct acc as [|c acc]; [congruence|]. rewrite rev_cons in E.
      destruct (String.rev acc); discriminate E.
    - exact (solid_ctx _ s Hs). }
  induction n as [|n IH]; intros s cur Hlen Hcur.
  - apply len_le_0 in Hlen. subst s. exact (Hflush cur "" Hcur).
  - destruct s as [|c s]; [exact (Hflush cur "" Hcur)|].
    destruct (lead_space (String c s)) eqn:El.
    + destruct (Fields_go_space cur _ El) as (k & Hk & ->).
      apply Forall_app. split; [exact (Hflush cur _ Hcur)|].
      apply IH; [|discriminate].
      rewrite len_drop. simpl in Hlen |- *. lia.
    + rewrite (Fields_go_nospace cur c s El). apply IH; [simpl in Hlen; lia|].
      intros acc' E. destruct cur as [acc|]; cbn [strings.push] in E;
        injection E as <-; (split; [discriminate|]).
      * destruct (Hcur acc eq_refl) as [_ Hs].
        intros a b E Hb. rewrite rev_cons in E.
        destruct (string_snoc_suffix _ _ _ _ E Hb) as (b' & -> & E').
        rewrite app_assoc. cbn [String.append].
        destruct b' as [|x b'']; [exact El|].
        apply (Hs a (String x b'')); [exact E' | discriminate].
      * intros a b E Hb. change (String.rev (String c "")) with ("" ++ String c "") in E.
        destruct (string_snoc_suffix _ _ _ _ E Hb) as (b' & -> & E').
        destruct a; [|discriminate]. destruct b'; [|discriminate].
        exact El.
Qed.

Lemma Fields_fields (s : string) :
  Forall (fun f => field f = true) (strings.Fields s).
Proof.
  apply (Fields_go_fields (strings.len s)); [lia | discriminate].
Qed.

(** ** Fields with separators between them *)

(** The space and the line feed are no byte of a white space code point
    of two or three bytes. *)
Lemma sep_no_part (x : ascii) :
  x = " "%char \/ x = newline ->
  (forall c1, strings.space2 c1 x = false)
  /\ (forall c1 c3, strings.space3 c1 x c3 = false)
  /\ (forall c1 c2, strings.space3 c1 c2 x = false).
Proof.
  intros Hx. split; [|split].
  - intros c1. unfold strings.space2.
    destruct Hx as [-> | ->]; apply andb_false_r.
  - intros c1 c3.
    destruct c1 as [b0 b1 b2 b3 b4 b5 b6 b7];
      destruct b0, b1, b2, b3, b4, b5, b6, b7;
      destruct Hx as [-> | ->]; reflexivity.
  - intros c1 c2.
    destruct c1 as [b0 b1 b2 b3 b4 b5 b6 b7];
      destruct b0, b1, b2, b3, b4, b5, b6, b7; try reflexivity;
      destruct c2 as [d0 d1 d2 d3 d4 d5 d6 d7];
      destruct d0, d1, d2, d3, d4, d5, d6, d7;
      destruct Hx as [-> | ->]; reflexivity.
Qed.

Lemma lead_space_sep (b tail : string) :
  lead_space b = false -> b <> "" -> sep_next tail ->
  lead_space (b ++ tail) = false.
Proof.
  intros H Hb [-> | (x & r & -> & Hx)]; [rewrite app_nil_r; exact H|].
  destruct (sep_no_part x Hx) as (S2 & S3 & S3').
  destruct b as [|c1 [|c2 [|c3 b]]]; [congruence| | |exact H];
    cbn [String.append lead_space] in *.
  - rewrite orb_false_r in H. rewrite H, S2. destruct r; [reflexivity | apply S3].
  - apply orb_false_iff in H as [-> H]. rewrite orb_false_r in H.
    rewrite H, S3'. reflexivity.
Qed.

Lemma Fields_go_run (f tail : string) :
  solid f = true -> sep_next tail ->
  forall cur,
    strings.Fields_go cur (f ++ tail) = strings.Fields_go (pushes f cur) tail.
Proof.
  intros Hf Ht. induction f as [|c f IH]; intros cur; [reflexivity|].
  cbn [solid] in Hf. apply andb_true_iff in Hf as [Hc Hf].
  apply negb_true_iff in Hc.
  cbn [String.append pushes].
  rewrite Fields_go_nospace.
  - apply (IH Hf).
  - apply (lead_space_sep (String c f) tail Hc); [discriminate | exact Ht].
Qed.

Lemma flush_pushes (f : string) :
  forall acc, strings.flush (pushes f (Some acc)) = [String.rev acc ++ f].
Proof.
  induction f as [|c f IH]; intros acc.
  - cbn [pushes strings.flush]. rewrite app_nil_r. reflexivity.
  - cbn [pushes strings.push]. rewrite IH, rev_cons, app_assoc. reflexivity.
Qed.

Lemma flush_pushes_None (f : string) :
  f <> "" -> strings.flush (pushes f None) = [f].
Proof.
  destruct f as [|c f]; [congruence|]. intros _.
  cbn [pushes strings.push]. rewrite flush_pushes. reflexivity.
Qed.

Lemma field_inv (f : string) : field f = true -> f <> "" /\ solid f = true.
Proof.
  unfold field. intros H. apply andb_true_iff in H as [H1 H2].
  apply negb_true_iff, String.eqb_neq in H1. auto.
Qed.

Lemma Fields_go_flush (cur : option string) (x : ascii) (r : string) :
  x = " "%char \/ x = newline ->
  strings.Fields_go cur (String x r)
  = (strings.flush cur ++ strings.Fields_go None r)%list.
Proof. intros [-> | ->]; reflexivity. Qed.

(** The fields of a line of fields are its fields. *)
Lemma Fields_line_of (fs : list string) :
  Forall (fun f => field f = true) fs ->
  strings.Fields (line_of fs) = fs.
Proof.
  unfold strings.Fields, line_of.
  induction fs as [|f fs IH]; intros H; [reflexivity|].
  inversion H as [|? ? Hf Hfs]; subst. apply field_inv in Hf as [Hne Hs].
  destruct fs as [|g gs].
  - cbn [strings.Join]. rewrite <- (app_nil_r f) at 1.
    rewrite (Fields_go_run f "" Hs) by (left; reflexivity).
    cbn [strings.Fields_go]. apply flush_pushes_None. exact Hne.
  - change (strings.Join (f :: g :: gs) " ")
      with (f ++ String " " (strings.Join (g :: gs) " ")).
    rewrite (Fields_go_run f _ Hs) by (right; eauto).
    rewrite Fields_go_flush by auto.
    rewrite (flush_pushes_None f Hne), (IH Hfs). reflexivity.
Qed.

(** A line that [normalizeWhitespace] has made stays as it is. *)
Lemma line_of_Fields (ln : string) :
  line_of (strings.Fields (line_of (strings.Fields ln)))
  = line_of (strings.Fields ln).
Proof. rewrite (Fields_line_of _ (Fields_fields ln)). reflexivity. Qed.

(** ** Lines of fields *)

Lemma made_line_fixed (l : string) :
  made_line l -> strings.Join (strings.Fields l) " " = l.
Proof.
  intros (fs & Hfs & ->). rewrite (Fields_line_of fs Hfs). reflexivity.
Qed.

Lemma made_line_Fields (ln : string) :
  made_line (strings.Join (strings.Fields ln) " ").
Proof. exists (strings.Fields ln). split; [apply Fields_fields | reflexivity]. Qed.

Lemma solid_no_space (f : string) :
  solid f = true ->
  all_bytes (fun c => negb (strings.asciiSpace c)) f = true.
Proof.
  induction f as [|c f IH]; [reflexivity|]. cbn [solid all_bytes].
  intros H. apply andb_true_iff in H as [Hc H]. rewrite (IH H), andb_true_r.
  apply negb_true_iff in Hc. cbn [lead_space] in Hc.
  apply orb_false_iff in Hc as [-> _]. reflexivity.
Qed.

Lemma made_line_no_newline (l : string) :
  made_line l -> all_bytes (is_not newline) l = true.
Proof.
  intros (fs & Hfs & ->). unfold line_of.
  induction Hfs as [|f fs Hf Hfs IH]; [reflexivity|].
  apply field_inv in Hf as [_ Hs].
  assert (Hf : all_bytes (is_not newline) f = true).
  { pose proof (solid_no_space f Hs) as H. clear -H.
    induction f as [|c f IH]; [reflexivity|]. cbn [all_bytes] in *.
    apply andb_true_iff in H as [Hc H]. rewrite (IH H), andb_true_r.
    unfold is_not. destruct (Ascii.eqb c newline) eqn:E; [|reflexivity].
    apply Ascii.eqb_eq in E. subst c. discriminate Hc. }
  destruct fs as [|g gs]; [exact Hf|].
  change (strings.Join (f :: g :: gs) " ")
    with (f ++ String " " (strings.Join (g :: gs) " ")).
  rewrite all_bytes_app, Hf. cbn [all_bytes andb]. exact IH.
Qed.

(** A line of fields that is not empty starts with a field and ends
    with one. *)
Lemma made_line_first (l : string) :
  made_line l -> l <> "" ->
  exists f rest, l = f ++ rest /\ field f = true
                 /\ (rest = "" \/ exists r, rest = String " " r).
Proof.
  intros (fs & Hfs & ->) Hne. unfold line_of in *.
  destruct Hfs as [|f fs Hf Hfs]; [exfalso; apply Hne; reflexivity|].
  destruct fs as [|g gs].
  - exists f, "". rewrite app_nil_r. auto.
  - exists f, (String " " (strings.Join (g :: gs) " ")). eauto.
Qed.

Lemma made_line_last (l : string) :
  made_line l -> l <> "" ->
  exists l0 f, l = l0 ++ f /\ field f = true
               /\ (l0 = "" \/ exists l1, l0 = l1 ++ " ").
Proof.
  intros (fs & Hfs & ->) Hne. unfold line_of in *.
  induction Hfs as [|f fs Hf Hfs IH]; [exfalso; apply Hne; reflexivity|].
  destruct fs as [|g gs].
  - exists "", f. auto.
  - destruct IH as (l0 & f' & E & Hf' & Hl0).
    { inversion Hfs as [|? ? Hg _]; subst. apply field_inv in Hg as [Hg _].
      destruct g; [congruence|]. destruct gs; cbn; discriminate. }
    change (strings.Join (f :: g :: gs) " ")
      with (f ++ String " " (strings.Join (g :: gs) " ")).
    rewrite E. exists (f ++ String " " l0), f'. split; [|split; [exact Hf'|]].
    + rewrite app_assoc. reflexivity.
    + right. destruct Hl0 as [-> | [l1 ->]].
      * exists f. reflexivity.
      * exists (f ++ String " " l1). rewrite app_assoc. reflexivity.
Qed.

Lemma made_line_lead (l tail : string) :
  made_line l -> l <> "" -> sep_next tail -> lead_space (l ++ tail) = false.
Proof.
  intros Hl Hne Ht.
  destruct (made_line_first l Hl Hne) as (f & rest & -> & Hf & Hr).
  apply field_inv in Hf as [Hfne Hs]. rewrite app_assoc.
  apply lead_space_sep; [|exact Hfne|].
  - destruct f as [|c f]; [congruence|]. cbn [solid] in Hs.
    apply andb_true_iff in Hs as [Hc _]. apply negb_true_iff in Hc. exact Hc.
  - destruct Hr as [-> | [r ->]]; [exact Ht|]. right. eauto.
Qed.

(** ** Trimming a text of lines of fields *)

Lemma isSpaceRune_lead (r : string) :
  strings.isSpaceRune r = true -> lead_space r = true.
Proof.
  destruct r as [|c1 [|c2 [|c3 [|c4 r]]]]; cbn [strings.isSpaceRune lead_space];
    try discriminate; intros ->; rewrite ?orb_true_r; reflexivity.
Qed.

Lemma isSpaceRune_sep (u : string) (x : ascii) (v : string) :
  x = " "%char \/ x = newline ->
  strings.isSpaceRune (u ++ String x v) = true -> u = "" /\ v = "".
Proof.
  intros Hx. destruct (sep_no_part x Hx) as (S2 & S3 & S3').
  destruct u as [|c1 [|c2 [|c3 u]]]; cbn [String.append strings.isSpaceRune].
  - destruct v as [|d1 [|d2 v]]; [auto| |].
    + assert (E : strings.space2 x d1 = false)
        by (destruct Hx as [-> | ->]; unfold strings.space2; reflexivity).
      rewrite E. discriminate.
    + assert (E : strings.space3 x d1 d2 = false)
        by (destruct Hx as [-> | ->]; reflexivity).
      destruct v; [rewrite E|]; discriminate.
  - destruct v as [|d1 v]; [rewrite S2; discriminate|].
    destruct v; [rewrite S3|]; discriminate.
  - destruct v; [rewrite S3'|]; discriminate.
  - destruct u; discriminate.
Qed.

Lemma TrimRightSpace_field (f : string) :
  solid f = true -> strings.TrimRightSpace f = f.
Proof.
  induction f as [|c f IH]; [reflexivity|]. intros H.
  pose proof H as H'. cbn [solid] in H. apply andb_true_iff in H as [Hc H].
  apply negb_true_iff in Hc.
  cbn [strings.TrimRightSpace]. rewrite (IH H).
  destruct (strings.isSpaceRune (String c f)) eqn:E; [|reflexivity].
  apply isSpaceRune_lead in E. congruence.
Qed.

Lemma TrimRightSpace_sep_field (a : string) (x : ascii) (f : string) :
  x = " "%char \/ x = newline -> field f = true ->
  strings.TrimRightSpace (a ++ String x f) = a ++ String x f.
Proof.
  intros Hx Hf. apply field_inv in Hf as [Hne Hs].
  assert (B : strings.TrimRightSpace (String x f) = String x f).
  { cbn [strings.TrimRightSpace]. rewrite (TrimRightSpace_field f Hs).
    destruct (strings.isSpaceRune (String x f)) eqn:E; [|reflexivity].
    apply (isSpaceRune_sep "" x f Hx) in E as [_ E]. congruence. }
  induction a as [|c a IH]; [exact B|].
  cbn [String.append strings.TrimRightSpace]. rewrite IH.
  destruct (strings.isSpaceRune (String c (a ++ String x f))) eqn:E; [|reflexivity].
  apply (isSpaceRune_sep (String c a) x f Hx) in E as [E _]. discriminate E.
Qed.

Lemma TrimRightSpace_drop (X W : string) :
  strings.TrimRightSpace W = "" ->
  strings.TrimRightSpace (X ++ W) = strings.TrimRightSpace X.
Proof.
  intros HW. induction X as [|c X IH]; [exact HW|].
  cbn [String.append strings.TrimRightSpace]. rewrite IH. reflexivity.
Qed.

(** A text that ends with a line of fields that is not empty, after a
    line feed if after anything, has no white space at its end. *)
Lemma TrimRightSpace_line (a l : string) :
  made_line l -> l <> "" ->
  a = "" \/ (exists a0, a = a0 ++ NL) ->
  strings.TrimRightSpace (a ++ l) = a ++ l.
Proof.
  intros Hl Hne Ha.
  destruct (made_line_last l Hl Hne) as (l0 & f & -> & Hf & Hl0).
  destruct Hl0 as [-> | [l1 ->]].
  - destruct Ha as [-> | [a0 ->]].
    + apply TrimRightSpace_field. apply field_inv in Hf as [_ Hs]. exact Hs.
    + cbn [String.append]. rewrite app_assoc. cbn [String.append].
      apply TrimRightSpace_sep_field; [right; reflexivity | exact Hf].
  - rewrite (app_assoc l1 " " f). cbn [String.append].
    rewrite <- (app_assoc a l1).
    apply TrimRightSpace_sep_field; [left; reflexivity | exact Hf].
Qed.

(** ** Lists of lines *)

Lemma Join_snoc (init : list string) (z sep : string) :
  init <> [] ->
  strings.Join (init ++ [z]) sep = strings.Join init sep ++ sep ++ z.
Proof.
  induction init as [|a init IH]; [congruence|]. intros _.
  destruct init as [|b init].
  - reflexivity.
  - change (strings.Join ((a :: b :: init) ++ [z]) sep)
      with (a ++ sep ++ strings.Join ((b :: init) ++ [z]) sep).
    rewrite IH by discriminate.
    change (strings.Join (a :: b :: init) sep)
      with (a ++ sep ++ strings.Join (b :: init) sep).
    rewrite !app_assoc. reflexivity.
Qed.

Lemma gapless_tail (l : string) (ls : list string) :
  gapless (l :: ls) = true -> gapless ls = true.
Proof.
  destruct ls as [|l' ls]; [reflexivity|]. cbn [gapless].
  intros H. apply andb_true_iff in H as [_ H]. exact H.
Qed.

Lemma gapless_app_l (a b : list string) :
  gapless (a ++ b) = true -> gapless a = true.
Proof.
  induction a as [|x a IH]; [reflexivity|]. intros H.
  destruct a as [|y a]; [reflexivity|].
  change (gapless ((x :: y :: a) ++ b))
    with (negb (String.eqb x "" && String.eqb y "") && gapless ((y :: a) ++ b)) in H.
  change (gapless (x :: y :: a))
    with (negb (String.eqb x "" && String.eqb y "") && gapless (y :: a)).
  apply andb_true_iff in H as [H1 H2].
  rewrite H1. exact (IH H2).
Qed.

Lemma gapless_snoc (init : list string) (y z : string) :
  gapless (init ++ [y; z]) = true -> y = "" -> z = "" -> False.
Proof.
  induction init as [|x init IH]; intros H -> ->.
  - discriminate H.
  - apply (IH (gapless_tail _ _ H)); reflexivity.
Qed.

Lemma squeeze_Forall (P : string -> Prop) (ls : list string) :
  Forall P ls -> forall last, Forall P (squeeze last ls).
Proof.
  induction 1 as [|l ls Hl Hls IH]; intros last; [constructor|].
  cbn [squeeze]. destruct (_ && _); [apply IH|].
  constructor; [exact Hl | apply IH].
Qed.

Lemma squeeze_gapless (ls : list string) :
  forall last,
    gapless (squeeze last ls) = true
    /\ (forall l rest, squeeze last ls = l :: rest -> last = Some "" -> l <> "").
Proof.
  induction ls as [|x ls IH]; intros last; [split; [reflexivity | discriminate]|].
  cbn [squeeze].
  destruct (String.eqb x "" && bool_decide (last = Some "")) eqn:E.
  - apply IH.
  - destruct (IH (Some x)) as [G N]. split.
    + destruct (squeeze (Some x) ls) as [|l rest] eqn:Es; [reflexivity|].
      change (gapless (x :: l :: rest))
        with (negb (String.eqb x "" && String.eqb l "") && gapless (l :: rest)).
      rewrite G, andb_true_r. apply negb_true_iff.
      destruct (String.eqb x "") eqn:Ex; [|reflexivity].
      apply String.eqb_eq in Ex. subst x.
      destruct (String.eqb l "") eqn:El; [|reflexivity].
      apply String.eqb_eq in El. exfalso. exact (N l rest eq_refl eq_refl El).
    + intros l rest [= <- _] -> ->. cbn in E. discriminate E.
Qed.

Lemma squeeze_fixed (ls : list string) :
  gapless ls = true ->
  forall last,
    (forall l rest, ls = l :: rest -> last = Some "" -> l <> "") ->
    squeeze last ls = ls.
Proof.
  induction ls as [|x ls IH]; intros G last N; [reflexivity|].
  cbn [squeeze].
  destruct (String.eqb x "" && bool_decide (last = Some "")) eqn:E.
  - apply andb_true_iff in E as [Ex El]. apply String.eqb_eq in Ex.
    apply bool_decide_eq_true in El. exfalso. exact (N x ls eq_refl El Ex).
  - f_equal. apply IH; [exact (gapless_tail _ _ G)|].
    intros l rest -> [= ->] ->. discriminate G.
Qed.

Lemma squeeze_nonempty (ls : list string) : ls <> [] -> squeeze None ls <> [].
Proof.
  destruct ls as [|x ls]; [congruence|]. intros _. cbn [squeeze].
  rewrite andb_false_r. discriminate.
Qed.

Lemma Split1_of_Join (ls : list string) (sep : ascii) :
  ls <> [] -> Forall (fun l => all_bytes (is_not sep) l = true) ls ->
  strings.Split1 (strings.Join ls (String sep "")) sep = ls.
Proof.
  intros Hne H. induction H as [|l ls Hl Hls IH]; [congruence|].
  destruct ls as [|l' ls].
  - exact (proj2 (Split1_app l "" sep Hl)).
  - change (strings.Join (l :: l' :: ls) (String sep ""))
      with (l ++ String sep (strings.Join (l' :: ls) (String sep ""))).
    rewrite (proj1 (Split1_app l _ sep Hl)), IH by discriminate. reflexivity.
Qed.

(** ** [normalizeWhitespace] on its own result *)

Lemma sep_next_lines (rest : list string) :
  sep_next (match rest with
            | [] => ""
            | _ => String newline (strings.Join rest NL)
            end).
Proof. destruct rest; [left; reflexivity | right; eauto]. Qed.

Lemma Join_cons_NL (l : string) (rest : list string) :
  strings.Join (l :: rest) NL
  = l ++ match rest with
         | [] => ""
         | _ => String newline (strings.Join rest NL)
         end.
Proof. destruct rest; [symmetry; apply app_nil_r | reflexivity]. Qed.

Lemma TrimLeftSpace_lines (ls : list string) :
  ls <> [] -> Forall made_line ls -> gapless ls = true ->
  exists ls1,
    Forall made_line ls1 /\ gapless ls1 = true
    /\ strings.TrimLeftSpace (strings.Join ls NL) = strings.Join ls1 NL
    /\ (ls1 = [""] \/ exists l rest, ls1 = l :: rest /\ l <> "").
Proof.
  intros Hne Hm G. destruct ls as [|l0 rest]; [congruence|].
  assert (Hkeep : forall l rest, made_line l -> l <> "" ->
            strings.TrimLeftSpace (strings.Join (l :: rest) NL)
            = strings.Join (l :: rest) NL).
  { intros l r Hl Hl0. apply TrimLeftSpace_fixed. rewrite Join_cons_NL.
    apply made_line_lead; [exact Hl | exact Hl0 | apply sep_next_lines]. }
  destruct (String.eqb l0 "") eqn:E0.
  - apply String.eqb_eq in E0. subst l0.
    destruct rest as [|l1 rest'].
    + exists [""]. repeat split; auto.
    + inversion Hm as [|? ? _ Hm']; subst.
      assert (Hl1 : l1 <> "").
      { intros ->. discriminate G. }
      exists (l1 :: rest'). split; [exact Hm'|].
      split; [exact (gapless_tail _ _ G)|]. split; [|right; eauto].
      change (strings.Join ("" :: l1 :: rest') NL)
        with (String newline (strings.Join (l1 :: rest') NL)).
      change (strings.TrimLeftSpace (String newline (strings.Join (l1 :: rest') NL)))
        with (strings.TrimLeftSpace (strings.Join (l1 :: rest') NL)).
      apply Hkeep; [|exact Hl1]. inversion Hm'; assumption.
  - apply String.eqb_neq in E0. exists (l0 :: rest).
    split; [exact Hm|]. split; [exact G|]. split; [|right; eauto].
    apply Hkeep; [|exact E0]. inversion Hm; assumption.
Qed.

Lemma TrimRightSpace_lines (ls : list string) :
  Forall made_line ls -> gapless ls = true ->
  ls = [""] \/ (exists l rest, ls = l :: rest /\ l <> "") ->
  exists ls2,
    ls2 <> [] /\ Forall made_line ls2 /\ gapless ls2 = true
    /\ strings.TrimRightSpace (strings.Join ls NL) = strings.Join ls2 NL.
Proof.
  intros Hm G [-> | (l & rest & -> & Hl)].
  { exists [""]. repeat split; auto; discriminate. }
  assert (Hkeep : forall init z, Forall made_line (init ++ [z]) -> z <> "" ->
            strings.TrimRightSpace (strings.Join (init ++ [z]) NL)
            = strings.Join (init ++ [z]) NL).
  { intros init z H Hz. apply Forall_app in H as [_ H].
    inversion H as [|? ? Hmz _]; subst.
    destruct init as [|a init].
    - apply (TrimRightSpace_line "" z Hmz Hz). left. reflexivity.
    - rewrite Join_snoc by discriminate. rewrite <- app_assoc.
      apply (TrimRightSpace_line _ z Hmz Hz). right. eauto. }
  destruct (exists_last (l := l :: rest) ltac:(discriminate)) as (init & z & E).
  rewrite E in *.
  destruct (String.eqb z "") eqn:Ez.
  - apply String.eqb_eq in Ez. subst z.
    destruct init as [|a init]; [injection E as E _; congruence|].
    destruct (exists_last (l := a :: init) ltac:(discriminate)) as (init' & y & E').
    rewrite E' in *.
    assert (Hy : y <> "").
    { intros ->. rewrite <- List.app_assoc in G.
      exact (gapless_snoc init' "" "" G eq_refl eq_refl). }
    exists (init' ++ [y])%list. split; [destruct init'; discriminate|].
    split; [apply Forall_app in Hm as [Hm _]; exact Hm|].
    split; [exact (gapless_app_l _ _ G)|].
    rewrite Join_snoc by (destruct init'; discriminate).
    rewrite (TrimRightSpace_drop _ (NL ++ "")) by reflexivity.
    apply Hkeep; [|exact Hy]. apply Forall_app in Hm as [Hm _]. exact Hm.
  - apply String.eqb_neq in Ez. exists (init ++ [z])%list.
    split; [destruct init; discriminate|].
    split; [exact Hm|]. split; [exact G|]. apply Hkeep; assumption.
Qed.

Lemma TrimSpace_lines (ls : list string) :
  ls <> [] -> Forall made_line ls -> gapless ls = true ->
  exists ls2,
    ls2 <> [] /\ Forall made_line ls2 /\ gapless ls2 = true
    /\ strings.TrimSpace (strings.Join ls NL) = strings.Join ls2 NL.
Proof.
  intros Hne Hm G.
  destruct (TrimLeftSpace_lines ls Hne Hm G) as (ls1 & Hm1 & G1 & E1 & H1).
  destruct (TrimRightSpace_lines ls1 Hm1 G1 H1) as (ls2 & Hne2 & Hm2 & G2 & E2).
  exists ls2. unfold strings.TrimSpace. rewrite E1, E2. auto.
Qed.

(** The text that [normalizeWhitespace] gives is a text of lines of
    fields without two empty lines in a row. *)
Lemma normalizeWhitespace_lines (s : string) :
  exists ls,
    ls <> [] /\ Forall made_line ls /\ gapless ls = true
    /\ normalizeWhitespace s = strings.Join ls NL.
Proof.
  unfold normalizeWhitespace.
  apply TrimSpace_lines.
  - apply squeeze_nonempty. pose proof (Split1_nonempty s newline) as H.
    destruct (strings.Split1 s newline); [congruence | discriminate].
  - apply squeeze_Forall. apply Forall_map.
    apply Forall_forall. intros ln _. apply made_line_Fields.
  - apply squeeze_gapless.
Qed.

Lemma normalizeWhitespace_idem (s : string) :
  normalizeWhitespace (normalizeWhitespace s) = normalizeWhitespace s.
Proof.
  destruct (normalizeWhitespace_lines s) as (ls & Hne & Hm & G & E).
  assert (Ht : strings.TrimSpace (normalizeWhitespace s) = normalizeWhitespace s)
    by (unfold normalizeWhitespace; apply TrimSpace_idem).
  rewrite <- Ht at 2. rewrite E. unfold normalizeWhitespace.
  change NL with (String newline "") at 1.
  rewrite Split1_of_Join;
    [|exact Hne|
     apply (Forall_impl _ _ _ Hm); intros l; apply made_line_no_newline].
  replace (map (fun ln => strings.Join (strings.Fields ln) " ") ls) with ls.
  - rewrite squeeze_fixed; [reflexivity | exact G | discriminate].
  - clear -Hm. induction Hm as [|l ls Hl Hls IH]; [reflexivity|].
    cbn [map]. rewrite <- IH, (made_line_fixed l Hl). reflexivity.
Qed.

(** [normalizeWhitespace] changes nothing in a text that it has made. *)
Theorem normalizeWhitespace_idempotent (s : string) :
  normalizeWhitespace (normalizeWhitespace s) = normalizeWhitespace s.
Proof. exact (normalizeWhitespace_idem s). Qed.

(** The text that [normalizeWhitespace] gives is made of lines with a
    line feed between them, of which no two in a row are empty; a line is
    made of fields with one space between them; a field is not empty and
    no white space starts in it.  The text has no white space at its
    ends. *)
Theorem normalizeWhitespace_shape (s : string) :
  exists ls : list (list string),
    normalizeWhitespace s = strings.Join (map line_of ls) NL
    /\ Forall (Forall (fun f => field f = true)) ls
    /\ gapless (map line_of ls) = true
    /\ strings.TrimSpace (normalizeWhitespace s) = normalizeWhitespace s.
Proof.
  destruct (normalizeWhitespace_lines s) as (ls & _ & Hm & G & E).
  assert (H : exists fss, ls = map line_of fss
                          /\ Forall (Forall (fun f => field f = true)) fss).
  { clear -Hm. induction Hm as [|l ls (fs & Hfs & ->) _ (fss & -> & IH)].
    - exists []. split; [reflexivity | constructor].
    - exists (fs :: fss). split; [reflexivity | constructor; assumption]. }
  destruct H as (fss & -> & Hf). exists fss.
  split; [exact E|]. split; [exact Hf|]. split; [exact G|].
  unfold normalizeWhitespace. apply TrimSpace_idem.
Qed.

(** A text that the renderer has given and that has no comment opener is
    rendered to itself, whatever the parameters are. *)
Theorem render_stable (tpl : string) (ps ps' : params) (out : string) :
  renderNyanSQL tpl ps = Ok out ->
  strings.Contains out "/*" = false ->
  renderNyanSQL out ps' = Ok out.
Proof.
  intros H Hc. rewrite (renderNyanSQL_no_opener out ps' Hc). f_equal.
  destruct (renderNyanSQL_last_pass tpl ps out H) as [t ->].
  assert (Ht : strings.TrimSpace (normalizeWhitespace t) = normalizeWhitespace t)
    by (unfold normalizeWhitespace; apply TrimSpace_idem).
  rewrite Ht, normalizeWhitespace_idem. exact Ht.
Qed.

Lemma render_stable_witness :
  renderNyanSQL "SELECT * FROM t WHERE c = 'd'" {[ "k" := VBool true ]}
  = Ok "SELECT * FROM t WHERE c = 'd'".
Proof.
  apply (render_stable tpl_select_k ∅); vm_compute; reflexivity.
Defined.
